(** * Wine tools helpers (tools/tools.h): string arrays over a block memory

    A shallow embedding of the helper functions of [tools/tools.h] and of
    the C library functions they call.  Memory is a finite map from block
    identifiers to typed objects; the functions of the header are written
    in a state-and-error monad over that memory, statement by statement. *)

From Stdlib Require Import ZArith Lia Ascii String.
From stdpp Require Import base tactics option list gmap strings.

Local Open Scope Z_scope.

(** ** Machine integers *)

(** [unsigned int] is 32 bits wide, [size_t] is 64 bits wide (LP64). *)
Definition wrap32 (z : Z) : Z := z mod 2 ^ 32.
Definition wrap64 (z : Z) : Z := z mod 2 ^ 64.
Definition INT_MAX : Z := 2 ^ 31 - 1.
Definition sizeof_ptr : Z := 8.

(** ** Memory *)

(** A [const char *]: a block and a byte offset into it.  Block 0 is the
    null pointer. *)
Record cptr : Type := CPtr { cblk : Z; coff : Z }.

Definition NULL : cptr := CPtr 0 0.

Global Instance cptr_eq_dec : EqDecision cptr.
Proof. solve_decision. Defined.

(** [struct strarray]: [str] is the block holding the [const char *] cells. *)
Record strarray : Type := StrArray {
  count : Z;   (* strings in use *)
  size : Z;    (* total allocated size *)
  str : Z
}.

Global Instance strarray_eq_dec : EqDecision strarray.
Proof. solve_decision. Defined.

Definition set_count (a : strarray) (v : Z) : strarray :=
  {| count := v; size := size a; str := str a |}.
Definition set_size (a : strarray) (v : Z) : strarray :=
  {| count := count a; size := v; str := str a |}.
Definition set_str (a : strarray) (v : Z) : strarray :=
  {| count := count a; size := size a; str := v |}.

(** The objects of the memory.  A cell or byte that was never written is
    indeterminate ([None]). *)
Inductive obj : Type :=
| OChars (bytes : list (option ascii))
| OPtrs (cells : list (option cptr))
| OStruct (a : strarray).

(** Blocks are never reused: [next] is the identifier the next allocation
    gets. *)
Record heap : Type := Heap {
  objs : gmap Z obj;
  next : Z;
  strtok_save : cptr   (* the position strtok remembers between calls *)
}.

Definition set_objs (h : heap) (m : gmap Z obj) : heap :=
  {| objs := m; next := next h; strtok_save := strtok_save h |}.
Definition set_save (h : heap) (p : cptr) : heap :=
  {| objs := objs h; next := next h; strtok_save := p |}.

(** ** The monad of C statements *)

Inductive outcome (A : Type) : Type :=
| Ok (x : A)
| Undef      (* undefined behaviour *)
| Timeout.   (* the iteration budget of a loop ran out *)
Arguments Ok {A} x.
Arguments Undef {A}.
Arguments Timeout {A}.

Definition M (A : Type) : Type := heap → outcome (A * heap).

Definition retM {A} (x : A) : M A := λ h, Ok (x, h).
Definition bindM {A B} (c : M A) (k : A → M B) : M B :=
  λ h, match c h with
       | Ok (x, h') => k x h'
       | Undef => Undef
       | Timeout => Timeout
       end.
Definition undef {A} : M A := λ _, Undef.
Definition timeout {A} : M A := λ _, Timeout.
Definition get_heap : M heap := λ h, Ok (h, h).

Notation "x <- c ;; k" := (bindM c (λ x, k))
  (at level 100, c at next level, right associativity).
Notation "c ;;; k" := (bindM c (λ _, k))
  (at level 100, right associativity).

(** *** Accessors *)

Definition load_struct (p : Z) : M strarray :=
  λ h, match objs h !! p with
       | Some (OStruct a) => Ok (a, h)
       | _ => Undef
       end.

Definition store_struct (p : Z) (a : strarray) : M unit :=
  λ h, match objs h !! p with
       | Some (OStruct _) => Ok (tt, set_objs h (<[p := OStruct a]> (objs h)))
       | _ => Undef
       end.

Definition load_cell (b : Z) (i : Z) : M cptr :=
  λ h, match objs h !! b with
       | Some (OPtrs cells) =>
           if decide (0 ≤ i) then
             match cells !! Z.to_nat i with
             | Some (Some v) => Ok (v, h)
             | _ => Undef
             end
           else Undef
       | _ => Undef
       end.

Definition store_cell (b : Z) (i : Z) (v : cptr) : M unit :=
  λ h, match objs h !! b with
       | Some (OPtrs cells) =>
           if decide (0 ≤ i < Z.of_nat (length cells)) then
             Ok (tt, set_objs h (<[b := OPtrs (<[Z.to_nat i := Some v]> cells)]> (objs h)))
           else Undef
       | _ => Undef
       end.

(** *** malloc, realloc, free

    Allocation is modelled as always succeeding, so the branch of
    [xmalloc] and [xrealloc] that prints a message and calls [exit(1)] is
    never taken.  [realloc] deallocates the old object and returns a new
    one (C11 7.22.3.5); with a size of 0 it frees the block and returns a
    null pointer, which is the case [xrealloc] lets through. *)

Definition alloc (o : obj) : M Z :=
  λ h, Ok (next h, {| objs := <[next h := o]> (objs h);
                      next := next h + 1;
                      strtok_save := strtok_save h |}).

Definition malloc (n : Z) : M cptr :=
  b <- alloc (OChars (replicate (Z.to_nat n) None)) ;;
  retM (CPtr b 0).

Definition free_chars (p : cptr) : M unit :=
  λ h, if decide (p = NULL) then Ok (tt, h)
       else match objs h !! cblk p with
            | Some (OChars _) =>
                if decide (coff p = 0) then Ok (tt, set_objs h (delete (cblk p) (objs h)))
                else Undef
            | _ => Undef
            end.

Definition realloc (ptr : Z) (n : Z) : M Z :=
  if decide (ptr = 0) then
    alloc (OPtrs (replicate (Z.to_nat (n / sizeof_ptr)) None))
  else
    λ h, match objs h !! ptr with
         | Some (OPtrs cells) =>
             if decide (n = 0) then Ok (0, set_objs h (delete ptr (objs h)))
             else alloc (OPtrs (resize (Z.to_nat (n / sizeof_ptr)) None cells))
                        (set_objs h (delete ptr (objs h)))
         | _ => Undef
         end.

(** ** tools.h: allocation wrappers *)

Definition xmalloc (n : Z) : M cptr :=
  malloc (if decide (n ≠ 0) then n else 1).

Definition xrealloc (ptr : Z) (n : Z) : M Z :=
  realloc ptr n.

(** ** C strings *)

Definition NUL : ascii := Ascii.zero.

(** The bytes of the string that starts at the head of [bs], without its
    terminator; [None] when an indeterminate byte or the end of the
    object comes before a terminator. *)
Fixpoint read_cstr (bs : list (option ascii)) : option (list ascii) :=
  match bs with
  | Some c :: bs' =>
      if decide (c = NUL) then Some []
      else match read_cstr bs' with
           | Some s => Some (c :: s)
           | None => None
           end
  | _ => None
  end.

Definition cstr_at (h : heap) (p : cptr) : option (list ascii) :=
  match objs h !! cblk p with
  | Some (OChars bs) =>
      if decide (0 ≤ coff p) then read_cstr (drop (Z.to_nat (coff p)) bs) else None
  | _ => None
  end.

Definition load_cstr (p : cptr) : M (list ascii) :=
  λ h, match cstr_at h p with
       | Some s => Ok (s, h)
       | None => Undef
       end.

Definition store_bytes (p : cptr) (l : list ascii) : M unit :=
  λ h, match objs h !! cblk p with
       | Some (OChars bs) =>
           if decide (0 ≤ coff p ∧ coff p + Z.of_nat (length l) ≤ Z.of_nat (length bs)) then
             let o := Z.to_nat (coff p) in
             Ok (tt, set_objs h (<[cblk p :=
                   OChars (take o bs ++ (Some <$> l) ++ drop (o + length l)%nat bs)]> (objs h)))
           else Undef
       | _ => Undef
       end.

Definition byte_val (c : ascii) : Z := Z.of_N (N_of_ascii c).

Fixpoint strcmp_list (s t : list ascii) : Z :=
  match s, t with
  | [], [] => 0
  | [], d :: _ => 0 - byte_val d
  | c :: _, [] => byte_val c - 0
  | c :: s', d :: t' =>
      if decide (c = d) then strcmp_list s' t' else byte_val c - byte_val d
  end.

Fixpoint strspn_list (s accept : list ascii) : nat :=
  match s with
  | c :: s' => if decide (c ∈ accept) then S (strspn_list s' accept) else O
  | [] => O
  end.

Fixpoint strcspn_list (s reject : list ascii) : nat :=
  match s with
  | c :: s' => if decide (c ∈ reject) then O else S (strcspn_list s' reject)
  | [] => O
  end.

Definition cptr_add (p : cptr) (n : nat) : cptr :=
  CPtr (cblk p) (coff p + Z.of_nat n).

Definition strlen (p : cptr) : M Z :=
  s <- load_cstr p ;; retM (Z.of_nat (length s)).

Definition strcmp (p q : cptr) : M Z :=
  s <- load_cstr p ;; t <- load_cstr q ;; retM (strcmp_list s t).

Definition strcpy (dst src : cptr) : M cptr :=
  s <- load_cstr src ;;
  store_bytes dst (s ++ [NUL]) ;;;
  retM dst.

Definition strcat (dst src : cptr) : M cptr :=
  d <- load_cstr dst ;;
  s <- load_cstr src ;;
  store_bytes (cptr_add dst (length d)) (s ++ [NUL]) ;;;
  retM dst.

Definition set_strtok_save (p : cptr) : M unit :=
  λ h, Ok (tt, set_save h p).

(** [strtok], after glibc's [strtok_r] with the saved position held in
    the memory.  The tokens it returns are those of every conforming
    [strtok]; the position kept after the last token is glibc's, and
    nothing proved below depends on it. *)
Definition strtok (s delim : cptr) : M cptr :=
  h <- get_heap ;;
  let s := if decide (s = NULL) then strtok_save h else s in
  d <- load_cstr delim ;;
  txt <- load_cstr s ;;
  match txt with
  | [] => set_strtok_save s ;;; retM NULL
  | _ =>
      let skip := strspn_list txt d in
      let s := cptr_add s skip in
      let rest := drop skip txt in
      match rest with
      | [] => set_strtok_save s ;;; retM NULL
      | _ =>
          let tl := strcspn_list rest d in
          let e := cptr_add s tl in
          if decide (tl = length rest) then
            set_strtok_save e ;;; retM s
          else
            store_bytes e [NUL] ;;;
            set_strtok_save (cptr_add e 1) ;;;
            retM s
      end
  end.

(** The formatting engine behind [vsnprintf], for one format string and
    argument list: the text it renders, and whether, for a buffer of a
    given size that is too small, it reports -1 (as old C libraries do)
    instead of the length the text needs (C99). *)
Record engine : Type := Engine {
  rendered : list ascii;
  legacy : Z → bool
}.

Definition vsnprintf (p : cptr) (sz : Z) (e : engine) : M Z :=
  let len := Z.of_nat (length (rendered e)) in
  if decide (INT_MAX < len) then retM (-1)
  else if decide (len < sz) then
    store_bytes p (rendered e ++ [NUL]) ;;; retM len
  else
    (if decide (0 < sz) then
       store_bytes p (take (Z.to_nat (sz - 1)) (rendered e) ++ [NUL])
     else retM tt) ;;;
    retM (if legacy e sz then -1 else len).

(** [bsearch] over a block of [const char *] cells, after glibc: the
    comparison function gets the key first and the element second. *)
Fixpoint bsearch_loop (fuel : nat) (func : heap → cptr → cptr → Z)
    (key : cptr) (base : Z) (l u : Z) : M (option Z) :=
  if decide (l < u) then
    match fuel with
    | O => timeout
    | S fuel' =>
        let idx := (l + u) / 2 in
        e <- load_cell base idx ;;
        h <- get_heap ;;
        let comparison := func h key e in
        if decide (comparison < 0) then bsearch_loop fuel' func key base l idx
        else if decide (comparison > 0) then bsearch_loop fuel' func key base (idx + 1) u
        else retM (Some idx)
    end
  else retM None.

Definition bsearch (func : heap → cptr → cptr → Z) (key : cptr)
    (base : Z) (nmemb : Z) : M (option Z) :=
  bsearch_loop (Z.to_nat nmemb) func key base 0 nmemb.

(** ** Static objects

    The objects with static storage that the header refers to: the
    constant [empty_strarray] and the string literals. *)
Definition empty_strarray_addr : Z := 1.
Definition lit_empty : cptr := CPtr 2 0.       (* "" *)
Definition lit_colon : cptr := CPtr 3 0.       (* ":" *)
Definition lit_semicolon : cptr := CPtr 4 0.   (* ";" *)

Definition empty_strarray : strarray := StrArray 0 0 0.

Definition initial_objs : gmap Z obj :=
  <[1 := OStruct empty_strarray]>
  (<[2 := OChars [Some NUL]]>
  (<[3 := OChars [Some ":"%char; Some NUL]]>
  (<[4 := OChars [Some ";"%char; Some NUL]]> ∅))).

Definition initial_heap : heap :=
  {| objs := initial_objs; next := 5; strtok_save := NULL |}.

(** ** tools.h *)

Definition xstrdup (s : cptr) : M cptr :=
  n <- strlen s ;;
  p <- xmalloc (wrap64 (n + 1)) ;;
  strcpy p s.

Fixpoint strmake_loop (fuel : nat) (e : engine) (sz : Z) : M cptr :=
  match fuel with
  | O => timeout
  | S fuel' =>
      p <- xmalloc sz ;;
      n <- vsnprintf p sz e ;;
      if decide (n = -1) then
        free_chars p ;;; strmake_loop fuel' e (wrap64 (sz * 2))
      else if decide (sz ≤ wrap64 n) then
        (* n + 1 is computed in int *)
        if decide (n + 1 ≤ INT_MAX) then
          free_chars p ;;; strmake_loop fuel' e (wrap64 (n + 1))
        else undef
      else retM p
  end.

Definition strmake (fuel : nat) (e : engine) : M cptr :=
  strmake_loop fuel e 100.

Definition strarray_add (array : Z) (s : cptr) : M unit :=
  a <- load_struct array ;;
  (if decide (count a = size a) then
     (if decide (size a ≠ 0) then store_struct array (set_size a (wrap32 (size a * 2)))
      else store_struct array (set_size a 16)) ;;;
     a <- load_struct array ;;
     p <- xrealloc (str a) (wrap64 (sizeof_ptr * size a)) ;;
     store_struct array (set_str a p)
   else retM tt) ;;;
  a <- load_struct array ;;
  store_cell (str a) (count a) s ;;;
  store_struct array (set_count a (wrap32 (count a + 1))).

(** In the loops over [i < count] the index stays below a 32-bit count,
    so [i++] does not wrap; [n] is the number of iterations left. *)
Fixpoint strarray_addall_loop (array : Z) (added : strarray) (i : Z) (n : nat) : M unit :=
  match n with
  | O => retM tt
  | S n' =>
      s <- load_cell (str added) i ;;
      strarray_add array s ;;;
      strarray_addall_loop array added (i + 1) n'
  end.

Definition strarray_addall (array : Z) (added : strarray) : M unit :=
  strarray_addall_loop array added 0 (Z.to_nat (count added)).

Fixpoint strarray_exists_loop (array : Z) (s : cptr) (i : Z) (n : nat) : M Z :=
  match n with
  | O => retM 0
  | S n' =>
      a <- load_struct array ;;
      e <- load_cell (str a) i ;;
      c <- strcmp e s ;;
      if decide (c = 0) then retM 1
      else strarray_exists_loop array s (i + 1) n'
  end.

Definition strarray_exists (array : Z) (s : cptr) : M Z :=
  a <- load_struct array ;;
  strarray_exists_loop array s 0 (Z.to_nat (count a)).

Definition strarray_add_uniq (array : Z) (s : cptr) : M unit :=
  r <- strarray_exists array s ;;
  if decide (r = 0) then strarray_add array s else retM tt.

Fixpoint strarray_addall_uniq_loop (array : Z) (added : strarray) (i : Z) (n : nat) : M unit :=
  match n with
  | O => retM tt
  | S n' =>
      s <- load_cell (str added) i ;;
      strarray_add_uniq array s ;;;
      strarray_addall_uniq_loop array added (i + 1) n'
  end.

Definition strarray_addall_uniq (array : Z) (added : strarray) : M unit :=
  strarray_addall_uniq_loop array added 0 (Z.to_nat (count added)).

(** The body of the [for (tok = strtok(buf, delim); tok; tok = strtok(NULL, delim))]
    loop of [strarray_fromstring]. *)
Fixpoint strarray_fromstring_loop (fuel : nat) (array : Z) (tok delim : cptr) : M unit :=
  if decide (tok = NULL) then retM tt
  else match fuel with
       | O => timeout
       | S fuel' =>
           t <- xstrdup tok ;;
           strarray_add array t ;;;
           tok' <- strtok NULL delim ;;
           strarray_fromstring_loop fuel' array tok' delim
       end.

Definition free_struct (p : Z) : M unit :=
  λ h, Ok (tt, set_objs h (delete p (objs h))).

(** The local [array] lives in a block of its own, initialised with a
    copy of [empty_strarray] and released on return.  Every iteration
    consumes at least one byte of [buf], so [strlen(buf) + 1] iterations
    are a sufficient budget. *)
Definition strarray_fromstring (s delim : cptr) : M strarray :=
  e <- load_struct empty_strarray_addr ;;
  array <- alloc (OStruct e) ;;
  buf <- xstrdup s ;;
  n <- strlen buf ;;
  tok <- strtok buf delim ;;
  strarray_fromstring_loop (S (Z.to_nat n)) array tok delim ;;;
  free_chars buf ;;;
  r <- load_struct array ;;
  free_struct array ;;;
  retM r.

Definition strarray_frompath (win32 : bool) (path : cptr) : M strarray :=
  if decide (path = NULL) then load_struct empty_strarray_addr
  else if win32 then strarray_fromstring path lit_semicolon
  else strarray_fromstring path lit_colon.

Fixpoint strarray_tostring_len (array : strarray) (i : Z) (n : nat) (len : Z) : M Z :=
  match n with
  | O => retM len
  | S n' =>
      e <- load_cell (str array) i ;;
      l <- strlen e ;;
      strarray_tostring_len array (i + 1) n' (wrap32 (wrap64 (len + l)))
  end.

Fixpoint strarray_tostring_cat (array : strarray) (sep s : cptr) (i : Z) (n : nat) : M unit :=
  match n with
  | O => retM tt
  | S n' =>
      strcat s sep ;;;
      e <- load_cell (str array) i ;;
      strcat s e ;;;
      strarray_tostring_cat array sep s (i + 1) n'
  end.

Definition strarray_tostring (array : strarray) (sep : cptr) : M cptr :=
  n <- strlen sep ;;
  let len := wrap32 (wrap64 (1 + wrap64 (wrap32 (count array - 1) * n))) in
  if decide (count array = 0) then xstrdup lit_empty
  else
    len <- strarray_tostring_len array 0 (Z.to_nat (count array)) len ;;
    s <- xmalloc len ;;
    e <- load_cell (str array) 0 ;;
    strcpy s e ;;;
    strarray_tostring_cat array sep s 1 (Z.to_nat (count array - 1)) ;;;
    retM s.

Definition strarray_bsearch (array : Z) (s : cptr)
    (func : heap → cptr → cptr → Z) : M cptr :=
  a <- load_struct array ;;
  res <- (if decide (count a ≠ 0) then bsearch func s (str a) (count a)
          else retM None) ;;
  match res with
  | Some idx => a <- load_struct array ;; load_cell (str a) idx
  | None => retM NULL
  end.

(** ** Well-formed memories and arrays in memory *)

(** Live blocks lie strictly between the null block and [next]. *)
Definition heap_wf (h : heap) : Prop :=
  0 < next h ∧ ∀ b o, objs h !! b = Some o → 0 < b < next h.

(** The cells [array->str] points to; a null [str] has none. *)
Definition cells_of (h : heap) (a : strarray) : option (list (option cptr)) :=
  if decide (str a = 0) then Some []
  else match objs h !! str a with
       | Some (OPtrs cells) => Some cells
       | _ => None
       end.

(** [value_at h a elems]: the array value [a] (a [struct strarray] held
    or passed by value) has [size] cells, of which the first [count] hold
    the string references [elems], in order. *)
Definition value_at (h : heap) (a : strarray) (elems : list cptr) : Prop :=
  ∃ cells, cells_of h a = Some cells ∧
    Z.of_nat (length cells) = size a ∧
    size a < 2 ^ 32 ∧
    Z.of_nat (length elems) = count a ∧
    take (length elems) cells = Some <$> elems.

(** [array_at h p a elems]: the object at [p] is the array [a] with the
    elements [elems]. *)
Definition array_at (h : heap) (p : Z) (a : strarray) (elems : list cptr) : Prop :=
  objs h !! p = Some (OStruct a) ∧ value_at h a elems.

(** What [strarray_add] does to the capacity. *)
Definition grown_size (cnt sz : Z) : Z :=
  if decide (cnt = sz) then (if decide (sz ≠ 0) then sz * 2 else 16) else sz.

(** The capacity after [n] more calls of [strarray_add]. *)
Fixpoint capacity_after (cnt sz : Z) (n : nat) : Z :=
  match n with
  | O => sz
  | S n' => capacity_after (cnt + 1) (grown_size cnt sz) n'
  end.

(** The references [elems] point to the strings [strs]. *)
Definition strings_at (h : heap) (elems : list cptr) (strs : list (list ascii)) : Prop :=
  Forall2 (λ e t, cstr_at h e = Some t) elems strs.

(** Every block of characters of [h] is in [h'] with the same bytes. *)
Definition chars_preserved (h h' : heap) : Prop :=
  ∀ b bs, objs h !! b = Some (OChars bs) → objs h' !! b = Some (OChars bs).

(** Consecutive calls of [strarray_add], one per element of [l]. *)
Fixpoint add_seq (array : Z) (l : list cptr) : M unit :=
  match l with
  | [] => retM tt
  | s :: l' => strarray_add array s ;;; add_seq array l'
  end.

(** A small memory for examples: the static objects, an empty array at
    block 5 and the string "x" at block 6. *)
Definition example_heap : heap :=
  {| objs := <[5 := OStruct empty_strarray]>
             (<[6 := OChars [Some "x"%char; Some NUL]]> initial_objs);
     next := 7; strtok_save := NULL |}.

(** [example_heap] after [strarray_add] of the string "x" to the array at
    block 5. *)
Definition example_heap1 : heap :=
  {| objs := <[5 := OStruct (StrArray 1 16 7)]>
             (<[7 := OPtrs (Some (CPtr 6 0) :: replicate 15 None)]>
             (<[6 := OChars [Some "x"%char; Some NUL]]> initial_objs));
     next := 8; strtok_save := NULL |}.

(** [example_heap] after 16 calls of [strarray_add] on the array at
    block 5: the array is full, with 16 elements in 16 cells. *)
Definition example_heap16 : heap :=
  match add_seq 5 (replicate 16 (CPtr 6 0)) example_heap with
  | Ok (_, h) => h
  | _ => example_heap
  end.

(** No two elements of the array at [p] are equal as strings. *)
Definition dup_free (h : heap) (p : Z) : Prop :=
  ∃ a elems strs, array_at h p a elems ∧ strings_at h elems strs ∧ NoDup strs.

(** What [strarray_addall_uniq] needs of the array value it reads from:
    the cells it can read, if their block is live, point to strings. *)
Definition source_ok (h : heap) (added : strarray) : Prop :=
  str added < next h ∧
  ∀ cells (i : nat) e,
    objs h !! str added = Some (OPtrs cells) → cells !! i = Some (Some e) →
    Z.of_nat i < count added → is_Some (cstr_at h e).

(** Code that runs between two calls on the array at [p] and touches
    neither the array, nor its cells, nor any string. *)
Definition array_untouched (p : Z) (h h' : heap) : Prop :=
  chars_preserved h h' ∧
  ∀ a, objs h !! p = Some (OStruct a) →
       objs h' !! p = Some (OStruct a) ∧
       (str a ≠ 0 → objs h' !! str a = objs h !! str a).

(** The memories in which the array at [p] was built from an empty array
    with [strarray_add_uniq] and [strarray_addall_uniq] only. *)
Inductive uniq_built (p : Z) : heap → Prop :=
| ub_empty h a :
    heap_wf h → array_at h p a [] → uniq_built p h
| ub_add_uniq h s h' :
    uniq_built p h → is_Some (cstr_at h s) →
    strarray_add_uniq p s h = Ok (tt, h') → uniq_built p h'
| ub_addall_uniq h added belems bstrs h' :
    uniq_built p h → value_at h added belems → strings_at h belems bstrs →
    strarray_addall_uniq p added h = Ok (tt, h') → uniq_built p h'
| ub_other h h' :
    uniq_built p h → heap_wf h' → array_untouched p h h' → uniq_built p h'.

(** A memory with two arrays: the one at block 5 holds the string "x"
    twice, the one at block 8 is empty. *)
Definition example_heap_dup : heap :=
  {| objs := <[5 := OStruct (StrArray 2 16 7)]>
             (<[7 := OPtrs (Some (CPtr 6 0) :: Some (CPtr 6 0) :: replicate 14 None)]>
             (<[6 := OChars [Some "x"%char; Some NUL]]>
             (<[8 := OStruct empty_strarray]> initial_objs)));
     next := 9; strtok_save := NULL |}.

(** [keeps_structs P c]: a run of [c] that completes keeps every
    [struct strarray] object of the memory as it is, except those at the
    blocks in [P]. *)
Definition keeps_structs (P : Z → Prop) {A} (c : M A) : Prop :=
  ∀ h x h', heap_wf h → c h = Ok (x, h') →
    heap_wf h' ∧ next h ≤ next h' ∧
    ∀ q o, ¬ P q → objs h !! q = Some (OStruct o) → objs h' !! q = Some (OStruct o).

(** [cmp] orders the references of [dom] consistently: swapping the
    arguments swaps the sign, and "not greater" is transitive. *)
Definition consistent_order (cmp : cptr → cptr → Z) (dom : list cptr) : Prop :=
  (∀ x y, x ∈ dom → y ∈ dom → (cmp x y < 0 ↔ 0 < cmp y x)) ∧
  (∀ x y z, x ∈ dom → y ∈ dom → z ∈ dom →
            cmp x y ≤ 0 → cmp y z ≤ 0 → cmp x z ≤ 0).

(** [elems] is in ascending order for [cmp]. *)
Definition sorted_by (cmp : cptr → cptr → Z) (elems : list cptr) : Prop :=
  ∀ (i j : nat) ei ej, (i < j)%nat →
    elems !! i = Some ei → elems !! j = Some ej → cmp ei ej ≤ 0.

(** A comparison function for [strarray_qsort] and [strarray_bsearch]:
    [strcmp] on the two strings. *)
Definition compare_strings (h : heap) (x y : cptr) : Z :=
  match cstr_at h x, cstr_at h y with
  | Some s, Some t => strcmp_list s t
  | _, _ => 0
  end.

(** A memory with the array ["a"; "b"; "c"] at block 5 and the strings
    "," and "a:b::c". *)
Definition example_heap_abc : heap :=
  {| objs := <[5 := OStruct (StrArray 3 16 9)]>
             (<[6 := OChars [Some "a"%char; Some NUL]]>
             (<[7 := OChars [Some "b"%char; Some NUL]]>
             (<[8 := OChars [Some "c"%char; Some NUL]]>
             (<[9 := OPtrs (Some (CPtr 6 0) :: Some (CPtr 7 0) :: Some (CPtr 8 0)
                              :: replicate 13 None)]>
             (<[10 := OChars [Some ","%char; Some NUL]]>
             (<[11 := OChars (Some <$> list_ascii_of_string "a:b::c" ++ [NUL])]>
              initial_objs))))));
     next := 12; strtok_save := NULL |}.

(** [h] after a block was allocated and released. *)
Definition bump (h : heap) : heap :=
  {| objs := objs h; next := next h + 1; strtok_save := strtok_save h |}.

(** The bytes of a fresh buffer of [sz] bytes after [l] was written at
    its start. *)
Definition filled (sz : Z) (l : list ascii) : list (option ascii) :=
  (Some <$> l) ++ replicate (Z.to_nat sz - length l) None.

(** The static objects are in the memory. *)
Definition statics_at (h : heap) : Prop :=
  objs h !! empty_strarray_addr = Some (OStruct empty_strarray) ∧
  cstr_at h lit_empty = Some [] ∧
  cstr_at h lit_colon = Some [":"%char] ∧
  cstr_at h lit_semicolon = Some [";"%char].

(** [h] with one more block, a buffer with the bytes [bs]. *)
Definition with_buf (h : heap) (bs : list (option ascii)) : heap :=
  {| objs := <[next h := OChars bs]> (objs h);
     next := next h + 1; strtok_save := strtok_save h |}.

(** The strings [strs] joined with the separator [sp]: the first,
    then the separator and the next, and so on to the last. *)
Fixpoint join_spec (sp : list ascii) (strs : list (list ascii)) : list ascii :=
  match strs with
  | [] => []
  | [t] => t
  | t :: ts => t ++ sp ++ join_spec sp ts
  end.

(** The sum of the lengths of [strs]. *)
Definition total_length (strs : list (list ascii)) : nat :=
  length (concat strs).

(** The tokens of [s] for the delimiter set [d]: the maximal runs of
    characters that are not delimiters, in order; [cur] is the run being
    read.  Delimiters next to each other, before the first token or
    after the last one end at most one run, so no token is empty. *)
Fixpoint split_aux (d s cur : list ascii) : list (list ascii) :=
  match s with
  | [] => match cur with [] => [] | _ => [cur] end
  | c :: s' =>
      if decide (c ∈ d) then
        match cur with
        | [] => split_aux d s' []
        | _ => cur :: split_aux d s' []
        end
      else split_aux d s' (cur ++ [c])
  end.

Definition split_spec (d s : list ascii) : list (list ascii) :=
  split_aux d s [].

(** What one call of [strtok] finds in the text [txt]: the next token
    and the text after the delimiter that ends it. *)
Definition next_token (d txt : list ascii) : option (list ascii * list ascii) :=
  let rest := drop (strspn_list txt d) txt in
  match rest with
  | [] => None
  | _ => Some (take (strcspn_list rest d) rest, drop (S (strcspn_list rest d)) rest)
  end.

(** ** tools.h: strendswith *)

(** The conversion of a [size_t] to [int] ([int l = strlen( str )]): the
    value modulo 2^32, read as a two's complement number. *)
Definition to_int (z : Z) : Z := (z + 2 ^ 31) mod 2 ^ 32 - 2 ^ 31.

(** [p + z] on a pointer into a string: defined when the result points
    into the object or just past its end. *)
Definition ptr_add (p : cptr) (z : Z) : M cptr :=
  λ h, match objs h !! cblk p with
       | Some (OChars bs) =>
           if decide (0 ≤ coff p + z ≤ Z.of_nat (length bs)) then
             Ok (CPtr (cblk p) (coff p + z), h)
           else Undef
       | _ => Undef
       end.

Definition strendswith (s e : cptr) : M Z :=
  n <- strlen s ;;
  let l := to_int n in
  n <- strlen e ;;
  let m := to_int n in
  if decide (l >= m) then
    q <- ptr_add s l ;;
    q <- ptr_add q (- m) ;;
    c <- strcmp q e ;;
    retM (if decide (c = 0) then 1 else 0)
  else retM 0.

(** A memory with the strings "main.c", ".c" and ".cpp" at blocks 5, 6
    and 7. *)
Definition example_heap_names : heap :=
  {| objs := <[5 := OChars (Some <$> list_ascii_of_string "main.c" ++ [NUL])]>
             (<[6 := OChars (Some <$> list_ascii_of_string ".c" ++ [NUL])]>
             (<[7 := OChars (Some <$> list_ascii_of_string ".cpp" ++ [NUL])]>
              initial_objs));
     next := 8; strtok_save := NULL |}.

(** What [strarray_add_uniq] does to the strings of an array. *)
Definition uniq_app (strs : list (list ascii)) (t : list ascii) : list (list ascii) :=
  if decide (t ∈ strs) then strs else strs ++ [t].

(** The capacity an array has when it was grown by [strarray_add] only:
    none while it is empty, then 16 doubled some number of times, and,
    once above 16, less than twice the number of elements. *)
Definition capacity_ok (a : strarray) : Prop :=
  (count a = 0 ∧ size a = 0) ∨
  ∃ k : nat, size a = 16 * 2 ^ Z.of_nat k ∧ 0 < count a ≤ size a ∧
             (k = 0%nat ∨ size a < 2 * count a).

(** A memory with a full array of [n] elements, each the string "x" of
    block 6, at block 5. *)
Definition example_heap_full (n : nat) : heap :=
  {| objs := <[5 := OStruct (StrArray (Z.of_nat n) (Z.of_nat n) 7)]>
             (<[7 := OPtrs (replicate n (Some (CPtr 6 0)))]>
             (<[6 := OChars [Some "x"%char; Some NUL]]> initial_objs));
     next := 8; strtok_save := NULL |}.

(** ** tools.h: strarray_qsort *)

(** [qsort] over a block of [const char *] cells.  The C library fixes
    the outcome up to the order of elements that compare equal; the
    model sorts by insertion, which is one of the outcomes it allows.
    The comparison function is applied to the memory at the call: the
    strings do not change while the cells are sorted. *)
Fixpoint insert_sorted (cmp : cptr → cptr → Z) (x : cptr) (l : list cptr) : list cptr :=
  match l with
  | [] => [x]
  | y :: l' =>
      if decide (cmp x y ≤ 0) then x :: y :: l' else y :: insert_sorted cmp x l'
  end.

Definition insertion_sort (cmp : cptr → cptr → Z) (l : list cptr) : list cptr :=
  foldr (insert_sorted cmp) [] l.

Definition qsort (func : heap → cptr → cptr → Z) (base : Z) (nmemb : Z) : M unit :=
  λ h, match objs h !! base with
       | Some (OPtrs cells) =>
           if decide (0 ≤ nmemb ≤ Z.of_nat (length cells)) then
             match mapM id (take (Z.to_nat nmemb) cells) with
             | Some elems =>
                 Ok (tt, set_objs h
                       (<[base := OPtrs ((Some <$> insertion_sort (func h) elems)
                                         ++ drop (Z.to_nat nmemb) cells)]> (objs h)))
             | None => Undef
             end
           else Undef
       | _ => Undef
       end.

Definition strarray_qsort (array : Z) (func : heap → cptr → cptr → Z) : M unit :=
  a <- load_struct array ;;
  if decide (count a ≠ 0) then qsort func (str a) (count a) else retM tt.

(** [l] is in ascending order for [cmp]: no element is greater than one
    after it. *)
Fixpoint ascending (cmp : cptr → cptr → Z) (l : list cptr) : Prop :=
  match l with
  | [] => True
  | x :: l' => Forall (λ y, cmp x y ≤ 0) l' ∧ ascending cmp l'
  end.

(** A comparison function that reads nothing but the strings: it gives
    the same result in two memories that hold the same strings. *)
Definition reads_strings (func : heap → cptr → cptr → Z) : Prop :=
  ∀ h1 h2, chars_preserved h1 h2 → chars_preserved h2 h1 →
           ∀ x y, func h2 x y = func h1 x y.

(** A memory with the array ["c"; "a"; "b"] at block 5. *)
Definition example_heap_cab : heap :=
  {| objs := <[5 := OStruct (StrArray 3 16 9)]>
             (<[6 := OChars [Some "a"%char; Some NUL]]>
             (<[7 := OChars [Some "b"%char; Some NUL]]>
             (<[8 := OChars [Some "c"%char; Some NUL]]>
             (<[9 := OPtrs (Some (CPtr 8 0) :: Some (CPtr 6 0) :: Some (CPtr 7 0)
                              :: replicate 13 None)]>
              initial_objs))));
     next := 10; strtok_save := NULL |}.

(** A memory with the string of [n] characters "x" at block 6, [m]
    cells that all point to it at block 7, and the string "," at
    block 8. *)
Definition example_heap_refs (n m : nat) : heap :=
  {| objs := <[6 := OChars ((Some <$> replicate n "x"%char) ++ [Some NUL])]>
             (<[7 := OPtrs (replicate m (Some (CPtr 6 0)))]>
             (<[8 := OChars [Some ","%char; Some NUL]]> initial_objs));
     next := 9; strtok_save := NULL |}.

(** * Properties *)

(** ** Machine integers *)

Lemma wrap32_small z : 0 ≤ z < 2 ^ 32 → wrap32 z = z.
Proof. intros. unfold wrap32. apply Z.mod_small. lia. Qed.

Lemma wrap64_small z : 0 ≤ z < 2 ^ 64 → wrap64 z = z.
Proof. intros. unfold wrap64. apply Z.mod_small. lia. Qed.

Lemma wrap32_range z : 0 ≤ wrap32 z < 2 ^ 32.
Proof. unfold wrap32. apply Z.mod_pos_bound. lia. Qed.

Lemma wrap64_range z : 0 ≤ wrap64 z < 2 ^ 64.
Proof. unfold wrap64. apply Z.mod_pos_bound. lia. Qed.

Lemma wrap32_wrap64 z : wrap32 (wrap64 z) = wrap32 z.
Proof.
  unfold wrap32, wrap64. apply Z.mod_mod_divide.
  exists (2 ^ 32). reflexivity.
Qed.

Lemma wrap32_add_l a b : wrap32 (wrap32 a + b) = wrap32 (a + b).
Proof. unfold wrap32. apply Zplus_mod_idemp_l. Qed.

(** ** The monad *)

Lemma bindM_Ok {A B} (c : M A) (k : A → M B) h x h' :
  c h = Ok (x, h') → bindM c k h = k x h'.
Proof. intros H. unfold bindM. by rewrite H. Qed.

Lemma bindM_Undef {A B} (c : M A) (k : A → M B) h :
  c h = Undef → bindM c k h = Undef.
Proof. intros H. unfold bindM. by rewrite H. Qed.

Lemma bindM_inv {A B} (c : M A) (k : A → M B) h y h2 :
  bindM c k h = Ok (y, h2) → ∃ x h1, c h = Ok (x, h1) ∧ k x h1 = Ok (y, h2).
Proof.
  unfold bindM. destruct (c h) as [[x h1]| |]; [eauto|done|done].
Qed.

(** ** Well-formed memories *)

Lemma heap_wf_fresh h : heap_wf h → objs h !! next h = None.
Proof.
  intros [_ Hwf]. destruct (objs h !! next h) eqn:E; [|done].
  apply Hwf in E. lia.
Qed.

Lemma heap_wf_null h : heap_wf h → objs h !! 0 = None.
Proof.
  intros [_ Hwf]. destruct (objs h !! 0) eqn:E; [|done].
  apply Hwf in E. lia.
Qed.

Lemma heap_wf_initial : heap_wf initial_heap.
Proof.
  split; [done|].
  intros b o. unfold initial_heap, initial_objs. simpl.
  rewrite !lookup_insert. repeat case_decide; subst; try lia.
  by rewrite lookup_empty.
Qed.

Lemma heap_wf_set_save h p : heap_wf h → heap_wf (set_save h p).
Proof. done. Qed.

Lemma heap_wf_update h b o :
  is_Some (objs h !! b) → heap_wf h → heap_wf (set_objs h (<[b := o]> (objs h))).
Proof.
  intros [o' Hb] [Hn Hwf]. split; [done|]. intros b' o''. simpl.
  rewrite lookup_insert. case_decide; subst; eauto.
Qed.

Lemma heap_wf_delete h b : heap_wf h → heap_wf (set_objs h (delete b (objs h))).
Proof.
  intros [Hn Hwf]. split; [done|]. intros b' o. simpl. rewrite lookup_delete.
  case_decide; [done|]. apply Hwf.
Qed.

Lemma alloc_spec o h :
  heap_wf h →
  ∃ h', alloc o h = Ok (next h, h') ∧ heap_wf h' ∧
        objs h' = <[next h := o]> (objs h) ∧
        next h' = next h + 1 ∧ strtok_save h' = strtok_save h.
Proof.
  intros [Hn Hwf]. eexists. split; [reflexivity|]. split; [|done].
  split; [simpl; lia|].
  intros b o'. simpl. rewrite lookup_insert.
  case_decide; subst; [lia|]. intros Hb. apply Hwf in Hb. lia.
Qed.

Lemma bindM_assoc {A B C} (c : M A) (k1 : A → M B) (k2 : B → M C) h :
  bindM (bindM c k1) k2 h = bindM c (λ x, bindM (k1 x) k2) h.
Proof. unfold bindM. by destruct (c h) as [[]| |]. Qed.

Ltac mstep H :=
  first [ rewrite (bindM_Ok _ _ _ _ _ H)
        | rewrite ?bindM_assoc; rewrite (bindM_Ok _ _ _ _ _ H) ].

(** ** Arrays in memory *)

Lemma array_at_count_le h p a elems :
  array_at h p a elems → 0 ≤ count a ≤ size a.
Proof.
  intros (_ & cells & _ & Hs & _ & Hc & Ht).
  apply (f_equal length) in Ht. rewrite length_take, length_fmap in Ht. lia.
Qed.

Lemma array_at_struct_ne_str h p a elems :
  array_at h p a elems → heap_wf h → str a ≠ p.
Proof.
  intros (Hp & cells & Hcells & _) Hwf E0. unfold cells_of in Hcells.
  rewrite E0 in Hcells.
  case_decide as E; [rewrite E in Hp; by rewrite heap_wf_null in Hp|].
  by rewrite Hp in Hcells.
Qed.


Lemma load_struct_eq h p a :
  objs h !! p = Some (OStruct a) → load_struct p h = Ok (a, h).
Proof. intros H. unfold load_struct. by rewrite H. Qed.

Lemma store_struct_eq h p a a' :
  objs h !! p = Some (OStruct a) →
  store_struct p a' h = Ok (tt, set_objs h (<[p := OStruct a']> (objs h))).
Proof. intros H. unfold store_struct. by rewrite H. Qed.

Lemma load_cell_eq h b cells i v :
  objs h !! b = Some (OPtrs cells) → cells !! i = Some (Some v) →
  load_cell b (Z.of_nat i) h = Ok (v, h).
Proof.
  intros Hb Hi. unfold load_cell. rewrite Hb.
  rewrite decide_True by lia. by rewrite Nat2Z.id, Hi.
Qed.

Lemma store_cell_eq h b cells i v :
  objs h !! b = Some (OPtrs cells) → (i < length cells)%nat →
  store_cell b (Z.of_nat i) v h =
    Ok (tt, set_objs h (<[b := OPtrs (<[i := Some v]> cells)]> (objs h))).
Proof.
  intros Hb Hi. unfold store_cell. rewrite Hb.
  rewrite decide_True by lia. by rewrite Nat2Z.id.
Qed.

(** [xrealloc] to a non-zero number of bytes: the cells move to the fresh
    block [next h] and the old block is gone. *)
Lemma xrealloc_spec h a cells (n : nat) :
  heap_wf h → cells_of h a = Some cells → (0 < n)%nat →
  ∃ h', xrealloc (str a) (sizeof_ptr * Z.of_nat n) h = Ok (next h, h') ∧
        heap_wf h' ∧
        objs h' = <[next h := OPtrs (resize n None cells)]> (delete (str a) (objs h)) ∧
        next h' = next h + 1 ∧ strtok_save h' = strtok_save h.
Proof.
  intros Hwf Hcells Hn. unfold xrealloc, realloc, cells_of in *.
  replace (sizeof_ptr * Z.of_nat n / sizeof_ptr) with (Z.of_nat n)
    by (unfold sizeof_ptr; rewrite Z.mul_comm, Z.div_mul; lia).
  rewrite Nat2Z.id.
  case_decide as E.
  - inversion Hcells; subst cells. rewrite resize_nil.
    destruct (alloc_spec (OPtrs (replicate n None)) h Hwf) as (h' & Hal & Hwf' & Ho & Hnx & Hs).
    exists h'. rewrite E, delete_id by (by apply heap_wf_null). done.
  - destruct (objs h !! str a) as [[]|] eqn:Hb; try done.
    inversion Hcells; subst cells.
    rewrite decide_False by (unfold sizeof_ptr; lia).
    destruct (alloc_spec (OPtrs (resize n None cells0))
                (set_objs h (delete (str a) (objs h)))) as (h' & Hal & Hwf' & Ho & Hnx & Hs).
    { by apply heap_wf_delete. }
    exists h'. done.
Qed.

(** The last statement of [strarray_add]: [array->str[array->count++] = str]. *)
Lemma strarray_add_store h p a cells elems s :
  heap_wf h →
  objs h !! p = Some (OStruct a) →
  objs h !! str a = Some (OPtrs cells) →
  Z.of_nat (length cells) = size a → size a < 2 ^ 32 →
  Z.of_nat (length elems) = count a → count a < size a →
  take (length elems) cells = Some <$> elems →
  ∃ h',
    (a0 <- load_struct p ;;
     store_cell (str a0) (count a0) s ;;;
     store_struct p (set_count a0 (wrap32 (count a0 + 1)))) h = Ok (tt, h') ∧
    heap_wf h' ∧
    array_at h' p (set_count a (count a + 1)) (elems ++ [s]) ∧
    next h' = next h ∧ strtok_save h' = strtok_save h ∧
    objs h' !! str a = Some (OPtrs (<[length elems := Some s]> cells)) ∧
    (∀ b, b ≠ p → b ≠ str a → objs h' !! b = objs h !! b).
Proof.
  intros Hwf Hp Hb Hlen Hsz Hcnt Hroom Htake.
  assert (Hne : str a ≠ p) by (intros E; rewrite E, Hp in Hb; done).
  assert (Hnull : str a ≠ 0) by (intros E; rewrite E, heap_wf_null in Hb; done).
  set (cells' := <[length elems := Some s]> cells).
  set (h1 := set_objs h (<[str a := OPtrs cells']> (objs h))).
  set (a' := set_count a (count a + 1)).
  set (h2 := set_objs h1 (<[p := OStruct a']> (objs h1))).
  assert (Hp1 : objs h1 !! p = Some (OStruct a))
    by (unfold h1; simpl; by rewrite lookup_insert_ne).
  exists h2. split.
  { mstep (load_struct_eq _ _ _ Hp). rewrite <- Hcnt.
    mstep (store_cell_eq _ _ _ (length elems) s Hb ltac:(lia)). fold cells' h1.
    rewrite wrap32_small by lia. rewrite Hcnt.
    apply (store_struct_eq _ _ _ a' Hp1). }
  split.
  { apply heap_wf_update; [by rewrite Hp1|].
    apply heap_wf_update; [by rewrite Hb|done]. }
  split.
  { split; [apply lookup_insert_eq|]. exists cells'.
    split.
    { unfold cells_of. simpl. rewrite decide_False by done.
      rewrite lookup_insert_ne by done. by rewrite lookup_insert_eq. }
    unfold cells'. rewrite length_insert, length_app. simpl.
    repeat split; try lia.
    rewrite fmap_app. simpl.
    rewrite Nat.add_1_r.
    rewrite (take_S_r _ _ (Some s)) by (apply list_lookup_insert_eq; lia).
    rewrite take_insert_ge by lia. by rewrite Htake. }
  split; [done|]. split; [done|]. split.
  { unfold h2, h1. simpl. rewrite lookup_insert_ne by done. apply lookup_insert_eq. }
  intros b Hbp Hbs. unfold h2, h1. simpl.
  by rewrite !lookup_insert_ne.
Qed.

Lemma strarray_add_spec h p a elems s :
  heap_wf h → array_at h p a elems →
  count a < size a ∨ size a < 2 ^ 31 →
  ∃ h' a',
    strarray_add p s h = Ok (tt, h') ∧
    heap_wf h' ∧
    array_at h' p a' (elems ++ [s]) ∧
    count a' = count a + 1 ∧
    size a' = grown_size (count a) (size a) ∧
    (if decide (count a = size a) then str a' = next h ∧ next h' = next h + 1
     else str a' = str a ∧ next h' = next h) ∧
    strtok_save h' = strtok_save h ∧
    (∀ b, b ≠ p → b ≠ str a → b ≠ str a' → objs h' !! b = objs h !! b) ∧
    (∀ cells, cells_of h a = Some cells →
       objs h' !! str a' = Some (OPtrs (<[length elems := Some s]>
                                  (resize (Z.to_nat (size a')) None cells)))) ∧
    (count a = size a → str a ≠ 0 → objs h' !! str a = None).
Proof.
  intros Hwf Ha Hroom.
  pose proof (array_at_count_le _ _ _ _ Ha) as Hle.
  pose proof (array_at_struct_ne_str _ _ _ _ Ha Hwf) as Hne.
  destruct Ha as (Hp & cells & Hcells & Hlen & Hsz & Hcnt & Htake).
  unfold strarray_add.
  rewrite (bindM_Ok _ _ _ a h) by (by apply load_struct_eq).
  unfold grown_size.
  destruct (decide (count a = size a)) as [Efull|Eroom].
  - (* the array is full: grow, then store *)
    set (ns := if decide (size a ≠ 0) then size a * 2 else 16).
    assert (Hns : 0 < ns < 2 ^ 32 ∧ size a < ns) by (unfold ns; case_decide; lia).
    set (h1 := set_objs h (<[p := OStruct (set_size a ns)]> (objs h))).
    assert (Hwf1 : heap_wf h1) by (apply heap_wf_update; [by rewrite Hp|done]).
    assert (Hcells1 : cells_of h1 (set_size a ns) = Some cells).
    { unfold cells_of in *. simpl. case_decide; [done|].
      rewrite lookup_insert_ne by done. done. }
    destruct (xrealloc_spec h1 (set_size a ns) cells (Z.to_nat ns) Hwf1 Hcells1)
      as (h2 & Hre & Hwf2 & Hobjs2 & Hnext2 & Hsave2); [lia|].
    rewrite Z2Nat.id in Hre by lia. simpl in Hre.
    assert (Hst1 : (if decide (size a ≠ 0)
                    then store_struct p (set_size a (wrap32 (size a * 2)))
                    else store_struct p (set_size a 16)) h = Ok (tt, h1)).
    { unfold h1, ns. case_decide; [rewrite wrap32_small by lia|]; by eapply store_struct_eq. }
    assert (Hp1 : objs h1 !! p = Some (OStruct (set_size a ns)))
      by (unfold h1; simpl; apply lookup_insert_eq).
    assert (Hp2 : objs h2 !! p = Some (OStruct (set_size a ns))).
    { rewrite Hobjs2. simpl. rewrite lookup_insert_ne, lookup_delete_ne by 
        (try done; pose proof (heap_wf_fresh _ Hwf); congruence).
      apply lookup_insert_eq. }
    set (a3 := set_str (set_size a ns) (next h)).
    set (h3 := set_objs h2 (<[p := OStruct a3]> (objs h2))).
    mstep Hst1. mstep (load_struct_eq _ _ _ Hp1). simpl.
    rewrite wrap64_small by (unfold sizeof_ptr; lia).
    mstep Hre. mstep (store_struct_eq _ _ _ a3 Hp2). fold h3.
    assert (Hfresh : objs h !! next h = None) by (by apply heap_wf_fresh).
    assert (Hpn : p ≠ next h) by congruence.
    destruct (strarray_add_store h3 p a3 (resize (Z.to_nat ns) None cells) elems s)
      as (h4 & Hrun & Hwf4 & Harr4 & Hnext4 & Hsave4 & Hcells4 & Hframe4).
    { apply heap_wf_update; [by rewrite Hp2|done]. }
    { apply lookup_insert_eq. }
    { unfold h3. simpl. rewrite lookup_insert_ne by done.
      rewrite Hobjs2. simpl. apply lookup_insert_eq. }
    { rewrite length_resize. unfold a3. simpl. lia. }
    { unfold a3. simpl. lia. }
    { unfold a3. simpl. lia. }
    { unfold a3. simpl. lia. }
    { rewrite take_resize_le, resize_le by lia. done. }
    exists h4, (set_count a3 (count a3 + 1)).
    split; [done|]. split; [done|]. split; [done|].
    split; [simpl; lia|]. split; [simpl; lia|].
    split; [split; [done|rewrite Hnext4; unfold h3; simpl; by rewrite Hnext2]|].
    split; [rewrite Hsave4; unfold h3; simpl; by rewrite Hsave2|].
    split; [|split].
    { intros b Hb1 Hb2 Hb3. rewrite Hframe4 by done.
      unfold h3. simpl. rewrite lookup_insert_ne by done.
      rewrite Hobjs2. simpl. rewrite lookup_insert_ne by done.
      rewrite lookup_delete_ne by done. by rewrite lookup_insert_ne. }
    { intros cells0 Hcells0. rewrite Hcells in Hcells0.
      inversion Hcells0; subst cells0. exact Hcells4. }
    { intros _ Hnz.
      assert (Hsn : str a ≠ next h).
      { unfold cells_of in Hcells. rewrite decide_False in Hcells by done.
        intros E. rewrite E, Hfresh in Hcells. done. }
      rewrite Hframe4 by (try done; simpl; congruence).
      unfold h3. simpl. rewrite lookup_insert_ne by congruence.
      rewrite Hobjs2. simpl. rewrite lookup_insert_ne by congruence.
      apply lookup_delete_eq. }
  - (* there is room: store *)
    mstep (eq_refl : retM tt h = Ok (tt, h)).
    unfold cells_of in Hcells. 
    destruct (decide (str a = 0)) as [E0|E0].
    { inversion Hcells; subst cells. simpl in Hlen. lia. }
    destruct (objs h !! str a) as [[]|] eqn:Hb; try done.
    inversion Hcells; subst cells0.
    destruct (strarray_add_store h p a cells elems s)
      as (h4 & Hrun & Hwf4 & Harr4 & Hnext4 & Hsave4 & Hcells4 & Hframe4); try done; try lia.
    exists h4, (set_count a (count a + 1)).
    repeat (split; [done|]).
    split; [|split].
    + intros b Hb1 Hb2 _. by apply Hframe4.
    + intros cells0 Hcells0. unfold cells_of in Hcells0.
      rewrite decide_False, Hb in Hcells0 by done.
      inversion Hcells0; subst cells0. simpl.
      rewrite resize_all_alt by lia. exact Hcells4.
    + intros E. lia.
Qed.

(** ** C strings *)

Lemma read_cstr_nul_free bs s : read_cstr bs = Some s → NUL ∉ s.
Proof.
  revert s. induction bs as [|[c|] bs IH]; intros s; simpl; try done.
  case_decide as E.
  - intros [= <-]. apply not_elem_of_nil.
  - destruct (read_cstr bs) as [s'|]; [|done].
    intros [= <-]. rewrite not_elem_of_cons. split; [congruence|by apply IH].
Qed.

Lemma read_cstr_inv bs s :
  read_cstr bs = Some s → ∃ rest, bs = (Some <$> s) ++ Some NUL :: rest.
Proof.
  revert s. induction bs as [|[c|] bs IH]; intros s; simpl; try done.
  case_decide as E.
  - intros [= <-]. subst c. by exists bs.
  - destruct (read_cstr bs) as [s'|]; [|done].
    intros [= <-]. destruct (IH s' eq_refl) as [rest ->]. by exists rest.
Qed.

Lemma read_cstr_app s rest :
  NUL ∉ s → read_cstr ((Some <$> s) ++ Some NUL :: rest) = Some s.
Proof.
  induction s as [|c s IH]; csimpl; intros Hs.
  - done.
  - apply not_elem_of_cons in Hs as [Hc Hs].
    rewrite decide_False by done. by rewrite IH.
Qed.

Lemma cstr_at_nul_free h p s : cstr_at h p = Some s → NUL ∉ s.
Proof.
  unfold cstr_at. destruct (objs h !! cblk p) as [[]|]; try done.
  case_decide; [|done]. apply read_cstr_nul_free.
Qed.

Lemma byte_val_nul c : byte_val c = 0 → c = NUL.
Proof.
  unfold byte_val. intros H.
  assert (N_of_ascii c = 0%N) as E by lia.
  rewrite <- (ascii_N_embedding c), E. reflexivity.
Qed.

Lemma byte_val_inj c d : byte_val c = byte_val d → c = d.
Proof.
  unfold byte_val. intros H.
  assert (N_of_ascii c = N_of_ascii d) as E by lia.
  rewrite <- (ascii_N_embedding c), <- (ascii_N_embedding d), E. reflexivity.
Qed.

Lemma strcmp_list_eq s t :
  NUL ∉ s → NUL ∉ t → strcmp_list s t = 0 ↔ s = t.
Proof.
  revert t. induction s as [|c s IH]; intros [|d t] Hs Ht; simpl.
  - done.
  - apply not_elem_of_cons in Ht as [Hd _]. split; [|done].
    intros H. assert (byte_val d = 0) as E by lia. apply byte_val_nul in E. congruence.
  - apply not_elem_of_cons in Hs as [Hc _]. split; [|done].
    intros H. assert (byte_val c = 0) as E by lia. apply byte_val_nul in E. congruence.
  - apply not_elem_of_cons in Hs as [Hc Hs]. apply not_elem_of_cons in Ht as [Hd Ht].
    case_decide as E.
    + subst d. rewrite IH by done. split; congruence.
    + split; [|congruence]. intros H. 
      assert (byte_val c = byte_val d) as E' by lia. by apply byte_val_inj in E'.
Qed.

Lemma load_cstr_eq h p s : cstr_at h p = Some s → load_cstr p h = Ok (s, h).
Proof. intros H. unfold load_cstr. by rewrite H. Qed.

Lemma strcmp_spec h p q s t :
  cstr_at h p = Some s → cstr_at h q = Some t →
  strcmp p q h = Ok (strcmp_list s t, h).
Proof.
  intros Hp Hq. unfold strcmp.
  mstep (load_cstr_eq _ _ _ Hp). by mstep (load_cstr_eq _ _ _ Hq).
Qed.

Lemma strlen_spec h p s :
  cstr_at h p = Some s → strlen p h = Ok (Z.of_nat (length s), h).
Proof. intros Hp. unfold strlen. by mstep (load_cstr_eq _ _ _ Hp). Qed.

(** ** Frames *)

Lemma chars_preserved_refl h : chars_preserved h h.
Proof. by intros b bs. Qed.

Lemma chars_preserved_trans h1 h2 h3 :
  chars_preserved h1 h2 → chars_preserved h2 h3 → chars_preserved h1 h3.
Proof. intros H12 H23 b bs Hb. eauto. Qed.

Lemma cstr_at_preserved h h' p s :
  chars_preserved h h' → cstr_at h p = Some s → cstr_at h' p = Some s.
Proof.
  intros Hpres. unfold cstr_at.
  destruct (objs h !! cblk p) as [[bs| |]|] eqn:Hb; try done.
  by rewrite (Hpres _ _ Hb).
Qed.

Lemma strings_at_preserved h h' elems strs :
  chars_preserved h h' → strings_at h elems strs → strings_at h' elems strs.
Proof.
  intros Hpres H. eapply Forall2_impl; [exact H|].
  intros e t. by apply cstr_at_preserved.
Qed.

(** At a full array of 2^31 cells or more the doubled capacity does not
    fit in [unsigned int]: the store that follows is out of bounds. *)
Lemma strarray_add_overflow h p a elems s :
  heap_wf h → array_at h p a elems →
  count a = size a → 2 ^ 31 ≤ size a →
  strarray_add p s h = Undef.
Proof.
  intros Hwf Ha Efull Hbig.
  pose proof (array_at_struct_ne_str _ _ _ _ Ha Hwf) as Hne.
  destruct Ha as (Hp & cells & Hcells & Hlen & Hsz & Hcnt & Htake).
  unfold strarray_add.
  mstep (load_struct_eq _ _ _ Hp).
  rewrite decide_True by done. rewrite decide_True by lia.
  set (ns := wrap32 (size a * 2)).
  assert (Hns : ns = size a * 2 - 2 ^ 32).
  { unfold ns, wrap32. symmetry. apply (Z.mod_unique _ _ 1); lia. }
  mstep (store_struct_eq _ _ _ (set_size a ns) Hp).
  set (h1 := set_objs h (<[p := OStruct (set_size a ns)]> (objs h))).
  assert (Hp1 : objs h1 !! p = Some (OStruct (set_size a ns))) by apply lookup_insert_eq.
  mstep (load_struct_eq _ _ _ Hp1). simpl.
  rewrite wrap64_small by (unfold sizeof_ptr; lia).
  assert (Hwf1 : heap_wf h1) by (apply heap_wf_update; [by rewrite Hp|done]).
  unfold cells_of in Hcells.
  destruct (decide (str a = 0)) as [E0|E0].
  { inversion Hcells; subst cells. simpl in Hlen. lia. }
  destruct (objs h !! str a) as [[]|] eqn:Hb; try done.
  inversion Hcells; subst cells0.
  assert (Hb1 : objs h1 !! str a = Some (OPtrs cells))
    by (unfold h1; simpl; by rewrite lookup_insert_ne).
  destruct (decide (ns = 0)) as [Ens|Ens].
  - (* the capacity wrapped to 0: realloc frees the cells and returns NULL *)
    assert (Hre : xrealloc (str a) (sizeof_ptr * ns) h1
                  = Ok (0, set_objs h1 (delete (str a) (objs h1)))).
    { unfold xrealloc, realloc. rewrite decide_False by done. rewrite Hb1.
      by rewrite decide_True by lia. }
    mstep Hre.
    set (h2 := set_objs h1 (delete (str a) (objs h1))).
    assert (Hp2 : objs h2 !! p = Some (OStruct (set_size a ns))).
    { unfold h2. simpl. rewrite lookup_delete_ne by done. apply lookup_insert_eq. }
    mstep (store_struct_eq _ _ _ (set_str (set_size a ns) 0) Hp2).
    set (h3 := set_objs h2 (<[p := OStruct (set_str (set_size a ns) 0)]> (objs h2))).
    assert (Hp3 : objs h3 !! p = Some (OStruct (set_str (set_size a ns) 0)))
      by apply lookup_insert_eq.
    mstep (load_struct_eq _ _ _ Hp3). simpl.
    apply bindM_Undef. unfold store_cell.
    assert (objs h3 !! 0 = None) as ->; [|done].
    apply heap_wf_null. apply heap_wf_update; [by rewrite Hp2|].
    by apply heap_wf_delete.
  - (* the capacity wrapped to less than the count *)
    assert (Hcells1 : cells_of h1 (set_size a ns) = Some cells).
    { unfold cells_of. change (str (set_size a ns)) with (str a).
      rewrite decide_False by done. by rewrite Hb1. }
    destruct (xrealloc_spec h1 (set_size a ns) cells (Z.to_nat ns) Hwf1 Hcells1)
      as (h2 & Hre & Hwf2 & Hobjs2 & Hnext2 & Hsave2); [lia|].
    rewrite Z2Nat.id in Hre by lia. simpl in Hre.
    mstep Hre.
    assert (Hfresh : objs h !! next h = None) by (by apply heap_wf_fresh).
    assert (Hpn : p ≠ next h) by congruence.
    assert (Hp2 : objs h2 !! p = Some (OStruct (set_size a ns))).
    { rewrite Hobjs2. simpl. rewrite lookup_insert_ne, lookup_delete_ne by done.
      apply lookup_insert_eq. }
    mstep (store_struct_eq _ _ _ (set_str (set_size a ns) (next h)) Hp2).
    set (a3 := set_str (set_size a ns) (next h)).
    set (h3 := set_objs h2 (<[p := OStruct a3]> (objs h2))).
    assert (Hp3 : objs h3 !! p = Some (OStruct a3)) by apply lookup_insert_eq.
    mstep (load_struct_eq _ _ _ Hp3). simpl.
    apply bindM_Undef. unfold store_cell.
    assert (objs h3 !! next h = Some (OPtrs (resize (Z.to_nat ns) None cells))) as ->.
    { unfold h3. simpl. rewrite lookup_insert_ne by done.
      rewrite Hobjs2. apply lookup_insert_eq. }
    rewrite decide_False; [done|]. rewrite length_resize. lia.
Qed.

Lemma strarray_add_inv h p a elems s h' :
  heap_wf h → array_at h p a elems →
  strarray_add p s h = Ok (tt, h') →
  count a < size a ∨ size a < 2 ^ 31.
Proof.
  intros Hwf Ha Hrun.
  pose proof (array_at_count_le _ _ _ _ Ha) as Hle.
  destruct (decide (count a < size a)); [by left|].
  destruct (decide (size a < 2 ^ 31)); [by right|].
  rewrite (strarray_add_overflow h p a elems s) in Hrun by (done || lia). done.
Qed.

Lemma array_frame_chars h h' p a a' elems :
  heap_wf h → array_at h p a elems →
  (∀ b, b ≠ p → b ≠ str a → b ≠ str a' → objs h' !! b = objs h !! b) →
  str a' = str a ∨ str a' = next h →
  chars_preserved h h'.
Proof.
  intros Hwf (Hp & cells & Hcells & _) Hframe Hstr b bs Hb.
  rewrite Hframe; [done|congruence| |].
  - unfold cells_of in Hcells. case_decide as E0.
    + rewrite E0. intros ->. by rewrite heap_wf_null in Hb.
    + intros ->. rewrite Hb in Hcells. done.
  - destruct Hstr as [-> | ->].
    + unfold cells_of in Hcells. case_decide as E0.
      * rewrite E0. intros ->. by rewrite heap_wf_null in Hb.
      * intros ->. rewrite Hb in Hcells. done.
    + intros ->. by rewrite heap_wf_fresh in Hb.
Qed.

Lemma strarray_add_chars h p a elems s h' :
  heap_wf h → array_at h p a elems →
  strarray_add p s h = Ok (tt, h') → chars_preserved h h'.
Proof.
  intros Hwf Ha Hrun.
  pose proof (strarray_add_inv _ _ _ _ _ _ Hwf Ha Hrun) as Hroom.
  destruct (strarray_add_spec h p a elems s Hwf Ha Hroom)
    as (h2 & a' & Hrun' & _ & _ & _ & _ & Hstr & _ & Hframe & _).
  rewrite Hrun in Hrun'. inversion Hrun'; subst h2.
  eapply array_frame_chars; [done|done|exact Hframe|].
  case_decide; [right|left]; tauto.
Qed.

(** ** Reading an array *)

Lemma array_at_load_cell h p a elems i e :
  array_at h p a elems → elems !! i = Some e →
  load_cell (str a) (Z.of_nat i) h = Ok (e, h).
Proof.
  intros (Hp & cells & Hcells & Hlen & Hsz & Hcnt & Htake) Hi.
  assert (Hc : cells !! i = Some (Some e)).
  { rewrite <- (lookup_take_lt cells (length elems)) by (by eapply lookup_lt_Some).
    rewrite Htake, list_lookup_fmap, Hi. done. }
  unfold cells_of in Hcells. case_decide.
  - inversion Hcells; subst cells. done.
  - destruct (objs h !! str a) as [[]|] eqn:Hb; try done.
    inversion Hcells; subst. by eapply load_cell_eq.
Qed.

Lemma strarray_exists_loop_spec h p a elems strs s t :
  array_at h p a elems → strings_at h elems strs → cstr_at h s = Some t →
  ∀ (n i : nat), (i + n = length elems)%nat →
    strarray_exists_loop p s (Z.of_nat i) n h
      = Ok ((if decide (t ∈ drop i strs) then 1 else 0), h).
Proof.
  intros Ha Hstrs Hs.
  pose proof (Forall2_length _ _ _ Hstrs) as Hlen.
  induction n as [|n IH]; intros i Hi; simpl.
  - rewrite drop_ge by lia. rewrite decide_False by apply not_elem_of_nil. done.
  - destruct (lookup_lt_is_Some_2 elems i) as [e He]; [lia|].
    destruct (lookup_lt_is_Some_2 strs i) as [u Hu]; [lia|].
    pose proof (Forall2_lookup_lr _ _ _ _ _ _ Hstrs He Hu) as Hcu.
    mstep (load_struct_eq _ _ _ (proj1 Ha)).
    mstep (array_at_load_cell _ _ _ _ _ _ Ha He).
    mstep (strcmp_spec _ _ _ _ _ Hcu Hs).
    rewrite (drop_S _ _ _ Hu).
    pose proof (strcmp_list_eq u t (cstr_at_nul_free _ _ _ Hcu)
                  (cstr_at_nul_free _ _ _ Hs)) as Heq.
    case_decide as Ecmp.
    + apply Heq in Ecmp as ->. rewrite decide_True by apply list_elem_of_here. done.
    + replace (Z.of_nat i + 1) with (Z.of_nat (S i)) by lia.
      rewrite IH by lia.
      assert (u ≠ t) as Hne by (intros E; apply Ecmp, Heq, E).
      destruct (decide (t ∈ drop (S i) strs)).
      * rewrite decide_True by (by apply list_elem_of_further). done.
      * rewrite decide_False; [done|]. rewrite elem_of_cons. by intros [?|?].
Qed.

Lemma strarray_exists_spec h p a elems strs s t :
  array_at h p a elems → strings_at h elems strs → cstr_at h s = Some t →
  strarray_exists p s h = Ok ((if decide (t ∈ strs) then 1 else 0), h).
Proof.
  intros Ha Hstrs Hs. unfold strarray_exists.
  mstep (load_struct_eq _ _ _ (proj1 Ha)).
  destruct Ha as (Hp & cells & Hcells & Hlen & Hsz & Hcnt & Htake).
  rewrite <- Hcnt, Nat2Z.id.
  apply (strarray_exists_loop_spec h p a elems strs s t
           ltac:(split; [done|by exists cells])
           Hstrs Hs (length elems) 0%nat). lia.
Qed.

(** ** strarray_add followed by strarray_exists *)

Lemma strarray_add_post h p a elems strs s t h' :
  heap_wf h → array_at h p a elems → strings_at h elems strs →
  cstr_at h s = Some t →
  strarray_add p s h = Ok (tt, h') →
  ∃ a', heap_wf h' ∧ array_at h' p a' (elems ++ [s]) ∧
        count a' = count a + 1 ∧
        size a' = grown_size (count a) (size a) ∧
        strings_at h' (elems ++ [s]) (strs ++ [t]) ∧
        chars_preserved h h'.
Proof.
  intros Hwf Ha Hstrs Hs Hrun.
  pose proof (strarray_add_inv _ _ _ _ _ _ Hwf Ha Hrun) as Hroom.
  pose proof (strarray_add_chars _ _ _ _ _ _ Hwf Ha Hrun) as Hpres.
  destruct (strarray_add_spec h p a elems s Hwf Ha Hroom)
    as (h2 & a' & Hrun' & Hwf' & Ha' & Hcnt & Hsize & _).
  rewrite Hrun in Hrun'. inversion Hrun'; subst h2.
  exists a'. repeat (split; [done|]). split; [|done].
  apply Forall2_app.
  - by eapply strings_at_preserved.
  - constructor; [|constructor]. by eapply cstr_at_preserved.
Qed.

(** C1.  After [strarray_add(array, str)] has run, [strarray_exists]
    finds [str], [count] is one more than before, [str] is the last
    element, and the elements stored before are at their old indices,
    the same references to the same strings.  The call runs to completion
    whenever the array has room or its capacity is below 2^31, so that
    doubling it does not wrap. *)
Theorem strarray_add_then_exists h p a elems strs s t :
  heap_wf h → array_at h p a elems → strings_at h elems strs →
  cstr_at h s = Some t →
  (∀ h', strarray_add p s h = Ok (tt, h') →
     ∃ a', array_at h' p a' (elems ++ [s]) ∧
           count a' = count a + 1 ∧
           strarray_exists p s h' = Ok (1, h') ∧
           load_cell (str a') (count a) h' = Ok (s, h') ∧
           (∀ i e, elems !! i = Some e →
                   load_cell (str a') (Z.of_nat i) h' = Ok (e, h')) ∧
           strings_at h' (elems ++ [s]) (strs ++ [t])) ∧
  (count a < size a ∨ size a < 2 ^ 31 →
     ∃ h', strarray_add p s h = Ok (tt, h')).
Proof.
  intros Hwf Ha Hstrs Hs. split.
  - intros h' Hrun.
    destruct (strarray_add_post _ _ _ _ _ _ _ _ Hwf Ha Hstrs Hs Hrun)
      as (a' & Hwf' & Ha' & Hcnt & _ & Hstrs' & Hpres).
    exists a'. split; [done|]. split; [done|].
    assert (Hlen : Z.of_nat (length elems) = count a) by (destruct Ha as (_ & ? & ?); tauto).
    split; [|split; [|split; [|done]]].
    + rewrite (strarray_exists_spec h' p a' (elems ++ [s]) (strs ++ [t]) s t Ha' Hstrs').
      * rewrite decide_True; [done|]. rewrite elem_of_app, list_elem_of_singleton. by right.
      * by eapply cstr_at_preserved.
    + rewrite <- Hlen. apply (array_at_load_cell _ _ _ _ _ _ Ha').
      rewrite lookup_app_r by lia. by rewrite Nat.sub_diag.
    + intros i e Hi. apply (array_at_load_cell _ _ _ _ _ _ Ha').
      by apply lookup_app_l_Some.
  - intros Hroom.
    destruct (strarray_add_spec h p a elems s Hwf Ha Hroom) as (h' & a' & Hrun & _).
    by exists h'.
Qed.

Lemma heap_wf_example : heap_wf example_heap.
Proof.
  split; [done|].
  intros b o. unfold example_heap, initial_objs. simpl.
  rewrite !lookup_insert. repeat case_decide; subst; try lia.
  by rewrite lookup_empty.
Qed.

Lemma array_at_example : array_at example_heap 5 empty_strarray [].
Proof. split; [done|]. exists []. repeat split; done. Qed.

Lemma strarray_add_then_exists_witness :
  ∃ h', strarray_add 5 (CPtr 6 0) example_heap = Ok (tt, h').
Proof.
  apply (strarray_add_then_exists example_heap 5 empty_strarray [] []
           (CPtr 6 0) ["x"%char]).
  - exact heap_wf_example.
  - exact array_at_example.
  - constructor.
  - reflexivity.
  - right. simpl. lia.
Defined.

(** ** Consecutive additions *)

Lemma add_seq_spec p l : ∀ h a elems,
  heap_wf h → array_at h p a elems →
  count a + Z.of_nat (length l) ≤ 2 ^ 31 →
  ∃ h' a',
    add_seq p l h = Ok (tt, h') ∧ heap_wf h' ∧
    array_at h' p a' (elems ++ l) ∧
    count a' = count a + Z.of_nat (length l) ∧
    size a' = capacity_after (count a) (size a) (length l) ∧
    chars_preserved h h'.
Proof.
  induction l as [|s l IH]; intros h a elems Hwf Ha Hbound.
  - exists h, a. simpl. rewrite app_nil_r.
    split; [done|]. split; [done|]. split; [done|]. split; [lia|].
    split; [done|]. apply chars_preserved_refl.
  - pose proof (array_at_count_le _ _ _ _ Ha) as Hle.
    simpl length in *.
    destruct (strarray_add_spec h p a elems s Hwf Ha) as
      (h1 & a1 & Hrun1 & Hwf1 & Ha1 & Hcnt1 & Hsize1 & _); [lia|].
    pose proof (strarray_add_chars _ _ _ _ _ _ Hwf Ha Hrun1) as Hpres1.
    destruct (IH h1 a1 (elems ++ [s]) Hwf1 Ha1) as
      (h2 & a2 & Hrun2 & Hwf2 & Ha2 & Hcnt2 & Hsize2 & Hpres2); [lia|].
    exists h2, a2. simpl. mstep Hrun1.
    split; [done|]. split; [done|].
    split; [by rewrite <- app_assoc in Ha2|].
    split; [lia|]. split; [by rewrite Hsize2, Hcnt1, Hsize1|].
    by eapply chars_preserved_trans.
Qed.

(** C2.  From an empty array (count 0, capacity 0), 17 consecutive calls
    of [strarray_add] run to completion; the capacity is 16 after each
    of the first 16 calls and 32 after the 17th, so it changes exactly
    twice, from 0 to 16 and from 16 to 32; afterwards index [i] holds the
    [i]-th string added, for the 17 indices 0..16. *)
Theorem strarray_add_17 h p a (l : list cptr) :
  heap_wf h → array_at h p a [] → size a = 0 → length l = 17%nat →
  ∀ k : nat, (k ≤ 17)%nat →
    ∃ h' a',
      add_seq p (take k l) h = Ok (tt, h') ∧
      array_at h' p a' (take k l) ∧
      count a' = Z.of_nat k ∧
      size a' = (if decide (k = 0%nat) then 0
                 else if decide (k ≤ 16)%nat then 16 else 32) ∧
      (∀ i e, take k l !! i = Some e →
              load_cell (str a') (Z.of_nat i) h' = Ok (e, h')).
Proof.
  intros Hwf Ha Hsize Hlen k Hk.
  assert (Hcount : count a = 0).
  { destruct Ha as (_ & cells & _ & _ & _ & Hc & _). simpl in Hc. lia. }
  destruct (add_seq_spec p (take k l) h a [] Hwf Ha) as
    (h' & a' & Hrun & Hwf' & Ha' & Hcnt & Hsz & _).
  { rewrite length_take. lia. }
  rewrite length_take, Hlen, Nat.min_l in Hcnt, Hsz by lia.
  exists h', a'. split; [done|]. split; [done|]. split; [lia|]. split.
  - rewrite Hsz, Hcount, Hsize. clear -Hk.
    do 18 (destruct k as [|k]; [reflexivity|]). lia.
  - intros i e Hi. by apply (array_at_load_cell _ _ _ _ _ _ Ha').
Qed.

Lemma strarray_add_17_witness :
  ∃ h' a',
    add_seq 5 (replicate 17 (CPtr 6 0)) example_heap = Ok (tt, h') ∧
    array_at h' 5 a' (replicate 17 (CPtr 6 0)) ∧
    count a' = 17 ∧ size a' = 32 ∧
    (∀ i e, replicate 17 (CPtr 6 0) !! i = Some e →
            load_cell (str a') (Z.of_nat i) h' = Ok (e, h')).
Proof.
  exact (strarray_add_17 example_heap 5 empty_strarray (replicate 17 (CPtr 6 0))
           heap_wf_example array_at_example eq_refl eq_refl 17%nat (le_n 17)).
Defined.

(** ** strarray_add_uniq *)

Lemma strarray_add_uniq_eq h p a elems strs s t :
  array_at h p a elems → strings_at h elems strs → cstr_at h s = Some t →
  strarray_add_uniq p s h
    = if decide (t ∈ strs) then Ok (tt, h) else strarray_add p s h.
Proof.
  intros Ha Hstrs Hs. unfold strarray_add_uniq.
  mstep (strarray_exists_spec _ _ _ _ _ _ _ Ha Hstrs Hs).
  by destruct (decide (t ∈ strs)).
Qed.

Lemma example_heap1_add :
  strarray_add 5 (CPtr 6 0) example_heap = Ok (tt, example_heap1).
Proof. reflexivity. Qed.

(** C3, as stated, fails when the string is already in the array: two
    calls of [strarray_add_uniq] with "x" on an array that holds "x"
    leave [count] at 1, which is not one more than before. *)
Lemma strarray_add_uniq_twice_present :
  ∃ h2 a0 a2,
    objs example_heap1 !! 5 = Some (OStruct a0) ∧
    (strarray_add_uniq 5 (CPtr 6 0) ;;; strarray_add_uniq 5 (CPtr 6 0)) example_heap1
      = Ok (tt, h2) ∧
    objs h2 !! 5 = Some (OStruct a2) ∧
    count a2 ≠ count a0 + 1.
Proof.
  exists example_heap1, (StrArray 1 16 7), (StrArray 1 16 7).
  split; [reflexivity|]. split; [reflexivity|]. split; [reflexivity|].
  simpl. lia.
Qed.

(** C3, amended.  Two calls of [strarray_add_uniq(array, str)] in
    succession: the first adds [str] as the last element and raises
    [count] by exactly 1 when no element equals [str], and changes
    nothing when one does; the second leaves the whole memory unchanged.
    So [count] grows by 1 or 0, never by 2, and the elements stored
    before, the first occurrence of the string among them, stay at their
    indices.  The first call runs to completion whenever the string is
    present, the array has room, or its capacity is below 2^31. *)
Theorem strarray_add_uniq_twice h p a elems strs s t :
  heap_wf h → array_at h p a elems → strings_at h elems strs →
  cstr_at h s = Some t →
  (∀ h1, strarray_add_uniq p s h = Ok (tt, h1) →
     strarray_add_uniq p s h1 = Ok (tt, h1) ∧
     ∃ a1,
       array_at h1 p a1 (if decide (t ∈ strs) then elems else elems ++ [s]) ∧
       strings_at h1 (if decide (t ∈ strs) then elems else elems ++ [s])
                     (if decide (t ∈ strs) then strs else strs ++ [t]) ∧
       count a1 = count a + (if decide (t ∈ strs) then 0 else 1)) ∧
  (t ∈ strs ∨ count a < size a ∨ size a < 2 ^ 31 →
     ∃ h1, strarray_add_uniq p s h = Ok (tt, h1)).
Proof.
  intros Hwf Ha Hstrs Hs.
  rewrite (strarray_add_uniq_eq _ _ _ _ _ _ _ Ha Hstrs Hs).
  split.
  - intros h1 Hrun. destruct (decide (t ∈ strs)) as [Hin|Hout].
    + inversion Hrun; subst h1.
      rewrite (strarray_add_uniq_eq _ _ _ _ _ _ _ Ha Hstrs Hs).
      rewrite decide_True by done. split; [done|].
      exists a. split; [done|]. split; [done|]. lia.
    + destruct (strarray_add_post _ _ _ _ _ _ _ _ Hwf Ha Hstrs Hs Hrun)
        as (a1 & Hwf1 & Ha1 & Hcnt1 & _ & Hstrs1 & Hpres).
      rewrite (strarray_add_uniq_eq h1 p a1 (elems ++ [s]) (strs ++ [t]) s t Ha1 Hstrs1)
        by (by eapply cstr_at_preserved).
      rewrite decide_True
        by (rewrite elem_of_app, list_elem_of_singleton; by right).
      split; [done|]. exists a1. split; [done|]. split; [done|]. lia.
  - intros Hroom. destruct (decide (t ∈ strs)) as [Hin|Hout]; [by exists h|].
    destruct Hroom as [?|Hroom]; [done|].
    destruct (strarray_add_spec h p a elems s Hwf Ha Hroom) as (h' & a' & Hrun & _).
    by exists h'.
Qed.

Lemma heap_wf_example1 : heap_wf example_heap1.
Proof.
  split; [done|].
  intros b o. unfold example_heap1, initial_objs. simpl.
  rewrite !lookup_insert. repeat case_decide; subst; try lia.
  by rewrite lookup_empty.
Qed.

Lemma array_at_example1 : array_at example_heap1 5 (StrArray 1 16 7) [CPtr 6 0].
Proof.
  split; [done|]. exists (Some (CPtr 6 0) :: replicate 15 None).
  split; [done|]. split; [done|]. split; [done|]. split; done.
Qed.

Lemma strings_at_example1 : strings_at example_heap1 [CPtr 6 0] [["x"%char]].
Proof. constructor; [reflexivity|constructor]. Qed.

Lemma strarray_add_uniq_twice_witness :
  ∃ h1 a1,
    strarray_add_uniq 5 (CPtr 6 0) example_heap = Ok (tt, h1) ∧
    strarray_add_uniq 5 (CPtr 6 0) h1 = Ok (tt, h1) ∧
    array_at h1 5 a1 [CPtr 6 0] ∧ count a1 = 1.
Proof.
  destruct (strarray_add_uniq_twice example_heap 5 empty_strarray [] []
              (CPtr 6 0) ["x"%char]
              heap_wf_example array_at_example (List.Forall2_nil _) eq_refl)
    as [Hpost Htotal].
  destruct Htotal as [h1 Hrun]; [right; right; reflexivity|].
  destruct (Hpost h1 Hrun) as (Hagain & a1 & Harr & _ & Hcnt).
  exists h1, a1. split; [done|]. split; [done|]. split; [exact Harr|exact Hcnt].
Defined.

(** ** strarray_addall of an array to itself *)

(** C8.  [strarray_addall(&a, a)] on a full array of 16 elements reads
    [added.str[1]] after the first [strarray_add] has reallocated the
    cells, that is, from the block [realloc] released: the copy of the
    structure that is passed keeps the old [str].  The call has
    undefined behaviour; it does not leave the elements twice. *)
Lemma strarray_addall_self_full :
  ∃ a, load_struct 5 example_heap16 = Ok (a, example_heap16) ∧
       count a = 16 ∧ size a = 16 ∧
       strarray_addall 5 a example_heap16 = Undef.
Proof.
  exists (StrArray 16 16 7). repeat split; reflexivity.
Qed.

Lemma strarray_addall_self_loop p a0 elems : ∀ (n i : nat) h a,
  heap_wf h → array_at h p a (elems ++ take i elems) →
  Z.of_nat (length elems) = count a0 →
  (i + n = length elems)%nat →
  str a = str a0 → size a = size a0 →
  count a0 + Z.of_nat i + Z.of_nat n ≤ size a0 + 1 → size a0 < 2 ^ 31 →
  ∃ h' a',
    strarray_addall_loop p a0 (Z.of_nat i) n h = Ok (tt, h') ∧
    heap_wf h' ∧
    array_at h' p a' (elems ++ elems) ∧
    chars_preserved h h'.
Proof.
  induction n as [|n IH]; intros i h a Hwf Ha Hlen Hi Hstr Hsize Hroom Hbig.
  - exists h, a. simpl. split; [done|]. split; [done|].
    split; [|apply chars_preserved_refl].
    rewrite take_ge in Ha by lia. done.
  - destruct (lookup_lt_is_Some_2 elems i) as [e He]; [lia|].
    assert (Hcnt : count a = count a0 + Z.of_nat i).
    { destruct Ha as (_ & cells & _ & _ & _ & Hc & _).
      rewrite length_app, length_take in Hc. lia. }
    simpl.
    assert (Hload : load_cell (str a0) (Z.of_nat i) h = Ok (e, h)).
    { rewrite <- Hstr. apply (array_at_load_cell _ _ _ _ _ _ Ha).
      by apply lookup_app_l_Some. }
    mstep Hload.
    destruct (strarray_add_spec h p a (elems ++ take i elems) e Hwf Ha)
      as (h1 & a1 & Hrun1 & Hwf1 & Ha1 & Hcnt1 & Hsize1 & Hstr1 & _); [lia|].
    pose proof (strarray_add_chars _ _ _ _ _ _ Hwf Ha Hrun1) as Hpres1.
    mstep Hrun1.
    rewrite <- app_assoc, <- (take_S_r _ _ _ He) in Ha1.
    replace (Z.of_nat i + 1) with (Z.of_nat (S i)) by lia.
    destruct n as [|n].
    + exists h1, a1. simpl. split; [done|]. split; [done|]. split; [|done].
      rewrite take_ge in Ha1 by lia. done.
    + rewrite decide_False in Hstr1 by lia.
      unfold grown_size in Hsize1. rewrite decide_False in Hsize1 by lia.
      destruct (IH (S i) h1 a1) as (h2 & a2 & Hrun2 & Hwf2 & Ha2 & Hpres2);
        try done; try lia; try (destruct Hstr1; congruence).
      exists h2, a2. split; [done|]. split; [done|]. split; [done|].
      by eapply chars_preserved_trans.
Qed.

(** While no element is read after a reallocation,
    [strarray_addall(&a, a)] runs over the [count] the array had at the
    call (the argument is a copy of the structure) and leaves the
    original elements followed by the same elements again, with [count]
    doubled: that is when the capacity holds all the appended elements
    but at most the last (2 * count <= capacity + 1, capacity below
    2^31). *)
Theorem strarray_addall_self h p a elems :
  heap_wf h → array_at h p a elems →
  2 * count a ≤ size a + 1 → size a < 2 ^ 31 →
  ∃ h' a',
    strarray_addall p a h = Ok (tt, h') ∧
    array_at h' p a' (elems ++ elems) ∧
    count a' = 2 * count a.
Proof.
  intros Hwf Ha Hroom Hbig.
  assert (Hlen : Z.of_nat (length elems) = count a).
  { destruct Ha as (_ & cells & _ & _ & _ & Hc & _). done. }
  unfold strarray_addall. rewrite <- Hlen, Nat2Z.id.
  destruct (strarray_addall_self_loop p a elems (length elems) 0 h a)
    as (h' & a' & Hrun & Hwf' & Ha' & _); try done; try lia.
  { by rewrite take_0, app_nil_r. }
  exists h', a'. split; [done|]. split; [done|].
  destruct Ha' as (_ & cells & _ & _ & _ & Hc & _).
  rewrite length_app in Hc. lia.
Qed.

Lemma strarray_addall_self_witness :
  ∃ h' a',
    strarray_addall 5 (StrArray 1 16 7) example_heap1 = Ok (tt, h') ∧
    array_at h' 5 a' ([CPtr 6 0] ++ [CPtr 6 0]) ∧
    count a' = 2 * 1.
Proof.
  apply (strarray_addall_self example_heap1 5 (StrArray 1 16 7) [CPtr 6 0]
           heap_wf_example1 array_at_example1).
  - simpl. lia.
  - simpl. lia.
Defined.

Lemma load_cell_dead h b i : objs h !! b = None → load_cell b i h = Undef.
Proof. intros H. unfold load_cell. by rewrite H. Qed.

(** The bound on appending an array to itself is tight: with less room, an
    element is read from the cells after they were reallocated. *)
Lemma strarray_addall_self_undef_loop p a0 elems : ∀ (n i : nat) h a,
  heap_wf h → array_at h p a (elems ++ take i elems) →
  Z.of_nat (length elems) = count a0 →
  (i + n = length elems)%nat →
  str a = str a0 → size a = size a0 →
  size a0 + 1 < count a0 + Z.of_nat i + Z.of_nat n →
  strarray_addall_loop p a0 (Z.of_nat i) n h = Undef.
Proof.
  induction n as [|n IH]; intros i h a Hwf Ha Hlen Hi Hstr Hsize Hroom.
  - pose proof (array_at_count_le _ _ _ _ Ha) as Hle.
    destruct Ha as (_ & cells & _ & _ & _ & Hc & _).
    rewrite length_app, length_take in Hc. lia.
  - destruct (lookup_lt_is_Some_2 elems i) as [e He]; [lia|].
    pose proof (array_at_count_le _ _ _ _ Ha) as Hle.
    assert (Hcnt : count a = count a0 + Z.of_nat i).
    { destruct Ha as (_ & cells & _ & _ & _ & Hc & _).
      rewrite length_app, length_take in Hc. lia. }
    simpl.
    assert (Hload : load_cell (str a0) (Z.of_nat i) h = Ok (e, h)).
    { rewrite <- Hstr. apply (array_at_load_cell _ _ _ _ _ _ Ha).
      by apply lookup_app_l_Some. }
    mstep Hload.
    destruct (decide (count a = size a ∧ 2 ^ 31 ≤ size a)) as [[Efull Hbig]|Hok].
    { apply bindM_Undef. by eapply strarray_add_overflow. }
    destruct (strarray_add_spec h p a (elems ++ take i elems) e Hwf Ha)
      as (h1 & a1 & Hrun1 & Hwf1 & Ha1 & Hcnt1 & Hsize1 & Hstr1 & _ & _ & _ & Hdead);
      [lia|].
    mstep Hrun1.
    rewrite <- app_assoc, <- (take_S_r _ _ _ He) in Ha1.
    replace (Z.of_nat i + 1) with (Z.of_nat (S i)) by lia.
    destruct (decide (count a = size a)) as [Efull|Eroom].
    + (* the cells moved: the next read is from the released block *)
      destruct n as [|n]; [lia|]. simpl.
      apply bindM_Undef, load_cell_dead. rewrite <- Hstr. apply Hdead; [done|].
      intros E0. unfold load_cell in Hload. rewrite <- Hstr, E0 in Hload.
      by rewrite heap_wf_null in Hload.
    + unfold grown_size in Hsize1. rewrite decide_False in Hsize1 by done.
      apply (IH (S i) h1 a1); try done; try lia; destruct Hstr1; congruence.
Qed.

Lemma strarray_addall_self_undef h p a elems :
  heap_wf h → array_at h p a elems →
  size a + 1 < 2 * count a →
  strarray_addall p a h = Undef.
Proof.
  intros Hwf Ha Hroom.
  assert (Hlen : Z.of_nat (length elems) = count a).
  { destruct Ha as (_ & cells & _ & _ & _ & Hc & _). done. }
  unfold strarray_addall. rewrite <- Hlen, Nat2Z.id.
  apply (strarray_addall_self_undef_loop p a elems (length elems) 0 h a);
    try done; try lia.
  by rewrite take_0, app_nil_r.
Qed.

(** ** Duplicate-free arrays *)

Lemma value_at_source_ok h b belems bstrs :
  heap_wf h → value_at h b belems → strings_at h belems bstrs → source_ok h b.
Proof.
  intros Hwf (cells & Hcells & Hlen & Hsz & Hcnt & Htake) Hstrs.
  unfold cells_of in Hcells. split.
  - case_decide as E0; [rewrite E0; apply Hwf|].
    destruct (objs h !! str b) as [o|] eqn:Hb; [|done].
    apply Hwf in Hb. lia.
  - intros cells' i e Hb Hi Hlt. rewrite Hb in Hcells.
    case_decide as E0; [rewrite E0, heap_wf_null in Hb; done|].
    inversion Hcells; subst cells'.
    assert (He : belems !! i = Some e).
    { apply (f_equal (λ l, l !! i)) in Htake.
      rewrite lookup_take_lt, list_lookup_fmap, Hi in Htake by lia.
      destruct (belems !! i); inversion Htake; done. }
    destruct (Forall2_lookup_l _ _ _ _ _ Hstrs He) as (t & _ & Ht). by exists t.
Qed.

Lemma strarray_add_uniq_preserves h p s t h' :
  heap_wf h → dup_free h p → cstr_at h s = Some t →
  strarray_add_uniq p s h = Ok (tt, h') →
  heap_wf h' ∧ dup_free h' p ∧ chars_preserved h h' ∧
  ∀ added, source_ok h added → source_ok h' added.
Proof.
  intros Hwf (a & elems & strs & Ha & Hstrs & Hnd) Hs Hrun.
  rewrite (strarray_add_uniq_eq _ _ _ _ _ _ _ Ha Hstrs Hs) in Hrun.
  destruct (decide (t ∈ strs)) as [Hin|Hout].
  { inversion Hrun; subst h'. split; [done|]. split; [by exists a, elems, strs|].
    split; [apply chars_preserved_refl|done]. }
  pose proof (strarray_add_inv _ _ _ _ _ _ Hwf Ha Hrun) as Hroom.
  pose proof (strarray_add_chars _ _ _ _ _ _ Hwf Ha Hrun) as Hpres.
  destruct (strarray_add_spec h p a elems s Hwf Ha Hroom)
    as (h2 & a' & Hrun' & Hwf' & Ha' & Hcnt & Hsize & Hstr & _ & Hframe & Hcells' & Hdead).
  rewrite Hrun in Hrun'. inversion Hrun'; subst h2.
  assert (Hstrs' : strings_at h' (elems ++ [s]) (strs ++ [t])).
  { apply Forall2_app; [by eapply strings_at_preserved|].
    constructor; [by eapply cstr_at_preserved|constructor]. }
  split; [done|]. split.
  { exists a', (elems ++ [s]), (strs ++ [t]). split; [done|]. split; [done|].
    apply NoDup_app. split; [done|]. split; [|apply NoDup_singleton].
    intros x Hx Hx'. apply list_elem_of_singleton in Hx'. by subst x. }
  split; [done|].
  intros added [Hlt Hsrc].
  assert (Hnext : next h ≤ next h')
    by (destruct (decide (count a = size a)); destruct Hstr; lia).
  split; [lia|].
  pose proof (array_at_count_le _ _ _ _ Ha) as Hle.
  intros cells' i e Hb Hi Hic.
  destruct Ha as (Hp & cells & Hcells & Hlen & Hsz & Hc & Htake).
  destruct (decide (str added = p)) as [Ep|Ep].
  { rewrite Ep in Hb. destruct Ha' as (Hp' & _). by rewrite Hp' in Hb. }
  destruct (decide (str added = str a')) as [Ea'|Ea'].
  - (* the cells of the array itself *)
    rewrite Ea', (Hcells' cells Hcells) in Hb. inversion Hb; subst cells'.
    destruct (decide (i = length elems)) as [->|Hne].
    + rewrite list_lookup_insert_eq in Hi.
      * inversion Hi; subst e. exists t. by eapply cstr_at_preserved.
      * rewrite length_resize. rewrite Hsize. unfold grown_size.
        repeat case_decide; lia.
    + rewrite list_lookup_insert_ne in Hi by done.
      destruct (decide (count a = size a)) as [Efull|Eroom].
      * destruct Hstr as [Hstr _]. lia.
      * destruct Hstr as [Hstr _].
        unfold grown_size in Hsize. rewrite decide_False in Hsize by done.
        rewrite resize_all_alt in Hi by lia.
        unfold cells_of in Hcells. case_decide as E0.
        { inversion Hcells; subst cells. done. }
        destruct (objs h !! str a) as [[]|] eqn:Hb0; try done.
        inversion Hcells; subst cells0.
        rewrite Ea', Hstr in Hsrc.
        destruct (Hsrc cells i e Hb0 Hi Hic) as [u Hu].
        exists u. by eapply cstr_at_preserved.
  - destruct (decide (str added = str a)) as [Ea|Ea].
    + (* the cells the array had before they were reallocated *)
      destruct (decide (count a = size a)) as [Efull|Eroom].
      * destruct (decide (str a = 0)) as [E0|E0].
        { rewrite Ea, E0, (heap_wf_null _ Hwf') in Hb. done. }
        rewrite Ea, (Hdead Efull E0) in Hb. done.
      * destruct Hstr as [Hstr _]. congruence.
    + rewrite Hframe in Hb by done.
      destruct (Hsrc cells' i e Hb Hi Hic) as [u Hu].
      exists u. by eapply cstr_at_preserved.
Qed.

Lemma load_cell_inv h b i v h' :
  load_cell b i h = Ok (v, h') →
  h' = h ∧ 0 ≤ i ∧
  ∃ cells, objs h !! b = Some (OPtrs cells) ∧ cells !! Z.to_nat i = Some (Some v).
Proof.
  unfold load_cell. destruct (objs h !! b) as [[| cells |]|]; try done.
  case_decide; [|done].
  destruct (cells !! Z.to_nat i) as [[w|]|] eqn:Hi; try done.
  intros [= <- <-]. split; [done|]. split; [done|]. by exists cells.
Qed.

Lemma strarray_addall_uniq_loop_preserves p added : ∀ (n i : nat) h h',
  heap_wf h → dup_free h p → source_ok h added →
  Z.of_nat i + Z.of_nat n ≤ count added →
  strarray_addall_uniq_loop p added (Z.of_nat i) n h = Ok (tt, h') →
  heap_wf h' ∧ dup_free h' p ∧ chars_preserved h h'.
Proof.
  induction n as [|n IH]; intros i h h' Hwf Hdf Hsrc Hn Hrun; simpl in Hrun.
  - inversion Hrun; subst h'. split; [done|]. split; [done|].
    apply chars_preserved_refl.
  - apply bindM_inv in Hrun as (s & h0 & Hload & Hrun).
    apply load_cell_inv in Hload as (-> & _ & cells & Hb & Hi).
    rewrite Nat2Z.id in Hi.
    destruct (proj2 Hsrc cells i s Hb Hi) as [t Ht]; [lia|].
    apply bindM_inv in Hrun as ([] & h1 & Hadd & Hrun).
    destruct (strarray_add_uniq_preserves _ _ _ _ _ Hwf Hdf Ht Hadd)
      as (Hwf1 & Hdf1 & Hpres1 & Hsrc1).
    replace (Z.of_nat i + 1) with (Z.of_nat (S i)) in Hrun by lia.
    destruct (IH (S i) h1 h' Hwf1 Hdf1 (Hsrc1 _ Hsrc)) as (Hwf' & Hdf' & Hpres');
      [lia|done|].
    split; [done|]. split; [done|]. by eapply chars_preserved_trans.
Qed.

Lemma strarray_addall_uniq_preserves h p added belems bstrs h' :
  heap_wf h → dup_free h p →
  value_at h added belems → strings_at h belems bstrs →
  strarray_addall_uniq p added h = Ok (tt, h') →
  heap_wf h' ∧ dup_free h' p ∧ chars_preserved h h'.
Proof.
  intros Hwf Hdf Hval Hstrs Hrun.
  pose proof (value_at_source_ok _ _ _ _ Hwf Hval Hstrs) as Hsrc.
  destruct Hval as (cells & _ & _ & _ & Hcnt & _).
  apply (strarray_addall_uniq_loop_preserves p added (Z.to_nat (count added)) 0 h h');
    try done. lia.
Qed.

Lemma array_untouched_dup_free p h h' :
  heap_wf h → heap_wf h' → array_untouched p h h' → dup_free h p → dup_free h' p.
Proof.
  intros Hwf Hwf' [Hpres Hsame] (a & elems & strs & (Hp & cells & Hcells & Hrest) & Hstrs & Hnd).
  destruct (Hsame a Hp) as [Hp' Hcells'].
  exists a, elems, strs.
  split; [|split; [exact (strings_at_preserved _ _ _ _ Hpres Hstrs)|done]].
  split; [done|]. exists cells. split; [|done].
  unfold cells_of in *. case_decide; [done|]. by rewrite Hcells'.
Qed.

Lemma uniq_built_dup_free p h : uniq_built p h → heap_wf h ∧ dup_free h p.
Proof.
  induction 1 as [h a Hwf Ha | h s h' _ [Hwf Hdf] [t Ht] Hrun
                 | h added belems bstrs h' _ [Hwf Hdf] Hval Hstrs Hrun
                 | h h' _ [Hwf Hdf] Hwf' Hsame].
  - split; [done|]. exists a, [], []. split; [done|]. split; [constructor|constructor].
  - destruct (strarray_add_uniq_preserves _ _ _ _ _ Hwf Hdf Ht Hrun) as (? & ? & _). done.
  - destruct (strarray_addall_uniq_preserves _ _ _ _ _ _ Hwf Hdf Hval Hstrs Hrun)
      as (? & ? & _). done.
  - split; [done|]. exact (array_untouched_dup_free _ _ _ Hwf Hwf' Hsame Hdf).
Qed.

(** [strarray_addall_uniq] from an array value whose cells are not the
    cells of the array it appends to runs to completion. *)
Lemma strarray_addall_uniq_loop_total p added bcells belems bstrs :
  ∀ (n i : nat) h a elems strs,
    heap_wf h → array_at h p a elems → strings_at h elems strs →
    objs h !! str added = Some (OPtrs bcells) →
    take (length belems) bcells = Some <$> belems →
    strings_at h belems bstrs →
    (i + n = length belems)%nat →
    str added ≠ str a →
    count a + Z.of_nat n ≤ 2 ^ 31 →
    ∃ h', strarray_addall_uniq_loop p added (Z.of_nat i) n h = Ok (tt, h').
Proof.
  induction n as [|n IH]; intros i h a elems strs Hwf Ha Hstrs Hb Htake Hbstrs Hi Hne Hbound.
  - by exists h.
  - destruct (lookup_lt_is_Some_2 belems i) as [e He]; [lia|].
    destruct (Forall2_lookup_l _ _ _ _ _ Hbstrs He) as (t & _ & Ht).
    assert (Hcell : bcells !! i = Some (Some e)).
    { rewrite <- (lookup_take_lt bcells (length belems)) by lia.
      by rewrite Htake, list_lookup_fmap, He. }
    simpl. mstep (load_cell_eq _ _ _ _ _ Hb Hcell).
    pose proof (strarray_add_uniq_eq _ _ _ _ _ _ _ Ha Hstrs Ht) as Hau.
    replace (Z.of_nat i + 1) with (Z.of_nat (S i)) by lia.
    pose proof (array_at_count_le _ _ _ _ Ha) as Hle.
    destruct (decide (t ∈ strs)) as [Hin|Hout].
    + mstep Hau.
      apply (IH (S i) h a elems strs); try done; lia.
    + destruct (strarray_add_spec h p a elems e Hwf Ha)
        as (h1 & a1 & Hrun1 & Hwf1 & Ha1 & Hcnt1 & _ & Hstr1 & _ & Hframe & _); [lia|].
      pose proof (strarray_add_chars _ _ _ _ _ _ Hwf Ha Hrun1) as Hpres1.
      rewrite Hrun1 in Hau. mstep Hau.
      assert (Hlive : str added ≠ next h).
      { intros E. rewrite E, heap_wf_fresh in Hb; done. }
      assert (Hp : str added ≠ p).
      { intros E. destruct Ha as [Hp _]. rewrite E, Hp in Hb. done. }
      assert (Hne1 : str added ≠ str a1).
      { destruct (decide (count a = size a)); destruct Hstr1; congruence. }
      apply (IH (S i) h1 a1 (elems ++ [e]) (strs ++ [t])); try done; try lia.
      * apply Forall2_app; [by eapply strings_at_preserved|].
        constructor; [by eapply cstr_at_preserved|constructor].
      * by rewrite Hframe.
      * by eapply strings_at_preserved.
Qed.

Lemma strarray_addall_uniq_total h p a elems strs added belems bstrs :
  heap_wf h → array_at h p a elems → strings_at h elems strs →
  value_at h added belems → strings_at h belems bstrs →
  str added ≠ str a ∨ str added = 0 →
  count a + count added ≤ 2 ^ 31 →
  ∃ h', strarray_addall_uniq p added h = Ok (tt, h').
Proof.
  intros Hwf Ha Hstrs (bcells & Hcells & _ & _ & Hcnt & Htake) Hbstrs Hne Hbound.
  unfold strarray_addall_uniq. rewrite <- Hcnt, Nat2Z.id.
  unfold cells_of in Hcells. destruct (decide (str added = 0)) as [E0|E0].
  - inversion Hcells; subst bcells. rewrite take_nil in Htake.
    destruct belems; [|done]. by exists h.
  - destruct (objs h !! str added) as [[]|] eqn:Hb; try done.
    inversion Hcells; subst cells.
    apply (strarray_addall_uniq_loop_total p added bcells belems bstrs
             (length belems) 0 h a elems strs); try done; try lia;
      try (by destruct Hne).
Qed.

(** C10.  An array without two equal strings has none after a call of
    [strarray_add_uniq] with any string, and none after a call of
    [strarray_addall_uniq] with any array of strings as the source,
    whether or not that one repeats strings; so an array built from an
    empty one with these two functions only never holds a string twice.
    The calls run to completion as long as the capacity stays below 2^31
    and the source is not read from cells that the call reallocates. *)
Theorem strarray_uniq_dup_free p :
  (∀ h s h', heap_wf h → dup_free h p → is_Some (cstr_at h s) →
     strarray_add_uniq p s h = Ok (tt, h') → dup_free h' p) ∧
  (∀ h added belems bstrs h', heap_wf h → dup_free h p →
     value_at h added belems → strings_at h belems bstrs →
     strarray_addall_uniq p added h = Ok (tt, h') → dup_free h' p) ∧
  (∀ h, uniq_built p h → dup_free h p) ∧
  (∀ h a elems strs s, heap_wf h → array_at h p a elems →
     strings_at h elems strs → is_Some (cstr_at h s) → size a < 2 ^ 31 →
     ∃ h', strarray_add_uniq p s h = Ok (tt, h')) ∧
  (∀ h a elems strs added belems bstrs, heap_wf h → array_at h p a elems →
     strings_at h elems strs →
     value_at h added belems → strings_at h belems bstrs →
     str added ≠ str a ∨ str added = 0 →
     count a + count added ≤ 2 ^ 31 →
     ∃ h', strarray_addall_uniq p added h = Ok (tt, h')).
Proof.
  split; [|split; [|split; [|split]]].
  - intros h s h' Hwf Hdf [t Ht] Hrun.
    by destruct (strarray_add_uniq_preserves _ _ _ _ _ Hwf Hdf Ht Hrun) as (_ & ? & _).
  - intros h added belems bstrs h' Hwf Hdf Hval Hstrs Hrun.
    by destruct (strarray_addall_uniq_preserves _ _ _ _ _ _ Hwf Hdf Hval Hstrs Hrun)
      as (_ & ? & _).
  - intros h Hb. by apply uniq_built_dup_free.
  - intros h a elems strs s Hwf Ha Hstrs [t Ht] Hsz.
    rewrite (strarray_add_uniq_eq _ _ _ _ _ _ _ Ha Hstrs Ht).
    destruct (decide (t ∈ strs)); [by exists h|].
    destruct (strarray_add_spec h p a elems s Hwf Ha) as (h' & a' & Hrun & _);
      [by right|by exists h'].
  - intros h a elems strs added belems bstrs. apply strarray_addall_uniq_total.
Qed.

Lemma heap_wf_example_dup : heap_wf example_heap_dup.
Proof.
  split; [done|].
  intros b o. unfold example_heap_dup, initial_objs. simpl.
  rewrite !lookup_insert. repeat case_decide; subst; try lia.
  by rewrite lookup_empty.
Qed.

Lemma strarray_uniq_dup_free_witness :
  ∃ h', strarray_addall_uniq 8 (StrArray 2 16 7) example_heap_dup = Ok (tt, h') ∧
        dup_free h' 8.
Proof.
  pose proof (strarray_uniq_dup_free 8) as (_ & Hall & _ & _ & Htotal).
  assert (Ha : array_at example_heap_dup 8 empty_strarray []).
  { split; [done|]. exists []. repeat split; done. }
  assert (Hv : value_at example_heap_dup (StrArray 2 16 7) [CPtr 6 0; CPtr 6 0]).
  { exists (Some (CPtr 6 0) :: Some (CPtr 6 0) :: replicate 14 None).
    repeat split; done. }
  assert (Hs : strings_at example_heap_dup [CPtr 6 0; CPtr 6 0]
                 [["x"%char]; ["x"%char]]).
  { repeat constructor. }
  destruct (Htotal example_heap_dup empty_strarray [] [] (StrArray 2 16 7)
              [CPtr 6 0; CPtr 6 0] [["x"%char]; ["x"%char]]
              heap_wf_example_dup Ha (List.Forall2_nil _) Hv Hs) as [h' Hrun].
  { left. simpl. lia. }
  { simpl. lia. }
  exists h'. split; [done|].
  apply (Hall example_heap_dup (StrArray 2 16 7) [CPtr 6 0; CPtr 6 0]
           [["x"%char]; ["x"%char]] h' heap_wf_example_dup); try done.
  exists empty_strarray, [], []. split; [done|]. split; constructor.
Defined.

(** ** Which array objects a call writes *)

Section keeps.
Context (P : Z → Prop).

Lemma keeps_pure {A} (c : M A) :
  (∀ h x h', c h = Ok (x, h') → h' = h) → keeps_structs P c.
Proof.
  intros Hc h x h' Hwf Hrun. apply Hc in Hrun as ->.
  split; [done|]. split; [lia|done].
Qed.

Lemma keeps_ret {A} (x : A) : keeps_structs P (retM x).
Proof. apply keeps_pure. by intros h y h' [= _ <-]. Qed.

Lemma keeps_undef {A} : keeps_structs P (@undef A).
Proof. by intros h x h' _ Hrun. Qed.

Lemma keeps_timeout {A} : keeps_structs P (@timeout A).
Proof. by intros h x h' _ Hrun. Qed.

Lemma keeps_bind {A B} (c : M A) (k : A → M B) :
  keeps_structs P c → (∀ x, keeps_structs P (k x)) → keeps_structs P (bindM c k).
Proof.
  intros Hc Hk h y h2 Hwf Hrun.
  apply bindM_inv in Hrun as (x & h1 & Hrun1 & Hrun2).
  destruct (Hc _ _ _ Hwf Hrun1) as (Hwf1 & Hn1 & Hs1).
  destruct (Hk x _ _ _ Hwf1 Hrun2) as (Hwf2 & Hn2 & Hs2).
  split; [done|]. split; [lia|]. eauto.
Qed.

Lemma keeps_get_heap : keeps_structs P get_heap.
Proof. apply keeps_pure. by intros h y h' [= _ <-]. Qed.

Lemma keeps_load_struct p : keeps_structs P (load_struct p).
Proof.
  apply keeps_pure. intros h x h'. unfold load_struct.
  destruct (objs h !! p) as [[]|]; try done. by intros [= _ <-].
Qed.

Lemma keeps_load_cell b i : keeps_structs P (load_cell b i).
Proof.
  apply keeps_pure. intros h x h' Hrun. by apply load_cell_inv in Hrun as [-> _].
Qed.

Lemma keeps_load_cstr p : keeps_structs P (load_cstr p).
Proof.
  apply keeps_pure. intros h x h'. unfold load_cstr.
  destruct (cstr_at h p); try done. by intros [= _ <-].
Qed.

(** A store to a live block that holds no array object. *)
Lemma keeps_update h b o' :
  heap_wf h → is_Some (objs h !! b) →
  (∀ a, objs h !! b = Some (OStruct a) → P b) →
  heap_wf (set_objs h (<[b := o']> (objs h))) ∧
  next h ≤ next (set_objs h (<[b := o']> (objs h))) ∧
  ∀ q o, ¬ P q → objs h !! q = Some (OStruct o) →
         objs (set_objs h (<[b := o']> (objs h))) !! q = Some (OStruct o).
Proof.
  intros Hwf Hb HP. split; [by apply heap_wf_update|]. split; [simpl; lia|].
  intros q o Hq Ho. simpl. rewrite lookup_insert_ne; [done|].
  intros ->. apply Hq. by eapply HP.
Qed.

Lemma keeps_delete h b :
  heap_wf h → (∀ a, objs h !! b = Some (OStruct a) → P b) →
  heap_wf (set_objs h (delete b (objs h))) ∧
  next h ≤ next (set_objs h (delete b (objs h))) ∧
  ∀ q o, ¬ P q → objs h !! q = Some (OStruct o) →
         objs (set_objs h (delete b (objs h))) !! q = Some (OStruct o).
Proof.
  intros Hwf HP. split; [by apply heap_wf_delete|]. split; [simpl; lia|].
  intros q o Hq Ho. simpl. rewrite lookup_delete_ne; [done|].
  intros ->. apply Hq. by eapply HP.
Qed.

Lemma keeps_store_struct p a : P p → keeps_structs P (store_struct p a).
Proof.
  intros Hp h x h' Hwf. unfold store_struct.
  destruct (objs h !! p) as [[]|] eqn:Hb; try done. intros [= _ <-].
  apply keeps_update; [done|by rewrite Hb|done].
Qed.

Lemma keeps_free_struct p : P p → keeps_structs P (free_struct p).
Proof.
  intros Hp h x h' Hwf. unfold free_struct. intros [= _ <-].
  by apply keeps_delete.
Qed.

Lemma keeps_store_cell b i v : keeps_structs P (store_cell b i v).
Proof.
  intros h x h' Hwf. unfold store_cell.
  destruct (objs h !! b) as [[]|] eqn:Hb; try done. case_decide; [|done].
  intros [= _ <-]. apply keeps_update; [done|by rewrite Hb|]. by rewrite Hb.
Qed.

Lemma keeps_store_bytes p l : keeps_structs P (store_bytes p l).
Proof.
  intros h x h' Hwf. unfold store_bytes.
  destruct (objs h !! cblk p) as [[]|] eqn:Hb; try done. case_decide; [|done].
  intros [= _ <-]. apply keeps_update; [done|by rewrite Hb|]. by rewrite Hb.
Qed.

Lemma keeps_set_strtok_save p : keeps_structs P (set_strtok_save p).
Proof.
  intros h x h' Hwf [= _ <-]. split; [done|]. split; [simpl; lia|done].
Qed.

Lemma keeps_alloc o : keeps_structs P (alloc o).
Proof.
  intros h x h' Hwf Hrun.
  destruct (alloc_spec o h Hwf) as (h2 & Hrun2 & Hwf2 & Ho & Hn & _).
  rewrite Hrun in Hrun2. inversion Hrun2; subst.
  split; [done|]. split; [lia|]. intros q o' _ Hq. rewrite Ho.
  rewrite lookup_insert_ne; [done|]. intros <-.
  by rewrite heap_wf_fresh in Hq.
Qed.

Lemma keeps_free_chars p : keeps_structs P (free_chars p).
Proof.
  intros h x h' Hwf. unfold free_chars. case_decide.
  { intros [= _ <-]. split; [done|]. split; [lia|done]. }
  destruct (objs h !! cblk p) as [[]|] eqn:Hb; try done. case_decide; [|done].
  intros [= _ <-]. apply keeps_delete; [done|]. by rewrite Hb.
Qed.

Lemma keeps_realloc ptr n : keeps_structs P (realloc ptr n).
Proof.
  unfold realloc. case_decide; [apply keeps_alloc|].
  intros h x h' Hwf.
  destruct (objs h !! ptr) as [[]|] eqn:Hb; try done. case_decide.
  { intros [= _ <-]. apply keeps_delete; [done|]. by rewrite Hb. }
  intros Hrun.
  destruct (keeps_delete h ptr Hwf) as (Hwf1 & Hn1 & Hs1); [by rewrite Hb|].
  destruct (keeps_alloc _ _ _ _ Hwf1 Hrun) as (Hwf2 & Hn2 & Hs2).
  split; [done|]. split; [lia|]. eauto.
Qed.
End keeps.

Create HintDb keeps discriminated.
#[export] Hint Resolve keeps_ret keeps_undef keeps_timeout keeps_get_heap
  keeps_load_struct keeps_load_cell keeps_load_cstr keeps_store_struct
  keeps_free_struct keeps_store_cell keeps_store_bytes keeps_set_strtok_save
  keeps_alloc keeps_free_chars keeps_realloc : keeps.

(** Goes through the statements of a function body. *)
Ltac keeps_tac :=
  repeat first
    [ solve [eauto 2 with keeps]
    | apply keeps_bind; [|intros ?]
    | match goal with
      | |- keeps_structs _ (if ?b then _ else _) => destruct b
      | |- keeps_structs _ (match ?x with _ => _ end) => destruct x
      end ].

Section keeps_functions.
Context (P : Z → Prop).

Lemma keeps_xmalloc n : keeps_structs P (xmalloc n).
Proof. unfold xmalloc, malloc. keeps_tac. Qed.

Lemma keeps_xrealloc ptr n : keeps_structs P (xrealloc ptr n).
Proof. unfold xrealloc. keeps_tac. Qed.

Lemma keeps_strlen p : keeps_structs P (strlen p).
Proof. unfold strlen. keeps_tac. Qed.

Lemma keeps_strcmp p q : keeps_structs P (strcmp p q).
Proof. unfold strcmp. keeps_tac. Qed.

Lemma keeps_strcpy d s : keeps_structs P (strcpy d s).
Proof. unfold strcpy. keeps_tac. Qed.

Lemma keeps_strcat d s : keeps_structs P (strcat d s).
Proof. unfold strcat. keeps_tac. Qed.

Lemma keeps_strtok s d : keeps_structs P (strtok s d).
Proof. unfold strtok. keeps_tac. Qed.

Hint Resolve keeps_xmalloc keeps_xrealloc keeps_strlen keeps_strcmp
  keeps_strcpy keeps_strcat keeps_strtok : keeps.

Lemma keeps_xstrdup s : keeps_structs P (xstrdup s).
Proof. unfold xstrdup. keeps_tac. Qed.

Lemma keeps_vsnprintf p sz e : keeps_structs P (vsnprintf p sz e).
Proof. unfold vsnprintf. keeps_tac. Qed.

Hint Resolve keeps_xstrdup keeps_vsnprintf : keeps.

Lemma keeps_strmake fuel e : keeps_structs P (strmake fuel e).
Proof.
  unfold strmake. generalize 100. induction fuel as [|fuel IH]; intros sz; simpl.
  - keeps_tac.
  - keeps_tac; try apply IH.
Qed.

Lemma keeps_strarray_add p s : P p → keeps_structs P (strarray_add p s).
Proof. intros Hp. unfold strarray_add. keeps_tac. Qed.

Lemma keeps_strarray_exists p s : keeps_structs P (strarray_exists p s).
Proof.
  unfold strarray_exists. keeps_tac.
  generalize 0. induction (Z.to_nat _) as [|n IH]; intros i; simpl.
  - keeps_tac.
  - keeps_tac; try apply IH.
Qed.

Hint Resolve keeps_strarray_add keeps_strarray_exists : keeps.

Lemma keeps_strarray_add_uniq p s : P p → keeps_structs P (strarray_add_uniq p s).
Proof. intros Hp. unfold strarray_add_uniq. keeps_tac. Qed.

Hint Resolve keeps_strarray_add_uniq : keeps.

Lemma keeps_strarray_addall p added : P p → keeps_structs P (strarray_addall p added).
Proof.
  intros Hp. unfold strarray_addall.
  generalize 0. induction (Z.to_nat _) as [|n IH]; intros i; simpl.
  - keeps_tac.
  - keeps_tac; try apply IH.
Qed.

Lemma keeps_strarray_addall_uniq p added :
  P p → keeps_structs P (strarray_addall_uniq p added).
Proof.
  intros Hp. unfold strarray_addall_uniq.
  generalize 0. induction (Z.to_nat _) as [|n IH]; intros i; simpl.
  - keeps_tac.
  - keeps_tac; try apply IH.
Qed.

Lemma keeps_strarray_fromstring_loop fuel : ∀ array tok delim,
  P array → keeps_structs P (strarray_fromstring_loop fuel array tok delim).
Proof.
  induction fuel as [|fuel IH]; intros array tok delim Hp; simpl.
  - keeps_tac.
  - keeps_tac; try (by apply IH).
Qed.

Lemma keeps_strarray_tostring_len a : ∀ n i len,
  keeps_structs P (strarray_tostring_len a i n len).
Proof. induction n as [|n IH]; intros i len; simpl; keeps_tac. Qed.

Lemma keeps_strarray_tostring_cat a sep s : ∀ n i,
  keeps_structs P (strarray_tostring_cat a sep s i n).
Proof. induction n as [|n IH]; intros i; simpl; keeps_tac. Qed.

Hint Resolve keeps_strarray_tostring_len keeps_strarray_tostring_cat : keeps.

Lemma keeps_strarray_tostring a sep : keeps_structs P (strarray_tostring a sep).
Proof. unfold strarray_tostring. keeps_tac. Qed.

Lemma keeps_bsearch_loop func key base : ∀ fuel l u,
  keeps_structs P (bsearch_loop fuel func key base l u).
Proof. induction fuel as [|fuel IH]; intros l u; simpl; keeps_tac. Qed.

Hint Resolve keeps_bsearch_loop : keeps.

Lemma keeps_strarray_bsearch p s func : keeps_structs P (strarray_bsearch p s func).
Proof. unfold strarray_bsearch, bsearch. keeps_tac. Qed.
End keeps_functions.

(** [strarray_fromstring] works on a local array in a block of its own:
    it keeps every array object that exists when it is called. *)
Lemma strarray_fromstring_keeps s delim h r h' :
  heap_wf h → strarray_fromstring s delim h = Ok (r, h') →
  heap_wf h' ∧
  ∀ q o, objs h !! q = Some (OStruct o) → objs h' !! q = Some (OStruct o).
Proof.
  intros Hwf Hrun. unfold strarray_fromstring in Hrun.
  apply bindM_inv in Hrun as (e & h0 & Hload & Hrun).
  assert (h0 = h) as ->.
  { unfold load_struct in Hload. destruct (objs h !! _) as [[]|]; try done.
    by inversion Hload. }
  apply bindM_inv in Hrun as (array & h1 & Hal & Hrun).
  destruct (alloc_spec (OStruct e) h Hwf) as (h1' & Hal' & Hwf1 & Ho1 & Hn1 & _).
  rewrite Hal in Hal'. inversion Hal'; subst array h1'. clear Hal'.
  assert (Hk : keeps_structs (λ q, q = next h)
    (buf <- xstrdup s ;;
     n <- strlen buf ;;
     tok <- strtok buf delim ;;
     strarray_fromstring_loop (S (Z.to_nat n)) (next h) tok delim ;;;
     free_chars buf ;;;
     r <- load_struct (next h) ;;
     free_struct (next h) ;;;
     retM r)).
  { repeat first
      [ apply keeps_xstrdup | apply keeps_strlen | apply keeps_strtok
      | apply keeps_strarray_fromstring_loop | apply keeps_free_chars
      | apply keeps_load_struct | apply keeps_free_struct | apply keeps_ret
      | reflexivity
      | apply keeps_bind; [|intros ?] ]. }
  destruct (Hk _ _ _ Hwf1 Hrun) as (Hwf' & _ & Hs).
  split; [done|]. intros q o Hq. apply Hs.
  - intros ->. by rewrite heap_wf_fresh in Hq.
  - rewrite Ho1, lookup_insert_ne; [done|]. intros <-. by rewrite heap_wf_fresh in Hq.
Qed.

(** ** The shared empty array *)

(** C4, as stated, fails: [strarray_add] on the zero-capacity array at
    block 5 changes that very object, from (0, 0, NULL) to one element
    in 16 cells. *)
Lemma strarray_add_in_place :
  objs example_heap !! 5 = Some (OStruct (StrArray 0 0 0)) ∧
  ∃ h', strarray_add 5 (CPtr 6 0) example_heap = Ok (tt, h') ∧
        objs h' !! 5 = Some (OStruct (StrArray 1 16 7)).
Proof. split; [reflexivity|]. exists example_heap1. split; reflexivity. Qed.

Lemma keeps_ptr_add P p z : keeps_structs P (ptr_add p z).
Proof.
  apply keeps_pure. intros h x h'. unfold ptr_add.
  destruct (objs h !! cblk p) as [[bs| |]|]; try done.
  case_decide; [|done]. by intros [= _ <-].
Qed.

Lemma keeps_strendswith P s e : keeps_structs P (strendswith s e).
Proof.
  unfold strendswith.
  apply keeps_bind; [apply keeps_strlen|intros n].
  apply keeps_bind; [apply keeps_strlen|intros m].
  case_decide; [|apply keeps_ret].
  apply keeps_bind; [apply keeps_ptr_add|intros q].
  apply keeps_bind; [apply keeps_ptr_add|intros q'].
  apply keeps_bind; [apply keeps_strcmp|intros c]. apply keeps_ret.
Qed.

Lemma keeps_qsort P func base nmemb : keeps_structs P (qsort func base nmemb).
Proof.
  intros h x h' Hwf. unfold qsort.
  destruct (objs h !! base) as [[|cells|]|] eqn:Hb; try done.
  case_decide; [|done]. destruct (mapM id _); [|done].
  intros [= _ <-]. apply keeps_update; [done|by rewrite Hb|].
  intros a Ha. by rewrite Hb in Ha.
Qed.

Lemma keeps_strarray_qsort P p func : keeps_structs P (strarray_qsort p func).
Proof.
  unfold strarray_qsort. apply keeps_bind; [apply keeps_load_struct|intros a].
  case_decide; [apply keeps_qsort|apply keeps_ret].
Qed.

(** C4, amended.  The add functions write the array object they are
    given a pointer to, a zero-capacity one as well (it then has one
    element in 16 cells), and no other [struct strarray] object; every
    other function of the header, [strarray_qsort], [strarray_exists]
    and [strarray_bsearch] with the pointer they take included, writes
    no [struct strarray] object that exists when it is called:
    [strarray_fromstring] and [strarray_frompath] insert into a local
    copy of [empty_strarray].  So the constant [empty_strarray] is the
    same after every call, except a call of an add function given the
    address of the constant itself, which its [const] type does not
    let through. *)
Theorem strarray_writes_only_its_array h :
  heap_wf h →
  (∀ p a s h', array_at h p a [] → size a = 0 →
     strarray_add p s h = Ok (tt, h') →
     ∃ a', objs h' !! p = Some (OStruct a') ∧ count a' = 1 ∧ size a' = 16) ∧
  (∀ p q o, q ≠ p → objs h !! q = Some (OStruct o) →
     (∀ s h', strarray_add p s h = Ok (tt, h') →
        objs h' !! q = Some (OStruct o)) ∧
     (∀ s h', strarray_add_uniq p s h = Ok (tt, h') →
        objs h' !! q = Some (OStruct o)) ∧
     (∀ added h', strarray_addall p added h = Ok (tt, h') →
        objs h' !! q = Some (OStruct o)) ∧
     (∀ added h', strarray_addall_uniq p added h = Ok (tt, h') →
        objs h' !! q = Some (OStruct o))) ∧
  (∀ q o, objs h !! q = Some (OStruct o) →
     (∀ s delim r h', strarray_fromstring s delim h = Ok (r, h') →
        objs h' !! q = Some (OStruct o)) ∧
     (∀ win32 path r h', strarray_frompath win32 path h = Ok (r, h') →
        objs h' !! q = Some (OStruct o)) ∧
     (∀ p s r h', strarray_exists p s h = Ok (r, h') →
        objs h' !! q = Some (OStruct o)) ∧
     (∀ a sep r h', strarray_tostring a sep h = Ok (r, h') →
        objs h' !! q = Some (OStruct o)) ∧
     (∀ p s func r h', strarray_bsearch p s func h = Ok (r, h') →
        objs h' !! q = Some (OStruct o)) ∧
     (∀ fuel e r h', strmake fuel e h = Ok (r, h') →
        objs h' !! q = Some (OStruct o)) ∧
     (∀ p func h', strarray_qsort p func h = Ok (tt, h') →
        objs h' !! q = Some (OStruct o)) ∧
     (∀ s e r h', strendswith s e h = Ok (r, h') →
        objs h' !! q = Some (OStruct o)) ∧
     (∀ s r h', xstrdup s h = Ok (r, h') →
        objs h' !! q = Some (OStruct o)) ∧
     (∀ n r h', xmalloc n h = Ok (r, h') →
        objs h' !! q = Some (OStruct o)) ∧
     (∀ ptr n r h', xrealloc ptr n h = Ok (r, h') →
        objs h' !! q = Some (OStruct o))) ∧
  (objs h !! empty_strarray_addr = Some (OStruct empty_strarray) →
   ∀ p, p ≠ empty_strarray_addr →
     (∀ s h', strarray_add p s h = Ok (tt, h') →
        objs h' !! empty_strarray_addr = Some (OStruct empty_strarray)) ∧
     (∀ s h', strarray_add_uniq p s h = Ok (tt, h') →
        objs h' !! empty_strarray_addr = Some (OStruct empty_strarray)) ∧
     (∀ added h', strarray_addall p added h = Ok (tt, h') →
        objs h' !! empty_strarray_addr = Some (OStruct empty_strarray)) ∧
     (∀ added h', strarray_addall_uniq p added h = Ok (tt, h') →
        objs h' !! empty_strarray_addr = Some (OStruct empty_strarray))).
Proof.
  intros Hwf.
  assert (Hnone : ∀ {A} (c : M A) q o x h',
            keeps_structs (λ _, False) c → objs h !! q = Some (OStruct o) →
            c h = Ok (x, h') → objs h' !! q = Some (OStruct o)).
  { intros A c q o x h' Hk Hq Hrun.
    destruct (Hk h x h' Hwf Hrun) as (_ & _ & Hs). apply Hs; [by intros ?|done]. }
  assert (Hone : ∀ {A} (c : M A) p q o x h',
            keeps_structs (λ y, y = p) c → q ≠ p → objs h !! q = Some (OStruct o) →
            c h = Ok (x, h') → objs h' !! q = Some (OStruct o)).
  { intros A c p q o x h' Hk Hne Hq Hrun.
    destruct (Hk h x h' Hwf Hrun) as (_ & _ & Hs). by apply Hs. }
  split; [|split; [|split]].
  - intros p a s h' Ha Hsize Hrun.
    pose proof (strarray_add_inv _ _ _ _ _ _ Hwf Ha Hrun) as Hroom.
    destruct (strarray_add_spec h p a [] s Hwf Ha Hroom)
      as (h2 & a' & Hrun' & _ & Ha' & Hcnt & Hsz & _).
    rewrite Hrun in Hrun'. inversion Hrun'; subst h2.
    exists a'. split; [apply Ha'|].
    pose proof (array_at_count_le _ _ _ _ Ha) as Hle.
    unfold grown_size in Hsz. rewrite Hsize in *.
    rewrite decide_True, decide_False in Hsz by lia. lia.
  - intros p q o Hne Hq.
    assert (HP : (λ x, x = p) p) by done.
    split; [|split; [|split]].
    + intros s h' Hrun.
      exact (Hone _ _ p q o _ h' (keeps_strarray_add _ p s HP) Hne Hq Hrun).
    + intros s h' Hrun.
      exact (Hone _ _ p q o _ h' (keeps_strarray_add_uniq _ p s HP) Hne Hq Hrun).
    + intros added h' Hrun.
      exact (Hone _ _ p q o _ h' (keeps_strarray_addall _ p added HP) Hne Hq Hrun).
    + intros added h' Hrun.
      exact (Hone _ _ p q o _ h' (keeps_strarray_addall_uniq _ p added HP) Hne Hq Hrun).
  - intros q o Hq. repeat split.
    + intros s delim r h' Hrun.
      destruct (strarray_fromstring_keeps s delim h r h' Hwf Hrun) as (_ & Hs); by apply Hs.
    + intros win32 path r h'. unfold strarray_frompath. case_decide.
      { intros Hrun. unfold load_struct in Hrun.
        destruct (objs h !! empty_strarray_addr) as [[]|]; try done.
        by inversion Hrun; subst. }
      destruct win32; intros Hrun;
        destruct (strarray_fromstring_keeps _ _ h r h' Hwf Hrun) as (_ & Hs); by apply Hs.
    + intros p s r h'. apply Hnone; [apply keeps_strarray_exists|done].
    + intros a sep r h'. apply Hnone; [apply keeps_strarray_tostring|done].
    + intros p s func r h'. apply Hnone; [apply keeps_strarray_bsearch|done].
    + intros fuel e r h'. apply Hnone; [apply keeps_strmake|done].
    + intros p func h'. apply Hnone; [apply keeps_strarray_qsort|done].
    + intros s e r h'. apply Hnone; [apply keeps_strendswith|done].
    + intros s r h'. apply Hnone; [apply keeps_xstrdup|done].
    + intros n r h'. apply Hnone; [apply keeps_xmalloc|done].
    + intros ptr n r h'. apply Hnone; [apply keeps_xrealloc|done].
  - intros Hconst p Hp. apply not_eq_sym in Hp.
    split; [|split; [|split]].
    + intros s h' Hrun.
      exact (Hone _ _ p _ _ _ h' (keeps_strarray_add _ p s eq_refl) Hp Hconst Hrun).
    + intros s h' Hrun.
      exact (Hone _ _ p _ _ _ h' (keeps_strarray_add_uniq _ p s eq_refl) Hp Hconst Hrun).
    + intros added h' Hrun.
      exact (Hone _ _ p _ _ _ h' (keeps_strarray_addall _ p added eq_refl) Hp Hconst Hrun).
    + intros added h' Hrun.
      exact (Hone _ _ p _ _ _ h' (keeps_strarray_addall_uniq _ p added eq_refl)
               Hp Hconst Hrun).
Qed.

Lemma strarray_writes_only_its_array_witness :
  strarray_add 5 (CPtr 6 0) example_heap = Ok (tt, example_heap1) ∧
  objs example_heap1 !! empty_strarray_addr = Some (OStruct empty_strarray).
Proof.
  split; [reflexivity|].
  destruct (strarray_writes_only_its_array example_heap heap_wf_example)
    as (_ & _ & _ & Hconst).
  destruct (Hconst eq_refl 5 ltac:(unfold empty_strarray_addr; lia)) as (Hadd & _).
  exact (Hadd (CPtr 6 0) example_heap1 eq_refl).
Defined.

(** ** strarray_bsearch *)

Section bsearch.
Context (func : heap → cptr → cptr → Z) (h : heap) (key : cptr).
Context (p : Z) (a : strarray) (elems : list cptr).
Context (Harr : array_at h p a elems).
Context (Hord : consistent_order (func h) (key :: elems)).
Context (Hsorted : sorted_by (func h) elems).

Local Abbreviation cmp := (func h).

Lemma elem_in_dom i e : elems !! i = Some e → e ∈ key :: elems.
Proof. intros He. apply list_elem_of_further. by eapply list_elem_of_lookup_2. Qed.

(** The key is below everything to the right of an element it is below. *)
Lemma key_below_right (i j : nat) ei ej :
  elems !! i = Some ei → elems !! j = Some ej → (i ≤ j)%nat →
  cmp key ei < 0 → cmp key ej < 0.
Proof.
  intros Hi Hj Hij Hlt.
  destruct (decide (i = j)) as [->|Hne]; [congruence|].
  assert (cmp ei ej ≤ 0) as Hle by (apply (Hsorted i j); [lia|done..]).
  destruct Hord as [Hsym Htrans].
  pose proof (elem_in_dom _ _ Hi) as Di. pose proof (elem_in_dom _ _ Hj) as Dj.
  assert (Dk : key ∈ key :: elems) by apply list_elem_of_here.
  destruct (decide (cmp key ej < 0)) as [|Hge]; [done|exfalso].
  assert (cmp ej key ≤ 0) as Hjk.
  { destruct (decide (cmp ej key ≤ 0)); [done|].
    assert (0 < cmp ej key) as Hpos by lia. apply Hsym in Hpos; [lia|done..]. }
  pose proof (Htrans ei ej key Di Dj Dk Hle Hjk) as Hik.
  apply Hsym in Hlt; [lia|done..].
Qed.

(** The key is above everything to the left of an element it is above. *)
Lemma key_above_left (i j : nat) ei ej :
  elems !! i = Some ei → elems !! j = Some ej → (i ≤ j)%nat →
  0 < cmp key ej → 0 < cmp key ei.
Proof.
  intros Hi Hj Hij Hgt.
  destruct (decide (i = j)) as [->|Hne]; [congruence|].
  assert (cmp ei ej ≤ 0) as Hle by (apply (Hsorted i j); [lia|done..]).
  destruct Hord as [Hsym Htrans].
  pose proof (elem_in_dom _ _ Hi) as Di. pose proof (elem_in_dom _ _ Hj) as Dj.
  assert (Dk : key ∈ key :: elems) by apply list_elem_of_here.
  destruct (decide (0 < cmp key ei)) as [|Hle']; [done|exfalso].
  assert (cmp key ei ≤ 0) as Hki by lia.
  pose proof (Htrans key ei ej Dk Di Dj Hki Hle). lia.
Qed.

Lemma bsearch_loop_spec : ∀ (fuel : nat) (l u : Z),
  0 ≤ l → l ≤ u → u ≤ Z.of_nat (length elems) →
  u - l ≤ Z.of_nat fuel →
  (∀ (i : nat) e, Z.of_nat i < l → elems !! i = Some e → 0 < cmp key e) →
  (∀ (i : nat) e, u ≤ Z.of_nat i → elems !! i = Some e → cmp key e < 0) →
  ∃ r, bsearch_loop fuel func key (str a) l u h = Ok (r, h) ∧
       match r with
       | Some idx => ∃ e, 0 ≤ idx ∧ elems !! Z.to_nat idx = Some e ∧ cmp key e = 0
       | None => ∀ e, e ∈ elems → cmp key e ≠ 0
       end.
Proof.
  induction fuel as [|fuel IH]; intros l u Hl Hlu Hu Hfuel Hleft Hright.
  - assert (l = u) as -> by lia.
    exists None. split; [destruct u; simpl; rewrite ?decide_False by lia; done|].
    intros e He. apply list_elem_of_lookup in He as [i Hi].
    destruct (decide (Z.of_nat i < u)).
    + pose proof (Hleft i e ltac:(lia) Hi). lia.
    + pose proof (Hright i e ltac:(lia) Hi). lia.
  - simpl. destruct (decide (l < u)) as [Hlt|Hge].
    + set (idx := (l + u) / 2).
      assert (Hidx : l ≤ idx < u).
      { unfold idx. split; [apply Z.div_le_lower_bound|apply Z.div_lt_upper_bound]; lia. }
      destruct (lookup_lt_is_Some_2 elems (Z.to_nat idx)) as [e He]; [lia|].
      assert (Hload : load_cell (str a) idx h = Ok (e, h)).
      { rewrite <- (Z2Nat.id idx) by lia. by eapply array_at_load_cell. }
      mstep Hload. mstep (eq_refl : get_heap h = Ok (h, h)).
      destruct (decide (cmp key e < 0)) as [Hneg|Hnneg].
      * apply IH; try lia; [done|].
        intros i ei Hi Hei. apply (key_below_right (Z.to_nat idx) i e ei); try done. lia.
      * destruct (decide (cmp key e > 0)) as [Hpos|Hnpos].
        -- apply IH; try lia; [|done].
           intros i ei Hi Hei.
           apply (key_above_left i (Z.to_nat idx) ei e); try done; lia.
        -- exists (Some idx). split; [done|]. exists e.
           split; [lia|]. split; [done|lia].
    + assert (l = u) as -> by lia.
      exists None. split; [done|].
      intros e He. apply list_elem_of_lookup in He as [i Hi].
      destruct (decide (Z.of_nat i < u)).
      * pose proof (Hleft i e ltac:(lia) Hi). lia.
      * pose proof (Hright i e ltac:(lia) Hi). lia.
Qed.

Lemma strarray_bsearch_spec :
  ∃ r, strarray_bsearch p key func h = Ok (r, h) ∧
       ((r ∈ elems ∧ cmp key r = 0) ∨
        (r = NULL ∧ ∀ e, e ∈ elems → cmp key e ≠ 0)).
Proof.
  unfold strarray_bsearch.
  mstep (load_struct_eq _ _ _ (proj1 Harr)).
  assert (Hcnt : Z.of_nat (length elems) = count a)
    by (destruct Harr as (_ & ? & ?); tauto).
  destruct (decide (count a ≠ 0)) as [Hne|He].
  - destruct (bsearch_loop_spec (Z.to_nat (count a)) 0 (count a)) as (r & Hrun & Hr);
      try lia;
      try (intros i e Hi He; apply lookup_lt_Some in He; lia).
    unfold bsearch. mstep Hrun. destruct r as [idx|].
    + destruct Hr as (e & Hidx & He & Hcmp).
      mstep (load_struct_eq _ _ _ (proj1 Harr)).
      exists e. split.
      * rewrite <- (Z2Nat.id idx) by lia. by eapply array_at_load_cell.
      * left. split; [by eapply list_elem_of_lookup_2|done].
    + exists NULL. split; [done|]. by right.
  - exists NULL. mstep (eq_refl : retM None h = Ok (@None Z, h)).
    split; [done|]. right. split; [done|].
    intros e He'. destruct elems; [by apply not_elem_of_nil in He'|simpl in Hcnt; lia].
Qed.
End bsearch.

(** C7.  On an array in ascending order for a comparison function that
    orders the key and the elements consistently, [strarray_bsearch]
    returns an element that compares equal to the key whenever there is
    one (a non-null reference when the elements are strings), and the
    null pointer when no element compares equal to the key. *)
Theorem strarray_bsearch_sorted func h p a elems key :
  array_at h p a elems →
  consistent_order (func h) (key :: elems) →
  sorted_by (func h) elems →
  ((∃ e, e ∈ elems ∧ func h key e = 0) →
     ∃ r, strarray_bsearch p key func h = Ok (r, h) ∧
          r ∈ elems ∧ func h key r = 0 ∧
          (∀ strs, heap_wf h → strings_at h elems strs → r ≠ NULL)) ∧
  ((∀ e, e ∈ elems → func h key e ≠ 0) →
     strarray_bsearch p key func h = Ok (NULL, h)).
Proof.
  intros Harr Hord Hsorted.
  destruct (strarray_bsearch_spec func h key p a elems Harr Hord Hsorted)
    as (r & Hrun & Hr).
  split.
  - intros (e & He & Heq). destruct Hr as [[Hin Hcmp]|[_ Hnone]].
    + exists r. split; [done|]. split; [done|]. split; [done|].
      intros strs Hwf Hstrs ->.
      apply list_elem_of_lookup in Hin as [i Hi].
      destruct (Forall2_lookup_l _ _ _ _ _ Hstrs Hi) as (t & _ & Ht).
      unfold cstr_at in Ht. simpl in Ht. by rewrite heap_wf_null in Ht.
    + by destruct (Hnone e He).
  - intros Hnone. destruct Hr as [[Hin Hcmp]|[-> _]]; [|done].
    by destruct (Hnone r Hin).
Qed.

Lemma heap_wf_example_abc : heap_wf example_heap_abc.
Proof.
  split; [done|].
  intros b o. unfold example_heap_abc, initial_objs. simpl.
  rewrite !lookup_insert. repeat case_decide; subst; try lia.
  by rewrite lookup_empty.
Qed.

Lemma array_at_example_abc :
  array_at example_heap_abc 5 (StrArray 3 16 9) [CPtr 6 0; CPtr 7 0; CPtr 8 0].
Proof.
  split; [done|].
  exists (Some (CPtr 6 0) :: Some (CPtr 7 0) :: Some (CPtr 8 0) :: replicate 13 None).
  split; [done|]. split; [done|]. split; [done|]. split; done.
Qed.

Lemma strings_at_example_abc :
  strings_at example_heap_abc [CPtr 6 0; CPtr 7 0; CPtr 8 0]
    [["a"%char]; ["b"%char]; ["c"%char]].
Proof. repeat constructor. Qed.

Ltac in_list H :=
  repeat (apply elem_of_cons in H as [-> | H]); [..|by apply not_elem_of_nil in H].

Lemma strarray_bsearch_sorted_witness :
  ∃ r, strarray_bsearch 5 (CPtr 7 0) compare_strings example_heap_abc
         = Ok (r, example_heap_abc) ∧
       r ∈ [CPtr 6 0; CPtr 7 0; CPtr 8 0] ∧
       compare_strings example_heap_abc (CPtr 7 0) r = 0.
Proof.
  destruct (strarray_bsearch_sorted compare_strings example_heap_abc 5
              (StrArray 3 16 9) [CPtr 6 0; CPtr 7 0; CPtr 8 0] (CPtr 7 0)
              array_at_example_abc) as [Hfound _].
  - split.
    + intros x y Hx Hy. in_list Hx; in_list Hy; vm_compute; split; intros; congruence.
    + intros x y z Hx Hy Hz. in_list Hx; in_list Hy; in_list Hz;
        vm_compute; intros; congruence.
  - intros i j ei ej Hij Hi Hj.
    destruct i as [|[|[|i]]]; destruct j as [|[|[|j]]]; simpl in Hi, Hj;
      try lia; try done; inversion Hi; inversion Hj; subst; vm_compute; congruence.
  - destruct Hfound as (r & Hrun & Hin & Hcmp & _).
    + exists (CPtr 7 0). split; [|reflexivity].
      apply list_elem_of_further, list_elem_of_here.
    + exists r. split; [exact Hrun|]. split; [exact Hin|exact Hcmp].
Defined.

(** ** strmake *)

Lemma heap_wf_bump h : heap_wf h → heap_wf (bump h).
Proof.
  intros [Hn Hwf]. split; [simpl; lia|]. intros b o Hb. simpl in *.
  apply Hwf in Hb. lia.
Qed.

Lemma xmalloc_eq h sz :
  0 < sz →
  xmalloc sz h
    = Ok (CPtr (next h) 0,
          {| objs := <[next h := OChars (replicate (Z.to_nat sz) None)]> (objs h);
             next := next h + 1; strtok_save := strtok_save h |}).
Proof. intros Hsz. unfold xmalloc, malloc. by rewrite decide_True by lia. Qed.

Lemma store_bytes_eq h p bs l :
  objs h !! cblk p = Some (OChars bs) →
  0 ≤ coff p → coff p + Z.of_nat (length l) ≤ Z.of_nat (length bs) →
  store_bytes p l h
    = Ok (tt, set_objs h (<[cblk p := OChars (take (Z.to_nat (coff p)) bs ++ (Some <$> l)
                              ++ drop (Z.to_nat (coff p) + length l)%nat bs)]> (objs h))).
Proof.
  intros Hb Ho Hl. unfold store_bytes. rewrite Hb. by rewrite decide_True by lia.
Qed.

(** Writing at the start of a buffer that [xmalloc] has just returned. *)
Lemma xmalloc_store h sz l :
  heap_wf h → 0 < sz → Z.of_nat (length l) ≤ sz →
  (p <- xmalloc sz ;; store_bytes p l ;;; retM p) h
    = Ok (CPtr (next h) 0,
          {| objs := <[next h := OChars (filled sz l)]> (objs h);
             next := next h + 1; strtok_save := strtok_save h |}).
Proof.
  intros Hwf Hsz Hl. mstep (xmalloc_eq h sz Hsz).
  erewrite bindM_Ok; cycle 1.
  { apply store_bytes_eq with (bs := replicate (Z.to_nat sz) None).
    - apply lookup_insert_eq.
    - done.
    - rewrite length_replicate. simpl. lia. }
  unfold retM, set_objs. simpl. rewrite insert_insert_eq.
  do 4 f_equal. unfold filled. rewrite drop_replicate. done.
Qed.

Lemma free_fresh h o :
  heap_wf h →
  free_chars (CPtr (next h) 0)
    {| objs := <[next h := OChars o]> (objs h);
       next := next h + 1; strtok_save := strtok_save h |}
  = Ok (tt, bump h).
Proof.
  intros Hwf. unfold free_chars.
  rewrite decide_False by (destruct Hwf; unfold NULL; intros [=]; lia).
  simpl. rewrite lookup_insert_eq. simpl.
  rewrite delete_insert_eq. rewrite delete_id by (by apply heap_wf_fresh). done.
Qed.

(** One iteration of the loop of [strmake]. *)
Lemma strmake_loop_unfold e h sz fuel :
  heap_wf h → 0 ≤ sz →
  let len := Z.of_nat (length (rendered e)) in
  strmake_loop (S fuel) e sz h =
    if decide (INT_MAX < len) then strmake_loop fuel e (wrap64 (sz * 2)) (bump h)
    else if decide (len < sz) then
      Ok (CPtr (next h) 0,
          {| objs := <[next h := OChars (filled sz (rendered e ++ [NUL]))]> (objs h);
             next := next h + 1; strtok_save := strtok_save h |})
    else if legacy e sz then strmake_loop fuel e (wrap64 (sz * 2)) (bump h)
    else if decide (len + 1 ≤ INT_MAX) then strmake_loop fuel e (wrap64 (len + 1)) (bump h)
    else Undef.
Proof.
  intros Hwf Hsz len. simpl.
  assert (Hlen0 : 0 ≤ len) by (unfold len; lia).
  set (sz1 := if decide (sz ≠ 0) then sz else 1).
  assert (Hsz1 : 0 < sz1) by (unfold sz1; case_decide; lia).
  assert (Hx : xmalloc sz h = xmalloc sz1 h).
  { unfold xmalloc, sz1. repeat case_decide; done || lia. }
  rewrite (bindM_Ok _ _ h (CPtr (next h) 0) _ (eq_trans Hx (xmalloc_eq h sz1 Hsz1))).
  set (h1 := {| objs := <[next h := OChars (replicate (Z.to_nat sz1) None)]> (objs h);
                next := next h + 1; strtok_save := strtok_save h |}).
  assert (Hb1 : objs h1 !! next h = Some (OChars (replicate (Z.to_nat sz1) None)))
    by apply lookup_insert_eq.
  unfold vsnprintf. fold len.
  destruct (decide (INT_MAX < len)) as [Hover|Hrep]; cbv iota.
  { mstep (eq_refl : retM (-1) h1 = Ok (-1, h1)).
    rewrite decide_True by done.
    by mstep (free_fresh h (replicate (Z.to_nat sz1) None) Hwf). }
  destruct (decide (len < sz)) as [Hfit|Htrunc]; cbv iota.
  - assert (sz1 = sz) as Hsz1' by (unfold sz1; case_decide; lia).
    pose proof (store_bytes_eq h1 (CPtr (next h) 0) (replicate (Z.to_nat sz1) None)
                  (rendered e ++ [NUL]) Hb1 ltac:(done)) as Hst.
    rewrite length_replicate, length_app in Hst. simpl in Hst.
    specialize (Hst ltac:(lia)).
    mstep Hst. match goal with |- bindM (retM ?x) _ ?h = _ =>
      mstep (eq_refl : retM x h = Ok (x, h)) end.
    rewrite decide_False by lia.
    rewrite decide_False by (rewrite wrap64_small; unfold INT_MAX in *; lia).
    unfold retM, set_objs, h1. simpl. rewrite insert_insert_eq.
    do 4 f_equal. unfold filled. rewrite drop_replicate, Hsz1', length_app. done.
  - assert (Hw : ∃ h2 bs, objs h2 = <[next h := OChars bs]> (objs h) ∧
               next h2 = next h + 1 ∧ strtok_save h2 = strtok_save h ∧
               (if decide (0 < sz) then
                  store_bytes (CPtr (next h) 0)
                    (take (Z.to_nat (sz - 1)) (rendered e) ++ [NUL])
                else retM tt) h1 = Ok (tt, h2)).
    { case_decide as Hpos.
      - assert (sz1 = sz) as Hsz1' by (unfold sz1; case_decide; lia).
        eexists _, _. split; [|split; [|split]]; cycle 3.
        + apply store_bytes_eq with (bs := replicate (Z.to_nat sz1) None); [done|done|].
          rewrite length_replicate, length_app, length_take. simpl. lia.
        + simpl. rewrite insert_insert_eq. reflexivity.
        + done.
        + done.
      - exists h1, (replicate (Z.to_nat sz1) None). done. }
    destruct Hw as (h2 & bs & Hobjs2 & Hnext2 & Hsave2 & Hstore).
    assert (Hfree : free_chars (CPtr (next h) 0) h2 = Ok (tt, bump h)).
    { rewrite <- (free_fresh h bs Hwf). f_equal.
      destruct h2; simpl in *; by subst. }
    mstep Hstore. match goal with |- bindM (retM ?x) _ ?h = _ =>
      mstep (eq_refl : retM x h = Ok (x, h)) end.
    destruct (legacy e sz); cbv iota.
    + rewrite decide_True by done. by mstep Hfree.
    + rewrite decide_False by lia.
      rewrite decide_True by (rewrite wrap64_small; unfold INT_MAX in *; lia).
      destruct (decide (len + 1 ≤ INT_MAX)); [by mstep Hfree|reflexivity].
Qed.

Lemma length_filled sz l :
  Z.of_nat (length l) ≤ sz → Z.of_nat (length (filled sz l)) = sz.
Proof.
  intros Hl. unfold filled. rewrite length_app, length_fmap, length_replicate. lia.
Qed.

Lemma strmake_loop_post e : ∀ fuel sz h p h',
  heap_wf h → 0 ≤ sz →
  strmake_loop fuel e sz h = Ok (p, h') →
  heap_wf h' ∧ coff p = 0 ∧ next h ≤ cblk p ∧
  (∃ rest, objs h' !! cblk p = Some (OChars ((Some <$> rendered e ++ [NUL]) ++ rest))) ∧
  (∀ b, b < next h → objs h' !! b = objs h !! b).
Proof.
  induction fuel as [|fuel IH]; intros sz h p h' Hwf Hsz Hrun; [done|].
  rewrite strmake_loop_unfold in Hrun by done.
  assert (Hrec : ∀ sz', strmake_loop fuel e (wrap64 sz') (bump h) = Ok (p, h') →
    heap_wf h' ∧ coff p = 0 ∧ next h ≤ cblk p ∧
    (∃ rest, objs h' !! cblk p = Some (OChars ((Some <$> rendered e ++ [NUL]) ++ rest))) ∧
    (∀ b, b < next h → objs h' !! b = objs h !! b)).
  { intros sz' Hrun'.
    destruct (IH _ _ _ _ (heap_wf_bump _ Hwf) (proj1 (wrap64_range sz')) Hrun')
      as (Hwf' & Hoff & Hblk & Hbs & Hframe).
    simpl in Hblk. split; [done|]. split; [done|]. split; [lia|]. split; [done|].
    intros b Hb. rewrite Hframe by (simpl; lia). done. }
  destruct (decide (INT_MAX < _)); cbv iota in Hrun; [exact (Hrec _ Hrun)|].
  destruct (decide (_ < sz)) as [Hfit|]; cbv iota in Hrun.
  - inversion Hrun; subst p h'. clear Hrun. simpl.
    split.
    { destruct (alloc_spec (OChars (filled sz (rendered e ++ [NUL]))) h Hwf)
        as (h2 & Hal & Hwf2 & _). unfold alloc in Hal.
      injection Hal as <-. exact Hwf2. }
    split; [done|]. split; [lia|]. split.
    + rewrite lookup_insert_eq. eexists. reflexivity.
    + intros b Hb. rewrite lookup_insert_ne by lia. done.
  - destruct (legacy e sz); cbv iota in Hrun; [exact (Hrec _ Hrun)|].
    destruct (decide (_ ≤ INT_MAX)); cbv iota in Hrun; [exact (Hrec _ Hrun)|done].
Qed.

Lemma strmake_loop_total e :
  Z.of_nat (length (rendered e)) < INT_MAX →
  ∀ (m : nat) sz h (fuel : nat),
    heap_wf h → 0 < sz →
    Z.of_nat (length (rendered e)) < sz * 2 ^ Z.of_nat m →
    (m < fuel)%nat →
    ∃ p h', strmake_loop fuel e sz h = Ok (p, h').
Proof.
  intros Hlen. induction m as [|m IH]; intros sz h fuel Hwf Hsz Hm Hfuel;
    (destruct fuel as [|fuel]; [lia|]);
    rewrite strmake_loop_unfold by (done || lia); cbv zeta;
    rewrite decide_False by lia.
  - rewrite decide_True by (simpl in Hm; lia). eauto.
  - destruct (decide (_ < sz)); [eauto|].
    rewrite Nat2Z.inj_succ, Z.pow_succ_r in Hm by lia.
    unfold INT_MAX in *.
    destruct (legacy e sz).
    + apply IH; [by apply heap_wf_bump|..]; rewrite ?wrap64_small; lia.
    + rewrite decide_True by lia.
      apply IH; [by apply heap_wf_bump|..]; rewrite ?wrap64_small; try lia.
      assert (1 ≤ 2 ^ Z.of_nat m) by (apply (Z.pow_le_mono_r 2 0); lia). nia.
Qed.

(** Below [INT_MAX]: for an engine that renders a text whose length and
    terminator fit in the [int] that [vsnprintf] returns, [strmake]
    leaves its loop
    after at most 26 iterations, whatever mixture of -1 and needed
    lengths the engine reports for the buffers that are too small, and
    returns a newly allocated buffer that holds exactly the rendered
    text followed by the terminator; an engine that reports the needed
    length gets a buffer of exactly that size on the second attempt.
    Every call that returns at all returns such a buffer. *)
Theorem strmake_returns_rendered e h :
  heap_wf h →
  (∀ fuel p h', strmake fuel e h = Ok (p, h') →
     coff p = 0 ∧ objs h !! cblk p = None ∧
     (∃ rest, objs h' !! cblk p
              = Some (OChars ((Some <$> rendered e ++ [NUL]) ++ rest))) ∧
     (NUL ∉ rendered e → cstr_at h' p = Some (rendered e))) ∧
  (Z.of_nat (length (rendered e)) < INT_MAX →
     ∀ fuel, (26 ≤ fuel)%nat → ∃ p h', strmake fuel e h = Ok (p, h')) ∧
  (Z.of_nat (length (rendered e)) < INT_MAX → (∀ sz, legacy e sz = false) →
     ∃ p h' bs, strmake 2 e h = Ok (p, h') ∧
                objs h' !! cblk p = Some (OChars bs) ∧
                Z.of_nat (length bs)
                  = Z.max 100 (Z.of_nat (length (rendered e)) + 1)).
Proof.
  intros Hwf. split; [|split].
  - intros fuel p h' Hrun.
    destruct (strmake_loop_post e fuel 100 h p h' Hwf ltac:(lia) Hrun)
      as (Hwf' & Hoff & Hblk & [rest Hbs] & _).
    split; [done|]. split.
    { destruct (objs h !! cblk p) eqn:Hb; [|done]. apply Hwf in Hb. lia. }
    split; [by exists rest|].
    intros Hnul. unfold cstr_at. rewrite Hbs, Hoff. simpl.
    rewrite fmap_app, <- app_assoc. simpl. by apply read_cstr_app.
  - intros Hlen fuel Hfuel.
    apply (strmake_loop_total e Hlen 25 100 h fuel Hwf); [lia| |lia].
    unfold INT_MAX in Hlen. lia.
  - intros Hlen Hc99. unfold strmake.
    rewrite strmake_loop_unfold by (done || lia). cbv zeta.
    unfold INT_MAX in Hlen. rewrite decide_False by (unfold INT_MAX; lia).
    destruct (decide (_ < 100)) as [Hfit|Hbig].
    + eexists _, _, _. split; [reflexivity|]. simpl. rewrite lookup_insert_eq.
      split; [reflexivity|]. rewrite length_filled; [lia|].
      rewrite length_app. simpl. lia.
    + rewrite Hc99. rewrite decide_True by (unfold INT_MAX; lia).
      rewrite wrap64_small by lia.
      rewrite strmake_loop_unfold by (by apply heap_wf_bump || lia). cbv zeta.
      rewrite decide_False by (unfold INT_MAX; lia).
      rewrite decide_True by lia.
      eexists _, _, _. split; [reflexivity|]. simpl. rewrite lookup_insert_eq.
      split; [reflexivity|]. rewrite length_filled; [lia|].
      rewrite length_app. simpl. lia.
Qed.

Lemma strmake_returns_rendered_witness :
  ∃ p h', strmake 26 (Engine (list_ascii_of_string "wine") (λ _, true))
            initial_heap = Ok (p, h').
Proof.
  destruct (strmake_returns_rendered
              (Engine (list_ascii_of_string "wine") (λ _, true)) initial_heap
              heap_wf_initial) as (_ & Htotal & _).
  apply Htotal; [vm_compute; reflexivity|lia].
Defined.

(** ** Buffers *)

Lemma heap_wf_with_buf h bs : heap_wf h → heap_wf (with_buf h bs).
Proof.
  intros Hwf. destruct (alloc_spec (OChars bs) h Hwf) as (h' & Hal & Hwf' & _).
  unfold alloc in Hal. injection Hal as <-. exact Hwf'.
Qed.

Lemma with_buf_lookup_old h bs b o :
  heap_wf h → objs h !! b = Some o → objs (with_buf h bs) !! b = Some o.
Proof.
  intros Hwf Hb. simpl. rewrite lookup_insert_ne; [done|].
  intros <-. by rewrite heap_wf_fresh in Hb.
Qed.

Lemma with_buf_chars h bs : heap_wf h → chars_preserved h (with_buf h bs).
Proof. intros Hwf b bs' Hb. by apply with_buf_lookup_old. Qed.

Lemma with_buf_cstr_old h bs p s :
  heap_wf h → cstr_at h p = Some s → cstr_at (with_buf h bs) p = Some s.
Proof. intros Hwf. apply cstr_at_preserved. by apply with_buf_chars. Qed.

Lemma with_buf_load_cell h bs b i v :
  heap_wf h → load_cell b i h = Ok (v, h) →
  load_cell b i (with_buf h bs) = Ok (v, with_buf h bs).
Proof.
  intros Hwf Hload. apply load_cell_inv in Hload as (_ & Hi & cells & Hb & Hc).
  unfold load_cell. rewrite (with_buf_lookup_old _ _ _ _ Hwf Hb).
  rewrite decide_True by done. by rewrite Hc.
Qed.

Lemma xmalloc_with_buf h sz :
  0 < sz →
  xmalloc sz h = Ok (CPtr (next h) 0, with_buf h (replicate (Z.to_nat sz) None)).
Proof. apply xmalloc_eq. Qed.

(** A store into the buffer: defined exactly when it fits. *)
Lemma store_bytes_with_buf h bs (o : nat) l :
  store_bytes (CPtr (next h) (Z.of_nat o)) l (with_buf h bs) =
    if decide (o + length l ≤ length bs)%nat then
      Ok (tt, with_buf h (take o bs ++ (Some <$> l) ++ drop (o + length l) bs))
    else Undef.
Proof.
  unfold store_bytes. simpl. rewrite lookup_insert_eq.
  destruct (decide (o + length l ≤ length bs)%nat) as [Hfit|Hnofit].
  - rewrite decide_True by lia. rewrite Nat2Z.id.
    unfold with_buf, set_objs. simpl. by rewrite insert_insert_eq.
  - rewrite decide_False by lia. done.
Qed.

Lemma cstr_at_with_buf h bs : cstr_at (with_buf h bs) (CPtr (next h) 0) = read_cstr bs.
Proof. unfold cstr_at. simpl. by rewrite lookup_insert_eq. Qed.

(** Appending [l] and a terminator to the string [cur] of a buffer. *)
Lemma read_cstr_append bs cur l :
  read_cstr bs = Some cur → NUL ∉ l →
  (length cur + length (l ++ [NUL]) ≤ length bs)%nat →
  read_cstr (take (length cur) bs ++ (Some <$> l ++ [NUL])
               ++ drop (length cur + length (l ++ [NUL])) bs)
    = Some (cur ++ l).
Proof.
  intros Hcur Hl Hfit.
  pose proof (read_cstr_nul_free _ _ Hcur) as Hnf.
  apply read_cstr_inv in Hcur as [rest ->].
  rewrite take_app_length' by (by rewrite length_fmap).
  rewrite fmap_app. rewrite <- !app_assoc. rewrite (app_assoc (Some <$> cur)).
  rewrite <- fmap_app. simpl. apply read_cstr_app.
  rewrite not_elem_of_app. done.
Qed.

Lemma strcat_with_buf h bs cur src u :
  heap_wf h → read_cstr bs = Some cur → cstr_at h src = Some u →
  strcat (CPtr (next h) 0) src (with_buf h bs) =
    if decide (length cur + length u + 1 ≤ length bs)%nat then
      Ok (CPtr (next h) 0,
          with_buf h (take (length cur) bs ++ (Some <$> u ++ [NUL])
                        ++ drop (length cur + length (u ++ [NUL])) bs))
    else Undef.
Proof.
  intros Hwf Hcur Hu. unfold strcat.
  mstep (load_cstr_eq _ _ _ (eq_trans (cstr_at_with_buf h bs) Hcur)).
  mstep (load_cstr_eq _ _ _ (with_buf_cstr_old h bs src u Hwf Hu)).
  unfold cptr_add. simpl. rewrite Z.add_0_l.
  unfold bindM at 1. rewrite store_bytes_with_buf.
  rewrite length_app. simpl.
  destruct (decide (length cur + length u + 1 ≤ length bs)%nat).
  - rewrite decide_True by lia. done.
  - rewrite decide_False by lia. done.
Qed.

Lemma length_overwrite {A} (bs l : list A) (o : nat) :
  (o + length l ≤ length bs)%nat →
  length (take o bs ++ l ++ drop (o + length l) bs) = length bs.
Proof. intros H. rewrite !length_app, length_take, length_drop. lia. Qed.

Lemma xstrdup_spec h s t :
  heap_wf h → cstr_at h s = Some t → Z.of_nat (length t) + 1 < 2 ^ 64 →
  xstrdup s h = Ok (CPtr (next h) 0, with_buf h (Some <$> t ++ [NUL])).
Proof.
  intros Hwf Hs Hlen. unfold xstrdup.
  mstep (strlen_spec _ _ _ Hs). rewrite wrap64_small by lia.
  mstep (xmalloc_with_buf h (Z.of_nat (length t) + 1) ltac:(lia)).
  unfold strcpy.
  mstep (load_cstr_eq _ _ _
           (with_buf_cstr_old h (replicate (Z.to_nat (Z.of_nat (length t) + 1)) None)
              s t Hwf Hs)).
  unfold bindM at 1.
  rewrite (store_bytes_with_buf h _ 0 (t ++ [NUL])).
  rewrite length_replicate, length_app. simpl.
  rewrite decide_True by lia. simpl.
  rewrite drop_ge by (rewrite length_replicate; lia).
  by rewrite app_nil_r.
Qed.

(** ** strarray_tostring *)

Lemma value_at_load_cell h a elems (i : nat) e :
  value_at h a elems → elems !! i = Some e →
  load_cell (str a) (Z.of_nat i) h = Ok (e, h).
Proof.
  intros (cells & Hcells & Hlen & Hsz & Hcnt & Htake) Hi.
  assert (Hc : cells !! i = Some (Some e)).
  { rewrite <- (lookup_take_lt cells (length elems)) by (by eapply lookup_lt_Some).
    rewrite Htake, list_lookup_fmap, Hi. done. }
  unfold cells_of in Hcells. case_decide.
  - inversion Hcells; subst cells. done.
  - destruct (objs h !! str a) as [[]|] eqn:Hb; try done.
    inversion Hcells; subst. by eapply load_cell_eq.
Qed.

Lemma join_spec_cons sp t ts :
  join_spec sp (t :: ts) = t ++ concat ((λ u, sp ++ u) <$> ts).
Proof.
  revert t. induction ts as [|u ts IH]; intros t.
  - simpl. by rewrite app_nil_r.
  - change (join_spec sp (t :: u :: ts)) with (t ++ sp ++ join_spec sp (u :: ts)).
    rewrite IH. csimpl. by rewrite <- app_assoc.
Qed.

(** The separator is put in [count - 1] times. *)
Lemma length_join_spec sp strs :
  strs ≠ [] →
  Z.of_nat (length (join_spec sp strs))
    = Z.of_nat (total_length strs)
      + (Z.of_nat (length strs) - 1) * Z.of_nat (length sp).
Proof.
  unfold total_length. induction strs as [|t [|u ts] IH]; intros Hne; [done|..].
  - simpl. rewrite app_nil_r. lia.
  - change (join_spec sp (t :: u :: ts)) with (t ++ sp ++ join_spec sp (u :: ts)).
    rewrite !length_app, !Nat2Z.inj_add, IH by done.
    change (concat (t :: u :: ts)) with (t ++ concat (u :: ts)).
    rewrite length_app. simpl length. lia.
Qed.

Section tostring.
Context (h : heap) (a : strarray) (elems : list cptr) (strs : list (list ascii)).
Context (sep : cptr) (sp : list ascii).
Context (Hwf : heap_wf h) (Hval : value_at h a elems).
Context (Hstrs : strings_at h elems strs) (Hsep : cstr_at h sep = Some sp).

Lemma strarray_tostring_len_spec : ∀ (n i : nat) len,
  (i + n = length elems)%nat → 0 ≤ len < 2 ^ 32 →
  strarray_tostring_len a (Z.of_nat i) n len h
    = Ok (wrap32 (len + Z.of_nat (total_length (drop i strs))), h).
Proof.
  pose proof (Forall2_length _ _ _ Hstrs) as Hlen.
  induction n as [|n IH]; intros i len Hi Hrange; simpl.
  - rewrite drop_ge by lia. unfold total_length. simpl.
    rewrite Z.add_0_r, wrap32_small by done. done.
  - destruct (lookup_lt_is_Some_2 elems i) as [e He]; [lia|].
    destruct (lookup_lt_is_Some_2 strs i) as [u Hu]; [lia|].
    pose proof (Forall2_lookup_lr _ _ _ _ _ _ Hstrs He Hu) as Hcu.
    mstep (value_at_load_cell _ _ _ _ _ Hval He).
    mstep (strlen_spec _ _ _ Hcu).
    replace (Z.of_nat i + 1) with (Z.of_nat (S i)) by lia.
    rewrite IH by (lia || apply wrap32_range).
    rewrite wrap32_wrap64, wrap32_add_l.
    rewrite (drop_S _ _ _ Hu). unfold total_length. simpl.
    rewrite length_app. do 3 f_equal. lia.
Qed.

(** The loop that appends the separator and the next element, on the
    buffer at the fresh block: it completes exactly when all of it
    fits. *)
Lemma strarray_tostring_cat_spec : ∀ (n i : nat) bs cur,
  (i + n = length elems)%nat → read_cstr bs = Some cur →
  let tail := concat ((λ u, sp ++ u) <$> drop i strs) in
  ((length cur + length tail + 1 ≤ length bs)%nat →
     ∃ bs', strarray_tostring_cat a sep (CPtr (next h) 0) (Z.of_nat i) n (with_buf h bs)
              = Ok (tt, with_buf h bs') ∧
            read_cstr bs' = Some (cur ++ tail) ∧ length bs' = length bs) ∧
  (¬ (length cur + length tail + 1 ≤ length bs)%nat →
     strarray_tostring_cat a sep (CPtr (next h) 0) (Z.of_nat i) n (with_buf h bs)
       = Undef).
Proof.
  pose proof (Forall2_length _ _ _ Hstrs) as Hlen.
  pose proof (cstr_at_nul_free _ _ _ Hsep) as Hspn.
  induction n as [|n IH]; intros i bs cur Hi Hcur tail; simpl.
  - unfold tail. rewrite drop_ge by lia. simpl. rewrite app_nil_r.
    split.
    + intros _. by exists bs.
    + intros Hno. exfalso. apply Hno.
      apply read_cstr_inv in Hcur as [rest ->].
      rewrite length_app, length_fmap. simpl. lia.
  - destruct (lookup_lt_is_Some_2 elems i) as [e He]; [lia|].
    destruct (lookup_lt_is_Some_2 strs i) as [u Hu]; [lia|].
    pose proof (Forall2_lookup_lr _ _ _ _ _ _ Hstrs He Hu) as Hcu.
    pose proof (cstr_at_nul_free _ _ _ Hcu) as Hun.
    assert (Htail : tail = sp ++ u ++ concat ((λ u, sp ++ u) <$> drop (S i) strs)).
    { unfold tail. rewrite (drop_S _ _ _ Hu). csimpl. by rewrite <- app_assoc. }
    rewrite Htail, !length_app.
    pose proof (strcat_with_buf h bs cur sep sp Hwf Hcur Hsep) as Hcat1.
    destruct (decide (length cur + length sp + 1 ≤ length bs)%nat) as [Hfit1|Hno1];
      [|rewrite (bindM_Undef _ _ _ Hcat1); split; [lia|done]].
    mstep Hcat1.
    set (bs1 := take (length cur) bs ++ (Some <$> sp ++ [NUL])
                  ++ drop (length cur + length (sp ++ [NUL])) bs).
    assert (Hcur1 : read_cstr bs1 = Some (cur ++ sp)).
    { apply read_cstr_append; [done|done|]. rewrite length_app. simpl. lia. }
    assert (Hlen1 : length bs1 = length bs).
    { unfold bs1. rewrite <- (length_fmap Some (sp ++ [NUL])).
      apply length_overwrite. rewrite length_fmap, length_app. simpl. lia. }
    mstep (with_buf_load_cell h bs1 _ _ _ Hwf (value_at_load_cell _ _ _ _ _ Hval He)).
    set (bs2 := take (length (cur ++ sp)) bs1 ++ (Some <$> u ++ [NUL])
                  ++ drop (length (cur ++ sp) + length (u ++ [NUL])) bs1).
    assert (Hcat2 : strcat (CPtr (next h) 0) e (with_buf h bs1) =
              if decide (length cur + length sp + length u + 1 ≤ length bs)%nat
              then Ok (CPtr (next h) 0, with_buf h bs2) else Undef).
    { rewrite (strcat_with_buf h bs1 (cur ++ sp) e u Hwf Hcur1 Hcu).
      fold bs2. rewrite Hlen1.
      destruct (decide (length cur + length sp + length u + 1 ≤ length bs)%nat).
      - rewrite decide_True by (rewrite length_app; lia). done.
      - rewrite decide_False by (rewrite length_app; lia). done. }
    destruct (decide (length cur + length sp + length u + 1 ≤ length bs)%nat)
      as [Hfit2|Hno2]; [|rewrite (bindM_Undef _ _ _ Hcat2); split; [lia|done]].
    mstep Hcat2.
    assert (Hcur2 : read_cstr bs2 = Some ((cur ++ sp) ++ u)).
    { apply read_cstr_append; [done|done|]. rewrite !length_app. simpl. lia. }
    assert (Hlen2 : length bs2 = length bs).
    { unfold bs2. rewrite <- (length_fmap Some (u ++ [NUL])), <- Hlen1.
      apply length_overwrite. rewrite length_fmap, !length_app. simpl. lia. }
    replace (Z.of_nat i + 1) with (Z.of_nat (S i)) by lia.
    destruct (IH (S i) bs2 ((cur ++ sp) ++ u) ltac:(lia) Hcur2) as [IHfit IHno].
    rewrite !length_app, Hlen2 in IHfit, IHno.
    split.
    + intros Hfit. destruct IHfit as (bs' & Hrun & Hread & Hlen'); [lia|].
      exists bs'. split; [done|]. split; [|congruence].
      rewrite Hread. by rewrite <- !app_assoc.
    + intros Hno. apply IHno. lia.
Qed.
End tostring.

Lemma wrap32_ge x : 2 ^ 32 ≤ x → wrap32 x ≤ x - 2 ^ 32.
Proof.
  intros Hx. unfold wrap32.
  replace x with ((x - 2 ^ 32) + 1 * 2 ^ 32) at 1 by lia.
  rewrite Z.mod_add by lia. apply Z.mod_le; lia.
Qed.

Lemma wrap32_wrap64_add x y : wrap32 (wrap64 x + y) = wrap32 (x + y).
Proof.
  rewrite <- (wrap32_add_l (wrap64 x)), wrap32_wrap64. apply wrap32_add_l.
Qed.

Lemma xmalloc_with_buf_max h sz :
  0 ≤ sz →
  xmalloc sz h
    = Ok (CPtr (next h) 0, with_buf h (replicate (Z.to_nat (Z.max sz 1)) None)).
Proof.
  intros Hsz. destruct (decide (sz = 0)) as [->|Hne].
  - reflexivity.
  - rewrite Z.max_l by lia. apply xmalloc_eq. lia.
Qed.

Lemma strcpy_with_buf h (n : nat) src t :
  heap_wf h → cstr_at h src = Some t →
  strcpy (CPtr (next h) 0) src (with_buf h (replicate n None)) =
    if decide (length t + 1 ≤ n)%nat then
      Ok (CPtr (next h) 0,
          with_buf h ((Some <$> t ++ [NUL]) ++ replicate (n - (length t + 1)) None))
    else Undef.
Proof.
  intros Hwf Ht. unfold strcpy.
  mstep (load_cstr_eq _ _ _ (with_buf_cstr_old h (replicate n None) src t Hwf Ht)).
  pose proof (store_bytes_with_buf h (replicate n None) 0 (t ++ [NUL])) as Hst.
  destruct (decide (length t + 1 ≤ n)%nat).
  - rewrite decide_True in Hst by (rewrite length_replicate, length_app; simpl; lia).
    mstep Hst. rewrite drop_replicate, length_app. done.
  - rewrite decide_False in Hst by (rewrite length_replicate, length_app; simpl; lia).
    by rewrite (bindM_Undef _ _ _ Hst).
Qed.

Section tostring_main.
Context (h : heap) (a : strarray) (elems : list cptr) (strs : list (list ascii)).
Context (sep : cptr) (sp : list ascii).
Context (Hwf : heap_wf h) (Hstat : statics_at h) (Hval : value_at h a elems).
Context (Hstrs : strings_at h elems strs) (Hsep : cstr_at h sep = Some sp).

Lemma strarray_tostring_spec :
  let j := join_spec sp strs in
  (Z.of_nat (length j) + 1 < 2 ^ 32 →
     ∃ bs, strarray_tostring a sep h = Ok (CPtr (next h) 0, with_buf h bs) ∧
           read_cstr bs = Some j ∧
           Z.of_nat (length bs) = Z.of_nat (length j) + 1) ∧
  (¬ Z.of_nat (length j) + 1 < 2 ^ 32 → strarray_tostring a sep h = Undef).
Proof.
  intros j.
  pose proof (Forall2_length _ _ _ Hstrs) as Hlen.
  assert (Hcnt : Z.of_nat (length elems) = count a)
    by (destruct Hval as (? & ? & ? & ? & ? & ?); done).
  assert (Hcount32 : count a < 2 ^ 32).
  { destruct Hval as (cells & _ & Hl & Hs & Hc & Ht).
    apply (f_equal length) in Ht. rewrite length_take, length_fmap in Ht. lia. }
  unfold strarray_tostring. mstep (strlen_spec _ _ _ Hsep).
  destruct (decide (count a = 0)) as [E0|Hne].
  - assert (elems = []) as -> by (destruct elems; [done|simpl in Hcnt; lia]).
    assert (strs = []) as -> by (destruct strs; [done|simpl in Hlen; lia]).
    unfold j. simpl. split; [|intros Hno; exfalso; apply Hno; lia].
    intros _. exists [Some NUL]. split; [|done].
    destruct Hstat as (_ & Hlit & _).
    by rewrite (xstrdup_spec h lit_empty [] Hwf Hlit) by (simpl; lia).
  - destruct elems as [|e0 es]; [simpl in Hcnt; lia|].
    destruct strs as [|t0 ts]; [simpl in Hlen; lia|].
    assert (He0 : cstr_at h e0 = Some t0) by (by inversion Hstrs).
    assert (Hc1 : 1 ≤ count a) by (rewrite <- Hcnt; simpl length; lia).
    pose proof (cstr_at_nul_free _ _ _ He0) as Ht0n.
    set (len0 := wrap32 (wrap64 (1 + wrap64 (wrap32 (count a - 1)
                                              * Z.of_nat (length sp))))).
    pose proof (strarray_tostring_len_spec h a (e0 :: es) (t0 :: ts) Hval Hstrs
                  (Z.to_nat (count a)) 0 len0 ltac:(lia)
                  (wrap32_range _)) as Hl.
    rewrite drop_0 in Hl. change (Z.of_nat 0) with 0 in Hl.
    set (len := wrap32 (len0 + Z.of_nat (total_length (t0 :: ts)))) in *.
    mstep Hl.
    assert (Hlen_eq : len = wrap32 (Z.of_nat (length j) + 1)).
    { unfold len, len0, j. rewrite length_join_spec by done.
      rewrite wrap32_wrap64, wrap32_add_l.
      rewrite (Z.add_comm 1), <- Z.add_assoc, wrap32_wrap64_add.
      f_equal. rewrite wrap32_small by lia. rewrite <- Hcnt, Hlen. lia. }
    assert (Hj : j = t0 ++ concat ((λ u, sp ++ u) <$> ts))
      by apply join_spec_cons.
    pose proof (wrap32_range (Z.of_nat (length j) + 1)) as Hrange.
    rewrite (bindM_Ok _ _ _ _ _ (xmalloc_with_buf_max h len ltac:(lia))).
    set (cap := Z.to_nat (Z.max len 1)).
    mstep (with_buf_load_cell h (replicate cap None) _ _ _ Hwf
             (value_at_load_cell _ _ (e0 :: es) 0 e0 Hval eq_refl)).
    pose proof (strcpy_with_buf h cap e0 t0 Hwf He0) as Hcpy.
    assert (Hcap : ¬ Z.of_nat (length j) + 1 < 2 ^ 32 →
                   (cap < length j + 1)%nat).
    { intros Hno. unfold cap.
      assert (len ≤ Z.of_nat (length j) + 1 - 2 ^ 32)
        by (rewrite Hlen_eq; apply wrap32_ge; lia).
      lia. }
    assert (Hjlen : length j = (length t0
               + length (concat ((λ u, sp ++ u) <$> ts)))%nat)
      by (by rewrite Hj, length_app).
    destruct (decide (length t0 + 1 ≤ cap)%nat) as [Hfit0|Hno0]; cycle 1.
    { rewrite (bindM_Undef _ _ _ Hcpy).
      split; [|done]. intros Hfit. exfalso. apply Hno0. unfold cap.
      rewrite Hlen_eq, wrap32_small by lia. lia. }
    mstep Hcpy.
    set (bs1 := (Some <$> t0 ++ [NUL]) ++ replicate (cap - (length t0 + 1)) None).
    assert (Hread1 : read_cstr bs1 = Some t0).
    { unfold bs1. rewrite fmap_app, <- app_assoc. by apply read_cstr_app. }
    assert (Hlen1 : length bs1 = cap).
    { unfold bs1. rewrite length_app, length_fmap, length_app, length_replicate.
      simpl. lia. }
    destruct (strarray_tostring_cat_spec h a (e0 :: es) (t0 :: ts) sep sp Hwf Hval
                Hstrs Hsep (Z.to_nat (count a - 1)) 1 bs1 t0) as [Hfit Hno];
      [simpl in *; lia|done|].
    cbv zeta in Hfit, Hno. simpl drop in Hfit, Hno.
    rewrite Hlen1, drop_0 in Hfit, Hno. rewrite <- Hjlen in Hfit, Hno.
    change (Z.of_nat 1) with 1 in Hfit, Hno.
    split.
    + intros Hsmall.
      assert (cap = (length j + 1)%nat) as Hcap_eq.
      { unfold cap. rewrite Hlen_eq, wrap32_small by lia. lia. }
      destruct Hfit as (bs' & Hrun & Hread & Hlen'); [lia|].
      mstep Hrun.
      exists bs'. split; [done|]. split; [by rewrite Hread, Hj|lia].
    + intros Hbig.
      rewrite (bindM_Undef _ _ _ (Hno ltac:(pose proof (Hcap Hbig); lia))). done.
Qed.
End tostring_main.

Lemma join_spec_suffix sp strs t :
  last strs = Some t → t `suffix_of` join_spec sp strs.
Proof.
  induction strs as [|u [|v ts] IH]; intros Hlast; [done|..].
  - simpl in *. by inversion Hlast.
  - change (join_spec sp (u :: v :: ts)) with (u ++ sp ++ join_spec sp (v :: ts)).
    rewrite app_assoc. apply suffix_app_r. by apply IH.
Qed.

(** Within the range of [unsigned int], [strarray_tostring] returns a
    newly allocated string: the empty string for an array without
    elements; otherwise the first element,
    then the separator and the next element for each further element,
    so that the separator is put in [count - 1] times, the result starts
    with the first element and ends with the last.  The buffer has
    exactly the size of the string and its terminator.  The call runs to
    completion whenever that size fits the [unsigned int] in which it is
    computed. *)
Theorem strarray_tostring_joins h a elems strs sep sp :
  heap_wf h → statics_at h → value_at h a elems →
  strings_at h elems strs → cstr_at h sep = Some sp →
  (∀ s h', strarray_tostring a sep h = Ok (s, h') →
     s ≠ NULL ∧ objs h !! cblk s = None ∧
     cstr_at h' s = Some (join_spec sp strs) ∧
     (∃ bs, objs h' !! cblk s = Some (OChars bs) ∧
            length bs = S (length (join_spec sp strs))) ∧
     chars_preserved h h') ∧
  (Z.of_nat (length (join_spec sp strs)) + 1 < 2 ^ 32 →
     ∃ s h', strarray_tostring a sep h = Ok (s, h')) ∧
  (count a = 0 → join_spec sp strs = []) ∧
  (1 ≤ count a →
     Z.of_nat (length (join_spec sp strs))
       = Z.of_nat (total_length strs) + (count a - 1) * Z.of_nat (length sp) ∧
     ∃ first final, strs !! 0%nat = Some first ∧ last strs = Some final ∧
       first `prefix_of` join_spec sp strs ∧
       final `suffix_of` join_spec sp strs).
Proof.
  intros Hwf Hstat Hval Hstrs Hsep.
  destruct (strarray_tostring_spec h a elems strs sep sp Hwf Hstat Hval Hstrs Hsep)
    as [Hfit Hno].
  pose proof (Forall2_length _ _ _ Hstrs) as Hlen.
  assert (Hcnt : Z.of_nat (length strs) = count a)
    by (destruct Hval as (? & ? & ? & ? & ? & ?); lia).
  split; [|split; [|split]].
  - intros s h' Hrun.
    destruct (decide (Z.of_nat (length (join_spec sp strs)) + 1 < 2 ^ 32))
      as [Hsmall|Hbig]; [|by rewrite (Hno Hbig) in Hrun].
    destruct (Hfit Hsmall) as (bs & Hrun' & Hread & Hbslen).
    rewrite Hrun in Hrun'. inversion Hrun'; subst s h'. simpl.
    split; [intros [=]; destruct Hwf; lia|].
    split; [by apply heap_wf_fresh|]. split; [by rewrite cstr_at_with_buf|].
    split; [|by apply with_buf_chars].
    exists bs. rewrite lookup_insert_eq. split; [done|lia].
  - intros Hsmall. destruct (Hfit Hsmall) as (bs & Hrun & _). eauto.
  - intros E0. destruct strs; [done|simpl in Hcnt; lia].
  - intros Hpos. destruct strs as [|t ts]; [simpl in Hcnt; lia|].
    split; [rewrite length_join_spec by done; lia|].
    destruct (last (t :: ts)) as [final|] eqn:Hlast;
      [|by apply last_None in Hlast].
    exists t, final. split; [done|]. split; [done|]. split.
    + rewrite join_spec_cons. by apply prefix_app_r.
    + by apply join_spec_suffix.
Qed.

Lemma statics_at_example_abc : statics_at example_heap_abc.
Proof. repeat split; reflexivity. Qed.

Lemma strarray_tostring_joins_witness :
  ∃ s h', strarray_tostring (StrArray 3 16 9) (CPtr 10 0) example_heap_abc = Ok (s, h') ∧
          cstr_at h' s = Some (list_ascii_of_string "a,b,c").
Proof.
  destruct (strarray_tostring_joins example_heap_abc (StrArray 3 16 9)
              [CPtr 6 0; CPtr 7 0; CPtr 8 0]
              [["a"%char]; ["b"%char]; ["c"%char]] (CPtr 10 0) [","%char]
              heap_wf_example_abc statics_at_example_abc
              (proj2 array_at_example_abc) strings_at_example_abc eq_refl)
    as (Hpost & Htotal & _).
  destruct Htotal as (s & h' & Hrun); [vm_compute; reflexivity|].
  exists s, h'. split; [done|]. by apply Hpost.
Defined.

(** ** Tokens *)

Lemma strspn_list_spec s d :
  Forall (λ c, c ∈ d) (take (strspn_list s d) s) ∧
  match drop (strspn_list s d) s with
  | [] => True
  | c :: _ => c ∉ d
  end.
Proof.
  induction s as [|c s IH]; simpl; [by split|].
  case_decide; simpl; [|by split].
  destruct IH as [IH1 IH2]. split; [by constructor|done].
Qed.

Lemma strcspn_list_spec s d :
  Forall (λ c, c ∉ d) (take (strcspn_list s d) s) ∧
  match drop (strcspn_list s d) s with
  | [] => True
  | c :: _ => c ∈ d
  end.
Proof.
  induction s as [|c s IH]; simpl; [by split|].
  case_decide; simpl; [by split|].
  destruct IH as [IH1 IH2]. split; [by constructor|done].
Qed.

Lemma strspn_list_le s d : (strspn_list s d ≤ length s)%nat.
Proof. induction s; simpl; [lia|]. case_decide; simpl; lia. Qed.

Lemma strcspn_list_le s d : (strcspn_list s d ≤ length s)%nat.
Proof. induction s; simpl; [lia|]. case_decide; simpl; lia. Qed.

Lemma split_aux_skip d s :
  split_aux d s [] = split_aux d (drop (strspn_list s d) s) [].
Proof.
  induction s as [|c s IH]; simpl; [done|].
  case_decide; simpl; [done|]. by rewrite decide_False.
Qed.

Lemma split_aux_token d s : ∀ cur,
  split_aux d s cur
    = split_aux d (drop (strcspn_list s d) s) (cur ++ take (strcspn_list s d) s).
Proof.
  induction s as [|c s IH]; intros cur; simpl.
  - by rewrite app_nil_r.
  - case_decide; simpl.
    + rewrite app_nil_r. by rewrite decide_True.
    + rewrite IH. by rewrite <- app_assoc.
Qed.

(** [split_spec] token by token, as [strtok] goes through the text. *)
Lemma split_spec_next d txt :
  split_spec d txt =
    match next_token d txt with
    | None => []
    | Some (t, rem) => t :: split_spec d rem
    end.
Proof.
  unfold split_spec, next_token. rewrite split_aux_skip.
  pose proof (strspn_list_spec txt d) as [_ Hhead].
  destruct (drop (strspn_list txt d) txt) as [|c rest] eqn:Hrest; [done|].
  rewrite split_aux_token. rewrite app_nil_l.
  pose proof (strcspn_list_spec (c :: rest) d) as [_ Hend].
  assert (Hpos : strcspn_list (c :: rest) d = S (strcspn_list rest d))
    by (simpl; by rewrite decide_False).
  rewrite Hpos in *. simpl in *.
  destruct (drop (strcspn_list rest d) rest) as [|c' rem] eqn:Hrem.
  - simpl. rewrite drop_ge; [done|].
    apply (f_equal length) in Hrem. rewrite length_drop in Hrem. simpl in Hrem. lia.
  - simpl. rewrite decide_True by done. f_equal.
    replace (S (strcspn_list rest d)) with (strcspn_list rest d + 1)%nat by lia.
    by rewrite <- drop_drop, Hrem.
Qed.

Lemma next_token_shorter d txt t rem :
  next_token d txt = Some (t, rem) →
  t ≠ [] ∧ Forall (λ c, c ∉ d) t ∧ (length t + length rem ≤ length txt)%nat ∧
  (length rem < length txt)%nat.
Proof.
  unfold next_token. intros H.
  pose proof (strspn_list_spec txt d) as [_ Hhead].
  pose proof (strspn_list_le txt d) as Hle.
  destruct (drop (strspn_list txt d) txt) as [|c rest] eqn:Hrest; [done|].
  injection H as <- <-.
  pose proof (strcspn_list_spec (c :: rest) d) as [Htok _].
  assert (Hpos : strcspn_list (c :: rest) d = S (strcspn_list rest d))
    by (simpl; by rewrite decide_False).
  pose proof (strcspn_list_le rest d).
  apply (f_equal length) in Hrest. rewrite length_drop in Hrest. simpl in Hrest.
  clear Hpos. simpl in *. rewrite decide_False in Htok by done.
  rewrite !decide_False by done. simpl.
  split; [done|]. split; [done|].
  rewrite length_take, length_drop. lia.
Qed.

Lemma split_aux_tokens d s : ∀ cur,
  Forall (λ c, c ∉ d) cur →
  Forall (λ t, t ≠ [] ∧ Forall (λ c, c ∉ d) t) (split_aux d s cur).
Proof.
  induction s as [|c s IH]; intros cur Hcur; simpl.
  - destruct cur; [constructor|]. constructor; [done|constructor].
  - case_decide.
    + destruct cur; [by apply IH|]. constructor; [done|by apply IH].
    + apply IH. apply Forall_app. split; [done|by repeat constructor].
Qed.

Lemma split_spec_tokens d s :
  Forall (λ t, t ≠ [] ∧ Forall (λ c, c ∉ d) t) (split_spec d s).
Proof. by apply split_aux_tokens. Qed.

Lemma split_spec_delims d s : Forall (λ c, c ∈ d) s → split_spec d s = [].
Proof.
  unfold split_spec. induction 1 as [|c s Hc _ IH]; simpl; [done|].
  by rewrite decide_True.
Qed.

(** The characters of the tokens are those of the text that are not
    delimiters, in the same order. *)
Lemma split_aux_concat d s : ∀ cur,
  concat (split_aux d s cur) = cur ++ filter (λ c, c ∉ d) s.
Proof.
  induction s as [|c s IH]; intros cur; simpl.
  - destruct cur; simpl; by rewrite ?app_nil_r.
  - case_decide.
    + rewrite filter_cons_False by (intros Hn; by apply Hn).
      destruct cur; simpl; rewrite IH; done.
    + rewrite filter_cons_True by done. rewrite IH. by rewrite <- app_assoc.
Qed.

(** ** [strtok] on a buffer *)

Lemma read_cstr_some_lt bs (o : nat) txt :
  read_cstr (drop o bs) = Some txt → (o + length txt < length bs)%nat.
Proof.
  intros H. apply read_cstr_inv in H as [post H].
  apply (f_equal length) in H.
  rewrite length_drop, length_app, length_fmap in H. simpl in H. lia.
Qed.

Lemma read_cstr_drop bs (o k : nat) txt :
  read_cstr (drop o bs) = Some txt → (k ≤ length txt)%nat →
  read_cstr (drop (o + k) bs) = Some (drop k txt).
Proof.
  intros H Hk. pose proof (read_cstr_nul_free _ _ H) as Hnul.
  apply read_cstr_inv in H as [post H].
  rewrite <- drop_drop, H, drop_app_le by (rewrite length_fmap; lia).
  rewrite <- fmap_drop. apply read_cstr_app.
  intros Hin. apply Hnul. by eapply subseteq_drop.
Qed.

Lemma read_cstr_cut bs (o k : nat) txt :
  read_cstr (drop o bs) = Some txt → (k < length txt)%nat →
  let bs' := take (o + k) bs ++ (Some <$> [NUL]) ++ drop (o + k + length [NUL]) bs in
  length bs' = length bs ∧
  read_cstr (drop o bs') = Some (take k txt) ∧
  read_cstr (drop (o + k + 1) bs') = Some (drop (S k) txt).
Proof.
  intros H Hk bs'.
  pose proof (read_cstr_nul_free _ _ H) as Hnul.
  pose proof (read_cstr_some_lt _ _ _ H) as Hlt.
  assert (Hlen : length bs' = length bs).
  { unfold bs'. rewrite !length_app, length_take, length_drop. simpl. lia. }
  split; [done|].
  pose proof (read_cstr_drop _ _ (S k) _ H ltac:(lia)) as Hrem.
  apply read_cstr_inv in H as [post H].
  assert (Hbs : bs = take o bs ++ (Some <$> txt) ++ Some NUL :: post)
    by (by rewrite <- H, take_drop).
  assert (Hpre : length (take o bs) = o) by (rewrite length_take; lia).
  assert (Htake : take (o + k) bs = take o bs ++ (Some <$> take k txt)).
  { rewrite Hbs at 1. rewrite <- Hpre at 1.
    rewrite take_app_add', take_app_le by (rewrite ?length_fmap; lia || done).
    by rewrite fmap_take. }
  split.
  - unfold bs'. rewrite Htake. rewrite <- Hpre at 1.
    rewrite <- app_assoc, drop_app_length. simpl.
    apply read_cstr_app. intros Hin. apply Hnul. by eapply subseteq_take.
  - unfold bs'.
    replace (o + k + 1)%nat with (length (take (o + k) bs ++ (Some <$> [NUL]))).
    2: { rewrite length_app, length_take. simpl. lia. }
    rewrite app_assoc, drop_app_length.
    simpl length. replace (o + k + 1)%nat with (o + S k)%nat by lia. done.
Qed.

Lemma cstr_at_buf h B (o : nat) bs :
  objs h !! B = Some (OChars bs) →
  cstr_at h (CPtr B (Z.of_nat o)) = read_cstr (drop o bs).
Proof.
  intros Hb. unfold cstr_at. simpl. rewrite Hb.
  rewrite decide_True by lia. by rewrite Nat2Z.id.
Qed.

(** One call of [strtok] on the text at offset [o] of the buffer [B]:
    with no token left it returns a null pointer; otherwise it ends the
    token with a terminator written over the delimiter after it, returns
    its start and remembers where the text after it starts. *)
Lemma strtok_spec h sarg delim d B (o : nat) bs txt :
  (if decide (sarg = NULL) then strtok_save h else sarg) = CPtr B (Z.of_nat o) →
  cstr_at h delim = Some d →
  objs h !! B = Some (OChars bs) →
  read_cstr (drop o bs) = Some txt →
  match next_token d txt with
  | None => ∃ sv, strtok sarg delim h = Ok (NULL, set_save h sv)
  | Some (t, rem) =>
      ∃ bs' (ot os : nat),
        strtok sarg delim h
          = Ok (CPtr B (Z.of_nat ot),
                set_save (set_objs h (<[B := OChars bs']> (objs h)))
                         (CPtr B (Z.of_nat os))) ∧
        length bs' = length bs ∧
        read_cstr (drop ot bs') = Some t ∧
        read_cstr (drop os bs') = Some rem
  end.
Proof.
  intros Hs Hd Hb Htxt.
  assert (Hrun : strtok sarg delim h =
    match txt with
    | [] => (set_strtok_save (CPtr B (Z.of_nat o)) ;;; retM NULL) h
    | _ =>
      let skip := strspn_list txt d in
      let s := cptr_add (CPtr B (Z.of_nat o)) skip in
      let rest := drop skip txt in
      match rest with
      | [] => (set_strtok_save s ;;; retM NULL) h
      | _ =>
          let tl := strcspn_list rest d in
          let e := cptr_add s tl in
          if decide (tl = length rest) then (set_strtok_save e ;;; retM s) h
          else (store_bytes e [NUL] ;;; set_strtok_save (cptr_add e 1) ;;; retM s) h
      end
    end).
  { unfold strtok. unfold bindM at 1. unfold get_heap. rewrite Hs.
    rewrite (bindM_Ok _ _ _ _ _ (load_cstr_eq _ _ _ Hd)).
    rewrite (bindM_Ok _ _ _ _ _
               (load_cstr_eq h (CPtr B (Z.of_nat o)) txt
                  ltac:(by rewrite (cstr_at_buf _ _ _ _ Hb)))).
    destruct txt; [done|]. cbv zeta.
    destruct (drop (strspn_list _ d) _); [done|].
    by destruct (decide (_ = length _)). }
  rewrite Hrun. clear Hrun. unfold next_token.
  destruct txt as [|c0 txt0]; [simpl; by eexists|].
  set (txt := c0 :: txt0) in *. cbv zeta.
  pose proof (strspn_list_le txt d) as Hskip.
  set (skip := strspn_list txt d) in *.
  pose proof (read_cstr_drop _ _ skip _ Htxt Hskip) as Hrest.
  destruct (drop skip txt) as [|c rest0] eqn:Erest; [by eexists|].
  set (rest := c :: rest0) in *.
  pose proof (strcspn_list_le rest d) as Htl.
  set (tl := strcspn_list rest d) in *.
  assert (He : cptr_add (cptr_add (CPtr B (Z.of_nat o)) skip) tl
               = CPtr B (Z.of_nat (o + skip + tl))).
  { unfold cptr_add. simpl. f_equal. lia. }
  assert (Hs1 : cptr_add (CPtr B (Z.of_nat o)) skip = CPtr B (Z.of_nat (o + skip))).
  { unfold cptr_add. simpl. f_equal. lia. }
  rewrite He, Hs1.
  destruct (decide (tl = length rest)) as [Hend|Hmid].
  - exists bs, (o + skip)%nat, (o + skip + tl)%nat.
    split; [|split; [done|split]].
    + unfold bindM, set_strtok_save, retM, set_save, set_objs. simpl.
      by rewrite insert_id.
    + rewrite Hrest. by rewrite Hend, take_ge.
    + rewrite (read_cstr_drop _ _ tl _ Hrest Htl).
      by rewrite Hend, !drop_ge by lia.
  - assert (Hlt : (tl < length rest)%nat) by lia.
    destruct (read_cstr_cut _ _ _ _ Hrest Hlt) as (Hlen & Htok & Hrem).
    pose proof (read_cstr_some_lt _ _ _ Hrest) as Hfit.
    eexists _, (o + skip)%nat, (o + skip + tl + 1)%nat.
    split; [|split; [exact Hlen|split; [exact Htok|exact Hrem]]].
    rewrite (bindM_Ok _ _ _ _ _
               (store_bytes_eq h (CPtr B (Z.of_nat (o + skip + tl))) bs [NUL] Hb
                  ltac:(simpl; lia) ltac:(simpl; lia))).
    unfold bindM, set_strtok_save, retM, cptr_add. simpl.
    rewrite Nat2Z.id.
    by replace (Z.of_nat (o + skip + tl) + Z.of_nat 1)
      with (Z.of_nat (o + skip + tl + 1)) by lia.
Qed.

(** ** [strarray_fromstring] *)

Lemma cstr_at_frame h h' p :
  objs h' !! cblk p = objs h !! cblk p → cstr_at h' p = cstr_at h p.
Proof. intros H. unfold cstr_at. by rewrite H. Qed.

Lemma strings_at_frame h h' elems strs :
  Forall (λ e, objs h' !! cblk e = objs h !! cblk e) elems →
  strings_at h elems strs → strings_at h' elems strs.
Proof.
  intros Hsame Hstrs. revert Hsame.
  induction Hstrs as [|e t elems strs He _ IH]; intros Hsame; [constructor|].
  apply Forall_cons in Hsame as [Hsame1 Hsame2].
  constructor; [by rewrite (cstr_at_frame _ _ _ Hsame1)|by apply IH].
Qed.

Lemma value_at_frame h h' a elems :
  (str a ≠ 0 → objs h' !! str a = objs h !! str a) →
  value_at h a elems → value_at h' a elems.
Proof.
  intros H (cells & Hc & Hrest). exists cells. split; [|done].
  unfold cells_of in *. destruct (decide (str a = 0)); [done|]. by rewrite H.
Qed.

Lemma value_at_not_chars h a elems B bs :
  heap_wf h → value_at h a elems → objs h !! B = Some (OChars bs) → str a ≠ B.
Proof.
  intros Hwf (cells & Hc & _) HB E. unfold cells_of in Hc. rewrite E in Hc.
  destruct (decide (B = 0)) as [->|]; [by rewrite (heap_wf_null _ Hwf) in HB|].
  by rewrite HB in Hc.
Qed.

Lemma array_at_with_buf h bs p a elems :
  heap_wf h → array_at h p a elems → array_at (with_buf h bs) p a elems.
Proof.
  intros Hwf [Hp Hv]. pose proof (heap_wf_fresh _ Hwf) as Hfresh.
  split.
  - by apply with_buf_lookup_old.
  - eapply value_at_frame; [|done]. intros _. simpl.
    destruct Hv as (cells & Hc & _). unfold cells_of in Hc.
    destruct (decide (str a = next h)) as [E|]; [|by rewrite lookup_insert_ne].
    destruct (decide (str a = 0)) as [E0|]; [destruct Hwf; lia|].
    by rewrite E, Hfresh in Hc.
Qed.

(** [xstrdup] needs the size of the copy to fit [size_t]. *)
Lemma xstrdup_iff h s t :
  heap_wf h → cstr_at h s = Some t →
  xstrdup s h =
    if decide (Z.of_nat (length t) + 1 < 2 ^ 64) then
      Ok (CPtr (next h) 0, with_buf h (Some <$> t ++ [NUL]))
    else Undef.
Proof.
  intros Hwf Hs. case_decide as Hfit; [by apply xstrdup_spec|].
  unfold xstrdup. rewrite (bindM_Ok _ _ _ _ _ (strlen_spec _ _ _ Hs)).
  pose proof (wrap64_range (Z.of_nat (length t) + 1)) as Hr.
  rewrite (bindM_Ok _ _ _ _ _ (xmalloc_with_buf_max h _ (proj1 Hr))).
  rewrite (strcpy_with_buf h _ s t Hwf Hs).
  rewrite decide_False; [done|]. lia.
Qed.

Lemma strarray_fromstring_loop_null fuel array delim h :
  strarray_fromstring_loop fuel array NULL delim h = Ok (tt, h).
Proof. by destruct fuel. Qed.

(** The loop of [strarray_fromstring], entered with the token [t] at
    offset [ot] of the buffer [B] and the text [rem] after it: it adds a
    copy of [t] and of every token of [rem] to the array. *)
Lemma strarray_fromstring_loop_spec d delim A B :
  ∀ fuel h a elems toks bs (ot os : nat) t rem,
  heap_wf h → array_at h A a elems → strings_at h elems toks →
  Forall (λ e, cblk e ≠ B) elems →
  cblk delim ≠ B → cstr_at h delim = Some d →
  objs h !! B = Some (OChars bs) → Z.of_nat (length bs) < 2 ^ 64 →
  read_cstr (drop ot bs) = Some t →
  strtok_save h = CPtr B (Z.of_nat os) →
  read_cstr (drop os bs) = Some rem →
  (length rem < fuel)%nat →
  (∀ h', strarray_fromstring_loop fuel A (CPtr B (Z.of_nat ot)) delim h = Ok (tt, h') →
     ∃ a' elems' bs',
       heap_wf h' ∧ array_at h' A a' (elems ++ elems') ∧
       strings_at h' (elems ++ elems') (toks ++ t :: split_spec d rem) ∧
       Forall (λ e, next h ≤ cblk e) elems' ∧
       objs h' !! B = Some (OChars bs') ∧
       (∀ b o, objs h !! b = Some o → b ≠ A → b ≠ B → b ≠ str a →
               objs h' !! b = Some o)) ∧
  (count a + 1 + Z.of_nat (length (split_spec d rem)) ≤ 2 ^ 31 →
     ∃ h', strarray_fromstring_loop fuel A (CPtr B (Z.of_nat ot)) delim h = Ok (tt, h')).
Proof.
  induction fuel as [|fuel IH];
    intros h a elems toks bs ot os t rem Hwf Harr Hstrs HnB HdB Hd HB Hbs Ht Hsave Hrem Hfuel;
    [lia|].
  assert (HB0 : 0 < B < next h) by (destruct Hwf as [_ Hwf]; by eapply Hwf).
  assert (HAB : A ≠ B) by (intros ->; destruct Harr as [HA _]; by rewrite HB in HA).
  assert (Htok : CPtr B (Z.of_nat ot) ≠ NULL) by (intros [=]; lia).
  assert (Hcstr : cstr_at h (CPtr B (Z.of_nat ot)) = Some t)
    by (by rewrite (cstr_at_buf _ _ _ _ HB)).
  pose proof (read_cstr_some_lt _ _ _ Ht) as Htlen.
  pose proof (read_cstr_nul_free _ _ Ht) as Htnul.
  pose proof (xstrdup_spec h _ t Hwf Hcstr ltac:(lia)) as Hx.
  set (N := CPtr (next h) 0) in *.
  set (h1 := with_buf h (Some <$> t ++ [NUL])) in *.
  pose proof (heap_wf_with_buf h (Some <$> t ++ [NUL]) Hwf) as Hwf1.
  pose proof (array_at_with_buf h (Some <$> t ++ [NUL]) _ _ _ Hwf Harr) as Harr1.
  pose proof (with_buf_chars h (Some <$> t ++ [NUL]) Hwf) as Hch1.
  fold h1 in Hwf1, Harr1, Hch1.
  assert (HcN : cstr_at h1 N = Some t).
  { unfold h1, N. rewrite cstr_at_with_buf, fmap_app. by apply read_cstr_app. }
  assert (Heq1 : strarray_fromstring_loop (S fuel) A (CPtr B (Z.of_nat ot)) delim h
                 = (strarray_add A N ;;; tok' <- strtok NULL delim ;;
                    strarray_fromstring_loop fuel A tok' delim) h1).
  { simpl. rewrite decide_False by done. by rewrite (bindM_Ok _ _ _ _ _ Hx). }
  destruct (decide (count a < size a ∨ size a < 2 ^ 31)) as [Hroom|Hfull].
  2: { split.
       - intros h' Hrun. rewrite Heq1 in Hrun.
         apply bindM_inv in Hrun as ([] & h2 & Hadd & _).
         destruct Hfull. by eapply strarray_add_inv.
       - intros Hb. pose proof (array_at_count_le _ _ _ _ Harr). lia. }
  destruct (strarray_add_spec h1 A a elems N Hwf1 Harr1 Hroom)
    as (h2 & a2 & Hadd & Hwf2 & Harr2 & Hcnt2 & Hsz2 & Hstr2 & Hsave2 & Hframe2 & _ & _).
  pose proof (strarray_add_chars _ _ _ _ _ _ Hwf1 Harr1 Hadd) as Hch2.
  pose proof (chars_preserved_trans _ _ _ Hch1 Hch2) as Hch.
  assert (Hnext2 : next h < next h2 ∧ (str a2 = str a ∨ str a2 = next h1)).
  { destruct (decide (count a = size a)); destruct Hstr2 as [-> ->]; simpl; lia. }
  assert (HB2 : objs h2 !! B = Some (OChars bs)) by (by apply Hch).
  assert (Hd2 : cstr_at h2 delim = Some d) by (by eapply cstr_at_preserved).
  assert (Hstrs2 : strings_at h2 (elems ++ [N]) (toks ++ [t])).
  { apply Forall2_app; [by eapply strings_at_preserved|].
    constructor; [exact (cstr_at_preserved _ _ _ _ Hch2 HcN)|constructor]. }
  assert (Hframe : ∀ b o, objs h !! b = Some o → b ≠ A → b ≠ B → b ≠ str a →
                          objs h2 !! b = Some o ∧ b ≠ str a2).
  { intros b o Hb HbA HbB Hba.
    assert (b < next h) by (destruct Hwf as [_ Hwf]; by eapply Hwf).
    assert (b ≠ str a2) by (destruct Hnext2 as [_ [->| ->]]; simpl; [done|lia]).
    split; [|done]. rewrite Hframe2 by done. by apply with_buf_lookup_old. }
  assert (Heq2 : strarray_fromstring_loop (S fuel) A (CPtr B (Z.of_nat ot)) delim h
                 = (tok' <- strtok NULL delim ;;
                    strarray_fromstring_loop fuel A tok' delim) h2).
  { rewrite Heq1. by rewrite (bindM_Ok _ _ _ _ _ Hadd). }
  pose proof (strtok_spec h2 NULL delim d B os bs rem
                ltac:(rewrite decide_True by done; by rewrite Hsave2) Hd2 HB2 Hrem) as Hst.
  rewrite (split_spec_next d rem).
  destruct (next_token d rem) as [[t' rem']|] eqn:Hnt.
  - destruct Hst as (bs' & ot' & os' & Hst & Hlen' & Ht' & Hrem').
    set (h3 := set_save (set_objs h2 (<[B:=OChars bs']> (objs h2)))
                        (CPtr B (Z.of_nat os'))) in *.
    assert (Heq3 : strarray_fromstring_loop (S fuel) A (CPtr B (Z.of_nat ot)) delim h
                   = strarray_fromstring_loop fuel A (CPtr B (Z.of_nat ot')) delim h3).
    { rewrite Heq2. by rewrite (bindM_Ok _ _ _ _ _ Hst). }
    assert (Hother : ∀ b, b ≠ B → objs h3 !! b = objs h2 !! b)
      by (intros b Hb; simpl; by rewrite lookup_insert_ne).
    assert (Hwf3 : heap_wf h3)
      by (apply heap_wf_set_save, heap_wf_update; [by rewrite HB2|done]).
    assert (Harr3 : array_at h3 A a2 (elems ++ [N])).
    { destruct Harr2 as [HA2 Hv2]. split; [by rewrite Hother|].
      eapply value_at_frame; [|done]. intros _. apply Hother.
      exact (value_at_not_chars h2 a2 _ B bs Hwf2 Hv2 HB2). }
    assert (HnB3 : Forall (λ e, cblk e ≠ B) (elems ++ [N])).
    { apply Forall_app. split; [done|]. constructor; [simpl; lia|constructor]. }
    assert (Hstrs3 : strings_at h3 (elems ++ [N]) (toks ++ [t])).
    { eapply strings_at_frame; [|exact Hstrs2].
      eapply Forall_impl; [exact HnB3|]. intros e He. by apply Hother. }
    assert (Hd3 : cstr_at h3 delim = Some d)
      by (by rewrite (cstr_at_frame h2 h3 delim (Hother _ HdB))).
    assert (HB3 : objs h3 !! B = Some (OChars bs')) by (simpl; by rewrite lookup_insert_eq).
    pose proof (next_token_shorter _ _ _ _ Hnt) as (_ & _ & _ & Hshort).
    destruct (IH h3 a2 (elems ++ [N]) (toks ++ [t]) bs' ot' os' t' rem'
                Hwf3 Harr3 Hstrs3 HnB3 HdB Hd3 HB3 ltac:(lia) Ht' eq_refl Hrem' ltac:(lia))
      as [IHp IHt].
    split.
    + intros h' Hrun. rewrite Heq3 in Hrun.
      destruct (IHp h' Hrun)
        as (a' & elems' & bsf & Hwf' & Harr' & Hstrs' & Hfresh' & HB' & Hframe').
      exists a', (N :: elems'), bsf.
      rewrite <- (app_assoc elems) in Harr', Hstrs'.
      rewrite <- (app_assoc toks) in Hstrs'. simpl in Harr', Hstrs'.
      split; [done|]. split; [done|]. split; [done|].
      split; [|split; [done|]].
      * constructor; [simpl; lia|].
        eapply Forall_impl; [exact Hfresh'|]. intros e He. simpl in He. lia.
      * intros b o Hb HbA HbB Hba.
        destruct (Hframe b o Hb HbA HbB Hba) as [Hb2 Hba2].
        apply Hframe'; [|done..]. by rewrite Hother.
    + intros Hb. rewrite Heq3. apply IHt. simpl in Hb. lia.
  - destruct Hst as [sv Hst].
    assert (Heq3 : strarray_fromstring_loop (S fuel) A (CPtr B (Z.of_nat ot)) delim h
                   = Ok (tt, set_save h2 sv)).
    { rewrite Heq2. rewrite (bindM_Ok _ _ _ _ _ Hst).
      apply strarray_fromstring_loop_null. }
    split; [|by eauto].
    intros h' Hrun. rewrite Heq3 in Hrun. injection Hrun as <-.
    exists a2, [N], bs.
    split; [by apply heap_wf_set_save|]. split; [exact Harr2|].
    split; [exact Hstrs2|]. split; [constructor; [simpl; lia|constructor]|].
    split; [exact HB2|].
    intros b o Hb HbA HbB Hba. by destruct (Hframe b o Hb HbA HbB Hba).
Qed.

Lemma strings_at_not_struct h elems strs A a :
  strings_at h elems strs → objs h !! A = Some (OStruct a) →
  Forall (λ e, cblk e ≠ A) elems.
Proof.
  intros Hstrs HA. induction Hstrs as [|e t elems strs He _ IH]; constructor; [|done].
  intros E. unfold cstr_at in He. by rewrite E, HA in He.
Qed.

Lemma Forall_and_2 {X} (P Q : X → Prop) l :
  Forall P l → Forall Q l → Forall (λ x, P x ∧ Q x) l.
Proof. intros HP HQ. apply Forall_and. by split. Qed.

(** The end of [strarray_fromstring]: the buffer is released and the
    local array returned by value. *)
Lemma strarray_fromstring_exit h A B a elems strs bs :
  heap_wf h → array_at h A a elems → strings_at h elems strs →
  Forall (λ e, cblk e ≠ B) elems →
  objs h !! B = Some (OChars bs) →
  ∃ h', (free_chars (CPtr B 0) ;;; r <- load_struct A ;; free_struct A ;;; retM r) h
          = Ok (a, h') ∧
        heap_wf h' ∧ value_at h' a elems ∧ strings_at h' elems strs ∧
        (∀ b, b ≠ A → b ≠ B → objs h' !! b = objs h !! b).
Proof.
  intros Hwf Harr Hstrs HnB HB.
  assert (HB0 : 0 < B) by (destruct Hwf as [_ Hwf]; by eapply Hwf).
  pose proof Harr as [HA Hv].
  assert (HAB : A ≠ B) by (intros ->; by rewrite HB in HA).
  exists (set_objs h (delete A (delete B (objs h)))).
  assert (Hother : ∀ b, b ≠ A → b ≠ B →
            objs (set_objs h (delete A (delete B (objs h)))) !! b = objs h !! b).
  { intros b HbA HbB. simpl. by rewrite !lookup_delete_ne. }
  split; [|split; [|split; [|split; [|done]]]].
  - assert (Hfree : free_chars (CPtr B 0) h = Ok (tt, set_objs h (delete B (objs h)))).
    { unfold free_chars. rewrite decide_False by (intros [=]; lia). simpl.
      by rewrite HB. }
    rewrite (bindM_Ok _ _ _ _ _ Hfree).
    rewrite (bindM_Ok _ _ _ _ _
               (load_struct_eq (set_objs h (delete B (objs h))) A a
                  ltac:(simpl; by rewrite lookup_delete_ne))).
    reflexivity.
  - exact (heap_wf_delete (set_objs h (delete B (objs h))) A (heap_wf_delete h B Hwf)).
  - eapply value_at_frame; [|exact Hv]. intros _. apply Hother.
    + by eapply array_at_struct_ne_str.
    + by eapply value_at_not_chars.
  - eapply strings_at_frame; [|exact Hstrs].
    pose proof (strings_at_not_struct _ _ _ _ _ Hstrs HA) as HnA.
    eapply Forall_impl; [exact (Forall_and_2 _ _ _ HnA HnB)|].
    intros e [HeA HeB]. by apply Hother.
Qed.

(** [strarray_fromstring]: the array it returns holds fresh copies of
    the tokens of the text, and the memory of the caller is as before. *)
Lemma strarray_fromstring_spec h s delim txt d :
  heap_wf h → statics_at h → cstr_at h s = Some txt → cstr_at h delim = Some d →
  (∀ r h', strarray_fromstring s delim h = Ok (r, h') →
     heap_wf h' ∧
     ∃ elems, value_at h' r elems ∧
       strings_at h' elems (split_spec d txt) ∧
       Forall (λ e, objs h !! cblk e = None) elems ∧
       (∀ b o, objs h !! b = Some o → objs h' !! b = Some o)) ∧
  (Z.of_nat (length txt) + 1 < 2 ^ 64 →
   Z.of_nat (length (split_spec d txt)) ≤ 2 ^ 31 →
   ∃ r h', strarray_fromstring s delim h = Ok (r, h')).
Proof.
  intros Hwf Hstat Hs Hd. destruct Hstat as (Hempty & _).
  set (A := next h).
  destruct (alloc_spec (OStruct empty_strarray) h Hwf)
    as (hA & Halloc & HwfA & HobjsA & HnextA & HsaveA).
  fold A in Halloc, HobjsA, HnextA.
  assert (HoldA : ∀ b o, objs h !! b = Some o → objs hA !! b = Some o ∧ b < A).
  { intros b o Hb. assert (b < A) by (destruct Hwf as [_ Hwf]; by eapply Hwf).
    split; [|done]. rewrite HobjsA, lookup_insert_ne by lia. done. }
  assert (HsA : cstr_at hA s = Some txt).
  { rewrite (cstr_at_frame h hA s); [done|]. unfold cstr_at in Hs.
    destruct (objs h !! cblk s) as [o|] eqn:E; [|done]. by apply HoldA in E as [-> _]. }
  assert (HdA : cstr_at hA delim = Some d).
  { rewrite (cstr_at_frame h hA delim); [done|]. unfold cstr_at in Hd.
    destruct (objs h !! cblk delim) as [o|] eqn:E; [|done]. by apply HoldA in E as [-> _]. }
  assert (HdB : cblk delim ≠ next hA).
  { unfold cstr_at in Hd. destruct (objs h !! cblk delim) as [o|] eqn:E; [|done].
    apply HoldA in E as [_ ?]. lia. }
  pose proof (xstrdup_iff hA s txt HwfA HsA) as Hx.
  assert (Hpre : strarray_fromstring s delim h =
            (buf <- xstrdup s ;; n <- strlen buf ;; tok <- strtok buf delim ;;
             strarray_fromstring_loop (S (Z.to_nat n)) A tok delim ;;;
             free_chars buf ;;; r <- load_struct A ;; free_struct A ;;; retM r) hA).
  { unfold strarray_fromstring.
    rewrite (bindM_Ok _ _ _ _ _ (load_struct_eq _ _ _ Hempty)).
    by rewrite (bindM_Ok _ _ _ _ _ Halloc). }
  rewrite Hpre. clear Hpre.
  destruct (decide (Z.of_nat (length txt) + 1 < 2 ^ 64)) as [Hfit|Hbig].
  2: { rewrite (bindM_Undef _ _ _ Hx). split; [done|]. intros; lia. }
  set (B := next hA) in *. set (bs := Some <$> txt ++ [NUL]) in *.
  set (hB := with_buf hA bs) in *.
  rewrite (bindM_Ok _ _ _ _ _ Hx).
  pose proof (heap_wf_with_buf hA bs HwfA) as HwfB. fold hB in HwfB.
  pose proof (cstr_at_nul_free _ _ _ Hs) as Hnul.
  assert (HB : objs hB !! B = Some (OChars bs)) by (simpl; by rewrite lookup_insert_eq).
  assert (Hread : read_cstr (drop 0 bs) = Some txt).
  { rewrite drop_0. unfold bs. rewrite fmap_app. by apply read_cstr_app. }
  assert (Hbuf : cstr_at hB (CPtr B 0) = Some txt)
    by (rewrite <- Hread; exact (cstr_at_buf hB B 0 bs HB)).
  pose proof (with_buf_cstr_old hA bs _ _ HwfA HdA) as HdelB. fold hB in HdelB.
  assert (HA : objs hB !! A = Some (OStruct empty_strarray)).
  { apply with_buf_lookup_old; [done|]. by rewrite HobjsA, lookup_insert_eq. }
  assert (Harr : array_at hB A empty_strarray []).
  { split; [done|]. exists []. repeat split; done. }
  assert (HoldB : ∀ b o, objs h !! b = Some o → objs hB !! b = Some o ∧ b < A).
  { intros b o Hb. destruct (HoldA b o Hb). split; [|done].
    by apply with_buf_lookup_old. }
  rewrite (bindM_Ok _ _ _ _ _ (strlen_spec _ _ _ Hbuf)).
  rewrite Nat2Z.id.
  assert (Hbs : Z.of_nat (length bs) < 2 ^ 64).
  { unfold bs. rewrite length_fmap, length_app. simpl. lia. }
  pose proof (strtok_spec hB (CPtr B 0) delim d B 0 bs txt
                ltac:(rewrite decide_False; [done|intros [=]; destruct HwfA; lia])
                HdelB HB Hread) as Hst.
  rewrite (split_spec_next d txt).
  destruct (next_token d txt) as [[t rem]|] eqn:Hnt.
  - destruct Hst as (bs' & ot & os & Hst & Hlen' & Ht & Hrem).
    rewrite (bindM_Ok _ _ _ _ _ Hst).
    set (h3 := set_save (set_objs hB (<[B:=OChars bs']> (objs hB)))
                        (CPtr B (Z.of_nat os))) in *.
    assert (Hother : ∀ b, b ≠ B → objs h3 !! b = objs hB !! b).
    { intros b Hb. unfold h3. simpl. rewrite lookup_insert_ne by done.
      done. }
    assert (Hwf3 : heap_wf h3)
      by (apply heap_wf_set_save, heap_wf_update; [by rewrite HB|done]).
    assert (HAB : A ≠ B) by (unfold B; lia).
    assert (Harr3 : array_at h3 A empty_strarray []).
    { split; [by rewrite Hother|]. exists []. repeat split; done. }
    assert (Hd3 : cstr_at h3 delim = Some d)
      by (by rewrite (cstr_at_frame hB h3 delim (Hother _ HdB))).
    assert (HB3 : objs h3 !! B = Some (OChars bs'))
      by (unfold h3; simpl; by rewrite lookup_insert_eq).
    pose proof (next_token_shorter _ _ _ _ Hnt) as (_ & _ & _ & Hshort).
    destruct (strarray_fromstring_loop_spec d delim A B (S (length txt)) h3
                empty_strarray [] [] bs' ot os t rem
                Hwf3 Harr3 ltac:(constructor) ltac:(constructor) HdB Hd3 HB3
                ltac:(lia) Ht eq_refl Hrem ltac:(lia))
      as [Hpart Htot].
    assert (Hdone : ∀ h4, strarray_fromstring_loop (S (length txt)) A
                            (CPtr B (Z.of_nat ot)) delim h3 = Ok (tt, h4) →
              ∃ r h' elems,
                (strarray_fromstring_loop (S (length txt)) A
                   (CPtr B (Z.of_nat ot)) delim ;;;
                 free_chars (CPtr B 0) ;;; r <- load_struct A ;;
                 free_struct A ;;; retM r) h3 = Ok (r, h') ∧
                heap_wf h' ∧ value_at h' r elems ∧
                strings_at h' elems (t :: split_spec d rem) ∧
                Forall (λ e, objs h !! cblk e = None) elems ∧
                (∀ b o, objs h !! b = Some o → objs h' !! b = Some o)).
    { intros h4 Hloop.
      destruct (Hpart h4 Hloop)
        as (a' & elems & bsf & Hwf4 & Harr4 & Hstrs4 & Hfresh & HB4 & Hframe4).
      simpl in Harr4, Hstrs4.
      assert (HnB : Forall (λ e, cblk e ≠ B) elems).
      { eapply Forall_impl; [exact Hfresh|]. intros e He. simpl in He.
        unfold B. destruct HwfA. lia. }
      destruct (strarray_fromstring_exit h4 A B a' elems _ bsf Hwf4 Harr4 Hstrs4 HnB HB4)
        as (h' & Hexit & Hwf' & Hv' & Hstrs' & Hother').
      exists a', h', elems. rewrite (bindM_Ok _ _ _ _ _ Hloop).
      split; [exact Hexit|]. split; [done|]. split; [done|]. split; [done|].
      split.
      - eapply Forall_impl; [exact Hfresh|]. intros e He. simpl in He.
        destruct (objs h !! cblk e) as [o|] eqn:E; [|done].
        apply HoldA in E as [_ ?]. lia.
      - intros b o Hb. destruct (HoldB b o Hb) as [HbB HbA].
        rewrite Hother' by (unfold B; lia).
        apply Hframe4; [by rewrite Hother by (unfold B; lia)|lia|unfold B; lia|].
        simpl. destruct Hwf as [_ Hwf]. apply Hwf in Hb. lia. }
    split.
    + intros r h' Hrun.
      pose proof Hrun as Hrun'.
      apply bindM_inv in Hrun' as ([] & h4 & Hloop & _).
      destruct (Hdone h4 Hloop) as (r' & h'' & elems & Hrun'' & Hpost).
      rewrite Hrun in Hrun''. injection Hrun'' as <- <-.
      destruct Hpost as (? & ? & ? & ? & ?). eauto 10.
    + intros _ Hb. destruct Htot as [h4 Hloop]; [simpl in *; lia|].
      destruct (Hdone h4 Hloop) as (r' & h'' & elems & Hrun'' & _). eauto.
  - destruct Hst as [sv Hst]. rewrite (bindM_Ok _ _ _ _ _ Hst).
    rewrite (bindM_Ok _ _ _ _ _
               (strarray_fromstring_loop_null (S (length txt)) A delim (set_save hB sv))).
    destruct (strarray_fromstring_exit (set_save hB sv) A B empty_strarray [] [] bs
                ltac:(by apply heap_wf_set_save) Harr ltac:(constructor)
                ltac:(constructor) HB)
      as (h' & Hexit & Hwf' & Hv' & Hstrs' & Hother').
    rewrite Hexit. split; [|by eauto].
    intros r h'' [= <- <-]. split; [done|]. exists [].
    split; [done|]. split; [done|]. split; [constructor|].
    intros b o Hb. destruct (HoldB b o Hb) as [HbB HbA].
    rewrite Hother' by (unfold B; lia). done.
Qed.

Lemma split_aux_run d t : ∀ s cur,
  Forall (λ c, c ∉ d) t → split_aux d (t ++ s) cur = split_aux d s (cur ++ t).
Proof.
  induction t as [|c t IH]; intros s cur Ht; simpl; [by rewrite app_nil_r|].
  apply Forall_cons in Ht as [Hc Ht]. rewrite decide_False by done.
  rewrite IH by done. by rewrite <- app_assoc.
Qed.

Lemma split_spec_delim d c s : c ∈ d → split_spec d (c :: s) = split_spec d s.
Proof. intros Hc. unfold split_spec. simpl. by rewrite decide_True. Qed.

Lemma split_spec_token d t c s :
  t ≠ [] → Forall (λ c, c ∉ d) t → c ∈ d →
  split_spec d (t ++ c :: s) = t :: split_spec d s.
Proof.
  intros Hne Ht Hc. unfold split_spec. rewrite split_aux_run by done. simpl.
  rewrite decide_True by done. by destruct t.
Qed.

Lemma split_spec_last d t :
  t ≠ [] → Forall (λ c, c ∉ d) t → split_spec d t = [t].
Proof.
  intros Hne Ht. unfold split_spec. rewrite <- (app_nil_r t) at 1.
  rewrite split_aux_run by done. simpl. by destruct t.
Qed.

(** C5.  [strarray_fromstring] returns an array of fresh copies of the
    tokens of the text, the maximal runs of characters that are not in
    the delimiter string, in order; nothing that was in the memory before
    the call is changed.  No token is empty and none holds a delimiter:
    a delimiter at the head of the text starts no token, a delimiter
    after a token ends it, and a token that reaches the end of the text
    is the last.  A text without characters other than delimiters, the
    empty text among them, gives an array with [count] 0, and the text
    "a:b::c" split at ":" gives "a", "b", "c".  The call runs to
    completion whenever the copy of the text fits [size_t] and there are
    at most 2^31 tokens, the largest number the doubling of the
    [unsigned int] capacity reaches. *)
Theorem strarray_fromstring_tokens h s delim txt d :
  heap_wf h → statics_at h → cstr_at h s = Some txt → cstr_at h delim = Some d →
  (∀ r h', strarray_fromstring s delim h = Ok (r, h') →
     ∃ elems, value_at h' r elems ∧
       strings_at h' elems (split_spec d txt) ∧
       count r = Z.of_nat (length (split_spec d txt)) ∧
       Forall (λ e, objs h !! cblk e = None) elems ∧
       (∀ b o, objs h !! b = Some o → objs h' !! b = Some o)) ∧
  (Z.of_nat (length txt) + 1 < 2 ^ 64 →
   Z.of_nat (length (split_spec d txt)) ≤ 2 ^ 31 →
   ∃ r h', strarray_fromstring s delim h = Ok (r, h')) ∧
  Forall (λ t, t ≠ [] ∧ Forall (λ c, c ∉ d) t) (split_spec d txt) ∧
  concat (split_spec d txt) = filter (λ c, c ∉ d) txt ∧
  (Forall (λ c, c ∈ d) txt → split_spec d txt = []) ∧
  (∀ c rest, c ∈ d → split_spec d (c :: rest) = split_spec d rest) ∧
  (∀ t c rest, t ≠ [] → Forall (λ c, c ∉ d) t → c ∈ d →
     split_spec d (t ++ c :: rest) = t :: split_spec d rest) ∧
  (∀ t, t ≠ [] → Forall (λ c, c ∉ d) t → split_spec d t = [t]) ∧
  split_spec [":"%char] (list_ascii_of_string "a:b::c")
    = [["a"%char]; ["b"%char]; ["c"%char]].
Proof.
  intros Hwf Hstat Hs Hd.
  destruct (strarray_fromstring_spec h s delim txt d Hwf Hstat Hs Hd) as [Hpart Htot].
  split; [|split; [exact Htot|]].
  - intros r h' Hrun.
    destruct (Hpart r h' Hrun) as (_ & elems & Hv & Hstrs & Hfresh & Hold).
    exists elems. split; [done|]. split; [done|]. split; [|done].
    pose proof (Forall2_length _ _ _ Hstrs) as Hlen.
    destruct Hv as (cells & _ & _ & _ & Hcnt & _). lia.
  - split; [apply split_spec_tokens|].
    split; [apply (split_aux_concat d txt [])|].
    split; [apply split_spec_delims|].
    split; [intros c rest; apply split_spec_delim|].
    split; [intros t c rest; apply split_spec_token|].
    split; [intros t; apply split_spec_last|].
    reflexivity.
Qed.

Lemma strarray_fromstring_tokens_witness :
  ∃ r h' elems,
    strarray_fromstring (CPtr 11 0) lit_colon example_heap_abc = Ok (r, h') ∧
    count r = 3 ∧ value_at h' r elems ∧
    strings_at h' elems [["a"%char]; ["b"%char]; ["c"%char]].
Proof.
  destruct (strarray_fromstring_tokens example_heap_abc (CPtr 11 0) lit_colon
              (list_ascii_of_string "a:b::c") [":"%char]
              heap_wf_example_abc statics_at_example_abc eq_refl eq_refl)
    as (Hpost & Htotal & _ & _ & _ & _ & _ & _ & Hex).
  destruct Htotal as (r & h' & Hrun); [vm_compute; reflexivity|vm_compute; discriminate|].
  destruct (Hpost r h' Hrun) as (elems & Hv & Hstrs & Hcnt & _).
  rewrite Hex in Hstrs, Hcnt. exists r, h', elems. by repeat split.
Defined.

(** ** strendswith *)

Lemma to_int_small z : 0 ≤ z ≤ INT_MAX → to_int z = z.
Proof.
  unfold to_int, INT_MAX. intros Hz. rewrite Z.mod_small by lia. lia.
Qed.

Lemma cstr_at_inv h p s :
  cstr_at h p = Some s →
  ∃ bs, objs h !! cblk p = Some (OChars bs) ∧ 0 ≤ coff p ∧
        read_cstr (drop (Z.to_nat (coff p)) bs) = Some s.
Proof.
  unfold cstr_at. destruct (objs h !! cblk p) as [[bs| |]|]; try done.
  case_decide; [|done]. intros Hr. by exists bs.
Qed.

Lemma suffix_drop_length (e s : list ascii) :
  e `suffix_of` s ↔ (length e ≤ length s)%nat ∧ drop (length s - length e) s = e.
Proof.
  split.
  - intros [k ->]. rewrite length_app. split; [lia|].
    replace (length k + length e - length e)%nat with (length k) by lia.
    by rewrite drop_app_length.
  - intros [Hle Hd]. exists (take (length s - length e) s).
    by rewrite <- Hd at 2; rewrite take_drop.
Qed.

Lemma strendswith_spec h s e ss es :
  cstr_at h s = Some ss → cstr_at h e = Some es →
  Z.of_nat (length ss) ≤ INT_MAX → Z.of_nat (length es) ≤ INT_MAX →
  strendswith s e h = Ok ((if decide (es `suffix_of` ss) then 1 else 0), h).
Proof.
  intros Hs He Hls Hle. unfold strendswith.
  rewrite (bindM_Ok _ _ _ _ _ (strlen_spec _ _ _ Hs)).
  rewrite (bindM_Ok _ _ _ _ _ (strlen_spec _ _ _ He)).
  rewrite !to_int_small by lia.
  destruct (decide (Z.of_nat (length ss) >= Z.of_nat (length es))) as [Hge|Hlt].
  - destruct (cstr_at_inv _ _ _ Hs) as (bs & Hb & Hoff & Hread).
    pose proof (read_cstr_some_lt _ _ _ Hread) as Hfit.
    assert (Hp1 : ptr_add s (Z.of_nat (length ss)) h
                  = Ok (CPtr (cblk s) (coff s + Z.of_nat (length ss)), h)).
    { unfold ptr_add. rewrite Hb. by rewrite decide_True by lia. }
    rewrite (bindM_Ok _ _ _ _ _ Hp1).
    set (k := (length ss - length es)%nat).
    assert (Hp2 : ptr_add (CPtr (cblk s) (coff s + Z.of_nat (length ss)))
                    (- Z.of_nat (length es)) h
                  = Ok (CPtr (cblk s) (Z.of_nat (Z.to_nat (coff s) + k)), h)).
    { unfold ptr_add. simpl. rewrite Hb. rewrite decide_True by lia.
      do 3 f_equal. unfold k. lia. }
    rewrite (bindM_Ok _ _ _ _ _ Hp2).
    assert (Hq : cstr_at h (CPtr (cblk s) (Z.of_nat (Z.to_nat (coff s) + k)))
                 = Some (drop k ss)).
    { rewrite (cstr_at_buf _ _ _ _ Hb). apply read_cstr_drop; [done|]. unfold k. lia. }
    rewrite (bindM_Ok _ _ _ _ _ (strcmp_spec _ _ _ _ _ Hq He)).
    unfold retM. do 2 f_equal.
    pose proof (cstr_at_nul_free _ _ _ Hq) as Hn1.
    pose proof (cstr_at_nul_free _ _ _ He) as Hn2.
    pose proof (strcmp_list_eq _ _ Hn1 Hn2) as Heq.
    pose proof (suffix_drop_length es ss) as Hsuf. fold k in Hsuf.
    destruct (decide (strcmp_list (drop k ss) es = 0)) as [E|E].
    + rewrite decide_True; [done|]. apply Hsuf. split; [lia|]. by apply Heq.
    + rewrite decide_False; [done|]. intros Hs'. apply E, Heq. by apply Hsuf.
  - unfold retM. rewrite decide_False; [done|].
    intros Hsuf. apply suffix_length in Hsuf. lia.
Qed.

(** X1.  [strendswith] returns 1 when the second string is a suffix of
    the first and 0 otherwise, for strings whose lengths fit the [int]
    they are stored in, and changes nothing.  So it returns 1 for an
    empty suffix and 0 for a suffix longer than the string, without
    comparing. *)
Theorem strendswith_suffix h s e ss es :
  cstr_at h s = Some ss → cstr_at h e = Some es →
  Z.of_nat (length ss) ≤ INT_MAX → Z.of_nat (length es) ≤ INT_MAX →
  ∃ r, strendswith s e h = Ok (r, h) ∧
       (r = 1 ∨ r = 0) ∧
       (r = 1 ↔ ∃ k, ss = k ++ es) ∧
       (es = [] → r = 1) ∧
       ((length ss < length es)%nat → r = 0).
Proof.
  intros Hs He Hls Hle.
  exists (if decide (es `suffix_of` ss) then 1 else 0).
  split; [by apply strendswith_spec|].
  destruct (decide (es `suffix_of` ss)) as [Hsuf|Hno].
  - split; [by left|]. split; [done|]. split; [done|].
    intros Hlen. apply suffix_length in Hsuf. lia.
  - split; [by right|]. split; [split; [done|intros Hk; by destruct Hno]|].
    split; [|done]. intros ->. destruct Hno. apply suffix_nil.
Qed.

Lemma strendswith_suffix_witness :
  strendswith (CPtr 5 0) (CPtr 6 0) example_heap_names = Ok (1, example_heap_names) ∧
  strendswith (CPtr 5 0) (CPtr 7 0) example_heap_names = Ok (0, example_heap_names) ∧
  strendswith (CPtr 6 0) lit_empty example_heap_names = Ok (1, example_heap_names).
Proof.
  split; [|split].
  - destruct (strendswith_suffix example_heap_names (CPtr 5 0) (CPtr 6 0)
                (list_ascii_of_string "main.c") (list_ascii_of_string ".c")
                eq_refl eq_refl ltac:(vm_compute; discriminate)
                ltac:(vm_compute; discriminate))
      as (r & Hrun & _ & Hr & _).
    rewrite Hrun. do 2 f_equal. apply Hr. by exists (list_ascii_of_string "main").
  - destruct (strendswith_suffix example_heap_names (CPtr 5 0) (CPtr 7 0)
                (list_ascii_of_string "main.c") (list_ascii_of_string ".cpp")
                eq_refl eq_refl ltac:(vm_compute; discriminate)
                ltac:(vm_compute; discriminate))
      as (r & Hrun & [Hr| ->] & Hiff & _); [|done].
    apply Hiff in Hr as [k Hk].
    destruct k as [|a [|b [|c k]]]; [done|done|inversion Hk|].
    apply (f_equal length) in Hk. simpl in Hk. rewrite length_app in Hk.
    simpl in Hk. lia.
  - destruct (strendswith_suffix example_heap_names (CPtr 6 0) lit_empty
                (list_ascii_of_string ".c") []
                eq_refl eq_refl ltac:(vm_compute; discriminate)
                ltac:(vm_compute; discriminate))
      as (r & Hrun & _ & _ & Hr & _).
    rewrite Hrun. do 2 f_equal. by apply Hr.
Defined.

(** ** strarray_frompath *)

Lemma cstr_at_not_null h p s : heap_wf h → cstr_at h p = Some s → p ≠ NULL.
Proof.
  intros Hwf Hs ->. unfold cstr_at in Hs. simpl in Hs.
  by rewrite (heap_wf_null _ Hwf) in Hs.
Qed.

(** X2.  [strarray_frompath] of a null path returns the value of
    [empty_strarray] and leaves the memory as it is: nothing is
    allocated.  For any other path it returns fresh copies of the parts
    of the path between the separators, ";" with [_WIN32] and ":"
    without, no part empty, and keeps what was in the memory. *)
Theorem strarray_frompath_split h win32 :
  heap_wf h → statics_at h →
  strarray_frompath win32 NULL h = Ok (empty_strarray, h) ∧
  ∀ path txt, cstr_at h path = Some txt →
    (∀ r h', strarray_frompath win32 path h = Ok (r, h') →
       ∃ elems, value_at h' r elems ∧
         strings_at h' elems (split_spec [if win32 then ";"%char else ":"%char] txt) ∧
         Forall (λ e, objs h !! cblk e = None) elems ∧
         (∀ b o, objs h !! b = Some o → objs h' !! b = Some o)) ∧
    (Z.of_nat (length txt) + 1 < 2 ^ 64 →
     Z.of_nat (length (split_spec [if win32 then ";"%char else ":"%char] txt)) ≤ 2 ^ 31 →
     ∃ r h', strarray_frompath win32 path h = Ok (r, h')).
Proof.
  intros Hwf Hstat. pose proof Hstat as (Hempty & _ & Hcolon & Hsemi). split.
  - unfold strarray_frompath. rewrite decide_True by done.
    by apply load_struct_eq.
  - intros path txt Hpath.
    pose proof (cstr_at_not_null _ _ _ Hwf Hpath) as Hnn.
    unfold strarray_frompath. rewrite decide_False by done.
    destruct win32.
    + destruct (strarray_fromstring_spec h path lit_semicolon txt _
                  Hwf Hstat Hpath Hsemi) as [Hpart Htot].
      split; [|exact Htot]. intros r h' Hrun.
      destruct (Hpart r h' Hrun) as (_ & elems & ?). by exists elems.
    + destruct (strarray_fromstring_spec h path lit_colon txt _
                  Hwf Hstat Hpath Hcolon) as [Hpart Htot].
      split; [|exact Htot]. intros r h' Hrun.
      destruct (Hpart r h' Hrun) as (_ & elems & ?). by exists elems.
Qed.

Lemma strarray_frompath_split_witness :
  strarray_frompath true NULL example_heap_abc = Ok (empty_strarray, example_heap_abc) ∧
  (∃ r h' elems,
     strarray_frompath false (CPtr 11 0) example_heap_abc = Ok (r, h') ∧
     value_at h' r elems ∧
     strings_at h' elems [["a"%char]; ["b"%char]; ["c"%char]]) ∧
  (∃ r h' elems,
     strarray_frompath true (CPtr 11 0) example_heap_abc = Ok (r, h') ∧
     value_at h' r elems ∧
     strings_at h' elems [list_ascii_of_string "a:b::c"]).
Proof.
  split; [|split].
  - apply (strarray_frompath_split example_heap_abc true
             heap_wf_example_abc statics_at_example_abc).
  - destruct (strarray_frompath_split example_heap_abc false
                heap_wf_example_abc statics_at_example_abc) as [_ Hpath].
    destruct (Hpath (CPtr 11 0) (list_ascii_of_string "a:b::c") eq_refl)
      as [Hpost Htotal].
    destruct Htotal as (r & h' & Hrun);
      [vm_compute; reflexivity|vm_compute; discriminate|].
    destruct (Hpost r h' Hrun) as (elems & Hv & Hstrs & _).
    exists r, h', elems. split; [done|]. split; [done|exact Hstrs].
  - destruct (strarray_frompath_split example_heap_abc true
                heap_wf_example_abc statics_at_example_abc) as [_ Hpath].
    destruct (Hpath (CPtr 11 0) (list_ascii_of_string "a:b::c") eq_refl)
      as [Hpost Htotal].
    destruct Htotal as (r & h' & Hrun);
      [vm_compute; reflexivity|vm_compute; discriminate|].
    destruct (Hpost r h' Hrun) as (elems & Hv & Hstrs & _).
    exists r, h', elems. split; [done|]. split; [done|exact Hstrs].
Defined.

(** ** Membership *)

(** X3.  [strarray_exists] compares strings, not references: it returns
    1 when some element holds the same characters as the string looked
    for and 0 when none does, 0 in particular for an array without
    elements, and changes nothing. *)
Theorem strarray_exists_iff h p a elems strs s t :
  array_at h p a elems → strings_at h elems strs → cstr_at h s = Some t →
  ∃ r, strarray_exists p s h = Ok (r, h) ∧
       (r = 1 ∨ r = 0) ∧
       (r = 1 ↔ ∃ (i : nat) e, elems !! i = Some e ∧ cstr_at h e = Some t) ∧
       (count a = 0 → r = 0).
Proof.
  intros Harr Hstrs Hs.
  exists (if decide (t ∈ strs) then 1 else 0).
  split; [by eapply strarray_exists_spec|].
  assert (Hiff : t ∈ strs ↔ ∃ (i : nat) e, elems !! i = Some e ∧ cstr_at h e = Some t).
  { split.
    - intros Hin. apply list_elem_of_lookup in Hin as [i Hi].
      destruct (Forall2_lookup_r _ _ _ _ _ Hstrs Hi) as (e & He & Hcs). eauto.
    - intros (i & e & He & Hcs).
      destruct (Forall2_lookup_l _ _ _ _ _ Hstrs He) as (t' & Ht' & Hcs').
      rewrite Hcs in Hcs'. injection Hcs' as <-. by eapply list_elem_of_lookup_2. }
  destruct (decide (t ∈ strs)) as [Hin|Hout].
  - split; [by left|]. split; [by split; [intros _; apply Hiff|]|].
    intros Hc. destruct Harr as (_ & cells & _ & _ & _ & Hlen & _).
    pose proof (Forall2_length _ _ _ Hstrs). destruct strs; [by inversion Hin|].
    simpl in *. lia.
  - split; [by right|]. split; [|done].
    split; [done|]. intros Hex. by apply Hiff in Hex.
Qed.

Lemma strarray_exists_iff_witness :
  strarray_exists 5 (CPtr 7 0) example_heap_abc = Ok (1, example_heap_abc) ∧
  strarray_exists 5 (CPtr 10 0) example_heap_abc = Ok (0, example_heap_abc).
Proof.
  split.
  - destruct (strarray_exists_iff example_heap_abc 5 _ _ _ (CPtr 7 0) ["b"%char]
                array_at_example_abc strings_at_example_abc eq_refl)
      as (r & Hrun & _ & Hr & _).
    rewrite Hrun. do 2 f_equal. apply Hr. by exists 1%nat, (CPtr 7 0).
  - destruct (strarray_exists_iff example_heap_abc 5 _ _ _ (CPtr 10 0) [","%char]
                array_at_example_abc strings_at_example_abc eq_refl)
      as (r & Hrun & [Hr| ->] & Hiff & _); [|done].
    apply Hiff in Hr as (i & e & He & Hcs).
    destruct i as [|[|[|i]]]; simpl in He; [| | |done];
      injection He as <-; vm_compute in Hcs; discriminate.
Defined.

(** X4.  After [strarray_add_uniq] of a string, [strarray_exists] finds
    that string, and it finds any other string exactly when it found it
    before: the call adds the string to the set of strings of the array
    and nothing else. *)
Theorem strarray_add_uniq_member h p a elems strs s t :
  heap_wf h → array_at h p a elems → strings_at h elems strs →
  cstr_at h s = Some t →
  (∀ h', strarray_add_uniq p s h = Ok (tt, h') →
     strarray_exists p s h' = Ok (1, h') ∧
     ∀ u tu, cstr_at h u = Some tu →
       ∃ r0 r, strarray_exists p u h = Ok (r0, h) ∧
               strarray_exists p u h' = Ok (r, h') ∧
               (r = 1 ↔ tu = t ∨ r0 = 1)) ∧
  (size a < 2 ^ 31 → ∃ h', strarray_add_uniq p s h = Ok (tt, h')).
Proof.
  intros Hwf Harr Hstrs Hs.
  rewrite (strarray_add_uniq_eq _ _ _ _ _ _ _ Harr Hstrs Hs).
  split.
  - intros h' Hrun.
    assert (Hpost : ∃ a' elems' strs',
              array_at h' p a' elems' ∧ strings_at h' elems' strs' ∧
              chars_preserved h h' ∧
              ∀ x, x ∈ strs' ↔ x = t ∨ x ∈ strs).
    { destruct (decide (t ∈ strs)) as [Hin|Hout].
      - injection Hrun as <-. exists a, elems, strs.
        split; [done|]. split; [done|]. split; [apply chars_preserved_refl|].
        intros x. split; [by right|]. by intros [->|].
      - destruct (strarray_add_post _ _ _ _ _ _ _ _ Hwf Harr Hstrs Hs Hrun)
          as (a' & _ & Harr' & _ & _ & Hstrs' & Hch).
        exists a', (elems ++ [s]), (strs ++ [t]).
        split; [done|]. split; [done|]. split; [done|].
        intros x. rewrite elem_of_app, list_elem_of_singleton. tauto. }
    destruct Hpost as (a' & elems' & strs' & Harr' & Hstrs' & Hch & Hmem).
    split.
    + rewrite (strarray_exists_spec _ _ _ _ _ _ _ Harr' Hstrs'
                 (cstr_at_preserved _ _ _ _ Hch Hs)).
      rewrite decide_True; [done|]. apply Hmem. by left.
    + intros u tu Hu.
      exists (if decide (tu ∈ strs) then 1 else 0),
             (if decide (tu ∈ strs') then 1 else 0).
      split; [by eapply strarray_exists_spec|].
      split; [eapply strarray_exists_spec; [done..|by eapply cstr_at_preserved]|].
      destruct (decide (tu ∈ strs')) as [Hin'|Hout'];
        destruct (decide (tu ∈ strs)) as [Hin|Hout];
        rewrite Hmem in *; split; try done; try tauto.
  - intros Hsz. destruct (decide (t ∈ strs)); [by eauto|].
    destruct (strarray_add_spec h p a elems s Hwf Harr ltac:(by right))
      as (h' & _ & Hrun & _). eauto.
Qed.

Lemma strarray_add_uniq_member_witness :
  ∃ h', strarray_add_uniq 5 (CPtr 10 0) example_heap_abc = Ok (tt, h') ∧
        strarray_exists 5 (CPtr 10 0) h' = Ok (1, h').
Proof.
  destruct (strarray_add_uniq_member example_heap_abc 5 _ _ _ (CPtr 10 0) [","%char]
              heap_wf_example_abc array_at_example_abc strings_at_example_abc eq_refl)
    as [Hpost Htotal].
  destruct Htotal as [h' Hrun]; [reflexivity|].
  exists h'. split; [done|]. by apply Hpost.
Defined.

(** ** strarray_addall *)

Lemma array_at_example_dup :
  array_at example_heap_dup 8 empty_strarray [].
Proof. split; [done|]. exists []. repeat split; done. Qed.

Lemma value_at_example_dup :
  value_at example_heap_dup (StrArray 2 16 7) [CPtr 6 0; CPtr 6 0].
Proof.
  exists (Some (CPtr 6 0) :: Some (CPtr 6 0) :: replicate 14 None).
  repeat split; done.
Qed.

Lemma strings_at_example_dup :
  strings_at example_heap_dup [CPtr 6 0; CPtr 6 0] [["x"%char]; ["x"%char]].
Proof. repeat constructor. Qed.

(** What consecutive calls of [strarray_add] that complete leave. *)
Lemma add_seq_post p l : ∀ h a elems h',
  heap_wf h → array_at h p a elems →
  add_seq p l h = Ok (tt, h') →
  ∃ a', heap_wf h' ∧ array_at h' p a' (elems ++ l) ∧
        count a' = count a + Z.of_nat (length l) ∧
        chars_preserved h h' ∧
        (∀ b o, objs h !! b = Some o → b ≠ p → b ≠ str a → objs h' !! b = Some o).
Proof.
  induction l as [|s l IH]; intros h a elems h' Hwf Ha Hrun.
  - injection Hrun as <-. exists a. rewrite app_nil_r.
    split; [done|]. split; [done|]. split; [simpl; lia|].
    split; [apply chars_preserved_refl|done].
  - simpl in Hrun. apply bindM_inv in Hrun as ([] & h1 & Hadd & Hrun).
    pose proof (strarray_add_inv _ _ _ _ _ _ Hwf Ha Hadd) as Hroom.
    destruct (strarray_add_spec h p a elems s Hwf Ha Hroom)
      as (h1' & a1 & Hadd' & Hwf1 & Ha1 & Hcnt1 & _ & Hstr1 & _ & Hframe & _).
    rewrite Hadd in Hadd'. injection Hadd' as <-.
    pose proof (strarray_add_chars _ _ _ _ _ _ Hwf Ha Hadd) as Hch1.
    destruct (IH h1 a1 (elems ++ [s]) h' Hwf1 Ha1 Hrun)
      as (a' & Hwf' & Ha' & Hcnt' & Hch' & Hframe').
    exists a'. rewrite <- app_assoc in Ha'.
    split; [done|]. split; [done|]. split; [simpl length; lia|].
    split; [by eapply chars_preserved_trans|].
    intros b o Hb Hbp Hba.
    assert (b < next h) by (destruct Hwf as [_ Hwf]; by eapply Hwf).
    assert (b ≠ str a1).
    { destruct (decide (count a = size a)); destruct Hstr1 as [-> _]; lia. }
    apply Hframe'; [|done..]. by rewrite Hframe.
Qed.

(** [strarray_addall] from cells other than those of the array is the
    sequence of calls of [strarray_add], one per element. *)
Lemma strarray_addall_loop_eq p added bcells belems :
  ∀ (n i : nat) h a elems,
    heap_wf h → array_at h p a elems →
    objs h !! str added = Some (OPtrs bcells) →
    take (length belems) bcells = Some <$> belems →
    (i + n = length belems)%nat →
    str added ≠ str a →
    strarray_addall_loop p added (Z.of_nat i) n h = add_seq p (drop i belems) h.
Proof.
  induction n as [|n IH]; intros i h a elems Hwf Ha Hb Htake Hi Hne.
  - by rewrite drop_ge by lia.
  - destruct (lookup_lt_is_Some_2 belems i) as [e He]; [lia|].
    assert (Hcell : bcells !! i = Some (Some e)).
    { rewrite <- (lookup_take_lt bcells (length belems)) by lia.
      by rewrite Htake, list_lookup_fmap, He. }
    rewrite (drop_S _ _ _ He). simpl.
    rewrite (bindM_Ok _ _ _ _ _ (load_cell_eq _ _ _ _ _ Hb Hcell)).
    replace (Z.of_nat i + 1) with (Z.of_nat (S i)) by lia.
    unfold bindM at 1 2.
    destruct (strarray_add p e h) as [[[] h1]| |] eqn:Hadd; [|done|done].
    pose proof (strarray_add_inv _ _ _ _ _ _ Hwf Ha Hadd) as Hroom.
    destruct (strarray_add_spec h p a elems e Hwf Ha Hroom)
      as (h1' & a1 & Hadd' & Hwf1 & Ha1 & _ & _ & Hstr1 & _ & Hframe & _).
    rewrite Hadd in Hadd'. injection Hadd' as <-.
    assert (Hlive : str added ≠ next h).
    { intros E. rewrite E, heap_wf_fresh in Hb; done. }
    assert (Hp : str added ≠ p).
    { intros E. destruct Ha as [Hp _]. rewrite E, Hp in Hb. done. }
    assert (Hne1 : str added ≠ str a1).
    { destruct (decide (count a = size a)); destruct Hstr1; congruence. }
    apply (IH (S i) h1 a1 (elems ++ [e])); try done; try lia.
    by rewrite Hframe.
Qed.

(** X5.  [strarray_addall] from an array value whose cells are not those
    of the target is the sequence of [strarray_add] calls, one per
    element in order: the target then holds its elements followed by
    those of the source, [count] is the sum, and the source and all
    strings are as before.  A source without elements, its null [str]
    included, is never read. *)
Theorem strarray_addall_appends h p a elems added belems :
  heap_wf h → array_at h p a elems → value_at h added belems →
  str added ≠ str a ∨ str added = 0 →
  strarray_addall p added h = add_seq p belems h ∧
  (∀ h', strarray_addall p added h = Ok (tt, h') →
     ∃ a', array_at h' p a' (elems ++ belems) ∧
           count a' = count a + count added ∧
           value_at h' added belems ∧
           chars_preserved h h') ∧
  (count a + count added ≤ 2 ^ 31 →
     ∃ h', strarray_addall p added h = Ok (tt, h')) ∧
  (count added = 0 → strarray_addall p added h = Ok (tt, h)).
Proof.
  intros Hwf Ha Hv Hne.
  pose proof Hv as (bcells & Hcells & _ & _ & Hcnt & Htake).
  assert (Heq : strarray_addall p added h = add_seq p belems h).
  { unfold strarray_addall. rewrite <- Hcnt, Nat2Z.id.
    unfold cells_of in Hcells. destruct (decide (str added = 0)) as [E0|E0].
    - inversion Hcells; subst bcells. rewrite take_nil in Htake.
      by destruct belems.
    - destruct (objs h !! str added) as [[]|] eqn:Hb; try done.
      inversion Hcells; subst cells.
      change 0 with (Z.of_nat 0).
      rewrite (strarray_addall_loop_eq p added bcells belems
                 (length belems) 0 h a elems) by (done || lia || by destruct Hne).
      by rewrite drop_0. }
  split; [exact Heq|]. rewrite Heq. split; [|split].
  - intros h' Hrun.
    destruct (add_seq_post p belems h a elems h' Hwf Ha Hrun)
      as (a' & Hwf' & Ha' & Hcnt' & Hch & Hframe).
    exists a'. split; [done|]. split; [lia|]. split; [|done].
    eapply value_at_frame; [|exact Hv]. intros Hn0.
    unfold cells_of in Hcells. rewrite decide_False in Hcells by done.
    destruct (objs h !! str added) as [o|] eqn:Hb; [|done].
    rewrite (Hframe _ o Hb); [done| |by destruct Hne].
    intros E. destruct Ha as [Hp _]. rewrite E, Hp in Hb. by destruct o.
  - intros Hbound.
    destruct (add_seq_spec p belems h a elems Hwf Ha ltac:(lia))
      as (h' & _ & Hrun & _). eauto.
  - intros Hc0. destruct belems; [done|]. simpl in Hcnt. lia.
Qed.

Lemma strarray_addall_appends_witness :
  ∃ h' a',
    strarray_addall 8 (StrArray 2 16 7) example_heap_dup = Ok (tt, h') ∧
    array_at h' 8 a' [CPtr 6 0; CPtr 6 0] ∧ count a' = 2.
Proof.
  destruct (strarray_addall_appends example_heap_dup 8 empty_strarray []
              (StrArray 2 16 7) [CPtr 6 0; CPtr 6 0]
              heap_wf_example_dup array_at_example_dup value_at_example_dup
              ltac:(left; simpl; lia))
    as (_ & Hpost & Htotal & _).
  destruct Htotal as [h' Hrun]; [simpl; lia|].
  destruct (Hpost h' Hrun) as (a' & Ha' & Hcnt & _).
  exists h', a'. split; [done|]. split; [exact Ha'|exact Hcnt].
Defined.

(** ** strarray_addall_uniq *)

Lemma elem_of_uniq_app strs t x : x ∈ uniq_app strs t ↔ x ∈ strs ∨ x = t.
Proof.
  unfold uniq_app. case_decide.
  - split; [by left|]. by intros [?| ->].
  - by rewrite elem_of_app, list_elem_of_singleton.
Qed.

Lemma elem_of_foldl_uniq_app bstrs : ∀ strs x,
  x ∈ foldl uniq_app strs bstrs ↔ x ∈ strs ∨ x ∈ bstrs.
Proof.
  induction bstrs as [|t bstrs IH]; intros strs x; simpl.
  - rewrite elem_of_nil. tauto.
  - rewrite IH, elem_of_uniq_app, elem_of_cons. tauto.
Qed.

(** A call of [strarray_addall_uniq] all of whose strings are in the
    array changes nothing, wherever the source is. *)
Lemma strarray_addall_uniq_loop_noop p added belems bstrs h a elems strs :
  array_at h p a elems → strings_at h elems strs →
  value_at h added belems → strings_at h belems bstrs →
  (∀ t, t ∈ bstrs → t ∈ strs) →
  ∀ (n i : nat), (i + n = length belems)%nat →
    strarray_addall_uniq_loop p added (Z.of_nat i) n h = Ok (tt, h).
Proof.
  intros Ha Hstrs Hv Hbstrs Hsub.
  induction n as [|n IH]; intros i Hi; [done|].
  destruct (lookup_lt_is_Some_2 belems i) as [e He]; [lia|].
  destruct (Forall2_lookup_l _ _ _ _ _ Hbstrs He) as (t & Ht & Hcs).
  simpl. rewrite (bindM_Ok _ _ _ _ _ (value_at_load_cell _ _ _ _ _ Hv He)).
  pose proof (strarray_add_uniq_eq _ _ _ _ _ _ _ Ha Hstrs Hcs) as Hau.
  rewrite decide_True in Hau by (apply Hsub; by eapply list_elem_of_lookup_2).
  rewrite (bindM_Ok _ _ _ _ _ Hau).
  replace (Z.of_nat i + 1) with (Z.of_nat (S i)) by lia.
  apply IH. lia.
Qed.

Lemma strarray_addall_uniq_loop_post p added bcells belems bstrs :
  ∀ (n i : nat) h a elems strs h',
    heap_wf h → array_at h p a elems → strings_at h elems strs →
    objs h !! str added = Some (OPtrs bcells) →
    take (length belems) bcells = Some <$> belems →
    strings_at h belems bstrs →
    (i + n = length belems)%nat →
    str added ≠ str a →
    strarray_addall_uniq_loop p added (Z.of_nat i) n h = Ok (tt, h') →
    ∃ a' elems',
      heap_wf h' ∧ array_at h' p a' elems' ∧
      strings_at h' elems' (foldl uniq_app strs (drop i bstrs)) ∧
      elems `prefix_of` elems' ∧
      chars_preserved h h' ∧
      objs h' !! str added = Some (OPtrs bcells) ∧
      count a ≤ count a' ≤ count a + Z.of_nat n.
Proof.
  induction n as [|n IH];
    intros i h a elems strs h' Hwf Ha Hstrs Hb Htake Hbstrs Hi Hne Hrun.
  - injection Hrun as <-. exists a, elems.
    pose proof (Forall2_length _ _ _ Hbstrs).
    rewrite drop_ge by lia. simpl.
    split; [done|]. split; [done|]. split; [done|]. split; [done|].
    split; [apply chars_preserved_refl|]. split; [done|lia].
  - destruct (lookup_lt_is_Some_2 belems i) as [e He]; [lia|].
    destruct (Forall2_lookup_l _ _ _ _ _ Hbstrs He) as (t & Ht & Hcs).
    assert (Hcell : bcells !! i = Some (Some e)).
    { rewrite <- (lookup_take_lt bcells (length belems)) by lia.
      by rewrite Htake, list_lookup_fmap, He. }
    simpl in Hrun.
    rewrite (bindM_Ok _ _ _ _ _ (load_cell_eq _ _ _ _ _ Hb Hcell)) in Hrun.
    replace (Z.of_nat i + 1) with (Z.of_nat (S i)) in Hrun by lia.
    apply bindM_inv in Hrun as ([] & h1 & Hau & Hrun).
    rewrite (strarray_add_uniq_eq _ _ _ _ _ _ _ Ha Hstrs Hcs) in Hau.
    rewrite (drop_S _ _ _ Ht). simpl. unfold uniq_app at 2.
    destruct (decide (t ∈ strs)) as [Hin|Hout].
    + injection Hau as <-.
      destruct (IH (S i) h a elems strs h' Hwf Ha Hstrs Hb Htake Hbstrs
                  ltac:(lia) Hne Hrun)
        as (a' & elems' & ? & ? & ? & ? & ? & ? & ?).
      exists a', elems'. repeat (split; [done|]). lia.
    + pose proof (strarray_add_inv _ _ _ _ _ _ Hwf Ha Hau) as Hroom.
      destruct (strarray_add_spec h p a elems e Hwf Ha Hroom)
        as (h1' & a1 & Hadd' & Hwf1 & Ha1 & Hcnt1 & _ & Hstr1 & _ & Hframe & _).
      rewrite Hau in Hadd'. injection Hadd' as <-.
      pose proof (strarray_add_chars _ _ _ _ _ _ Hwf Ha Hau) as Hch1.
      assert (Hlive : str added ≠ next h).
      { intros E. rewrite E, heap_wf_fresh in Hb; done. }
      assert (Hp : str added ≠ p).
      { intros E. destruct Ha as [Hp _]. rewrite E, Hp in Hb. done. }
      assert (Hne1 : str added ≠ str a1).
      { destruct (decide (count a = size a)); destruct Hstr1; congruence. }
      destruct (IH (S i) h1 a1 (elems ++ [e]) (strs ++ [t]) h' Hwf1 Ha1)
        as (a' & elems' & Hwf' & Ha' & Hstrs' & Hpre & Hch' & Hb' & Hcnt');
        try done; try lia.
      * apply Forall2_app; [by eapply strings_at_preserved|].
        constructor; [by eapply cstr_at_preserved|constructor].
      * by rewrite Hframe.
      * by eapply strings_at_preserved.
      * exists a', elems'. split; [done|]. split; [done|]. split; [done|].
        split; [etrans; [|exact Hpre]; by apply prefix_app_r|].
        split; [by eapply chars_preserved_trans|]. split; [done|lia].
Qed.

(** X6.  [strarray_addall_uniq] from an array value whose cells are not
    those of the target adds, in order, the strings of the source that
    the target does not hold yet, each once: afterwards the target holds
    exactly the strings of both, its old elements stay where they were,
    and a second call with the same source changes nothing. *)
Theorem strarray_addall_uniq_union h p a elems strs added belems bstrs :
  heap_wf h → array_at h p a elems → strings_at h elems strs →
  value_at h added belems → strings_at h belems bstrs →
  str added ≠ str a ∨ str added = 0 →
  (∀ h', strarray_addall_uniq p added h = Ok (tt, h') →
     ∃ a' elems',
       array_at h' p a' elems' ∧
       strings_at h' elems' (foldl uniq_app strs bstrs) ∧
       elems `prefix_of` elems' ∧
       (∀ t, t ∈ foldl uniq_app strs bstrs ↔ t ∈ strs ∨ t ∈ bstrs) ∧
       count a ≤ count a' ≤ count a + count added ∧
       strarray_addall_uniq p added h' = Ok (tt, h')) ∧
  (count a + count added ≤ 2 ^ 31 →
     ∃ h', strarray_addall_uniq p added h = Ok (tt, h')).
Proof.
  intros Hwf Ha Hstrs Hv Hbstrs Hne. split.
  2: { intros Hb. by eapply strarray_addall_uniq_total. }
  intros h' Hrun.
  pose proof Hv as (bcells & Hcells & Hlen & Hsz & Hcnt & Htake).
  assert (Hpost : ∃ a' elems',
            heap_wf h' ∧ array_at h' p a' elems' ∧
            strings_at h' elems' (foldl uniq_app strs bstrs) ∧
            elems `prefix_of` elems' ∧ chars_preserved h h' ∧
            value_at h' added belems ∧
            count a ≤ count a' ≤ count a + count added).
  { unfold strarray_addall_uniq in Hrun. rewrite <- Hcnt, Nat2Z.id in Hrun.
    unfold cells_of in Hcells. destruct (decide (str added = 0)) as [E0|E0].
    - inversion Hcells; subst bcells. rewrite take_nil in Htake.
      destruct belems; [|done]. inversion Hbstrs; subst bstrs.
      injection Hrun as <-. exists a, elems. simpl.
      split; [done|]. split; [done|]. split; [done|]. split; [done|].
      split; [apply chars_preserved_refl|]. split; [done|]. simpl in Hcnt. lia.
    - destruct (objs h !! str added) as [[]|] eqn:Hb; try done.
      inversion Hcells; subst cells.
      destruct (strarray_addall_uniq_loop_post p added bcells belems bstrs
                  (length belems) 0 h a elems strs h' Hwf Ha Hstrs Hb Htake Hbstrs
                  ltac:(lia) ltac:(by destruct Hne) Hrun)
        as (a' & elems' & Hwf' & Ha' & Hstrs' & Hpre & Hch & Hb' & Hcnt').
      rewrite drop_0 in Hstrs'. exists a', elems'.
      split; [done|]. split; [done|]. split; [done|]. split; [done|].
      split; [done|]. split; [|lia].
      exists bcells. unfold cells_of. rewrite decide_False by done. by rewrite Hb'. }
  destruct Hpost as (a' & elems' & Hwf' & Ha' & Hstrs' & Hpre & Hch & Hv' & Hcnt').
  exists a', elems'. split; [done|]. split; [done|]. split; [done|].
  split; [apply elem_of_foldl_uniq_app|]. split; [done|].
  unfold strarray_addall_uniq. rewrite <- Hcnt, Nat2Z.id.
  assert (Hsub : ∀ t, t ∈ bstrs → t ∈ foldl uniq_app strs bstrs)
    by (intros t Ht; apply elem_of_foldl_uniq_app; by right).
  apply (strarray_addall_uniq_loop_noop p added belems bstrs h' a' elems'
           (foldl uniq_app strs bstrs) Ha' Hstrs' Hv'
           (strings_at_preserved _ _ _ _ Hch Hbstrs) Hsub
           (length belems) 0%nat). lia.
Qed.

Lemma strarray_addall_uniq_union_witness :
  ∃ h' a' elems',
    strarray_addall_uniq 8 (StrArray 2 16 7) example_heap_dup = Ok (tt, h') ∧
    array_at h' 8 a' elems' ∧ strings_at h' elems' [["x"%char]] ∧
    strarray_addall_uniq 8 (StrArray 2 16 7) h' = Ok (tt, h').
Proof.
  destruct (strarray_addall_uniq_union example_heap_dup 8 empty_strarray [] []
              (StrArray 2 16 7) [CPtr 6 0; CPtr 6 0] [["x"%char]; ["x"%char]]
              heap_wf_example_dup array_at_example_dup (List.Forall2_nil _)
              value_at_example_dup strings_at_example_dup
              ltac:(left; simpl; lia))
    as [Hpost Htotal].
  destruct Htotal as [h' Hrun]; [simpl; lia|].
  destruct (Hpost h' Hrun) as (a' & elems' & Ha' & Hstrs' & _ & _ & _ & Hagain).
  exists h', a', elems'. split; [done|]. split; [done|]. split; [exact Hstrs'|done].
Defined.

(** X7.  [strarray_addall_uniq] from a source all of whose strings the
    target holds changes nothing, whatever cells the source is read
    from; so appending an array to itself with [strarray_addall_uniq]
    completes and leaves the memory as it is. *)
Theorem strarray_addall_uniq_self h p a elems strs :
  array_at h p a elems → strings_at h elems strs →
  strarray_addall_uniq p a h = Ok (tt, h) ∧
  ∀ added belems bstrs,
    value_at h added belems → strings_at h belems bstrs →
    (∀ t, t ∈ bstrs → t ∈ strs) →
    strarray_addall_uniq p added h = Ok (tt, h).
Proof.
  intros Ha Hstrs.
  assert (Hgen : ∀ added belems bstrs,
            value_at h added belems → strings_at h belems bstrs →
            (∀ t, t ∈ bstrs → t ∈ strs) →
            strarray_addall_uniq p added h = Ok (tt, h)).
  { intros added belems bstrs Hv Hbstrs Hsub.
    pose proof Hv as (_ & _ & _ & _ & Hcnt & _).
    unfold strarray_addall_uniq. rewrite <- Hcnt, Nat2Z.id.
    apply (strarray_addall_uniq_loop_noop p added belems bstrs h a elems strs
             Ha Hstrs Hv Hbstrs Hsub (length belems) 0%nat). lia. }
  split; [|exact Hgen].
  apply (Hgen a elems strs); [by destruct Ha|done|done].
Qed.

Lemma strarray_addall_uniq_self_witness :
  strarray_addall_uniq 5 (StrArray 3 16 9) example_heap_abc = Ok (tt, example_heap_abc).
Proof.
  apply (strarray_addall_uniq_self example_heap_abc 5 (StrArray 3 16 9)
           [CPtr 6 0; CPtr 7 0; CPtr 8 0] [["a"%char]; ["b"%char]; ["c"%char]]
           array_at_example_abc strings_at_example_abc).
Defined.

(** ** Joining and splitting again *)

Lemma split_spec_delims_app d ds s :
  Forall (λ c, c ∈ d) ds → split_spec d (ds ++ s) = split_spec d s.
Proof.
  induction 1 as [|c ds Hc _ IH]; [done|].
  simpl. by rewrite split_spec_delim.
Qed.

Lemma split_spec_join sp strs :
  sp ≠ [] → Forall (λ t, t ≠ [] ∧ Forall (λ c, c ∉ sp) t) strs →
  split_spec sp (join_spec sp strs) = strs.
Proof.
  intros Hsp Hall. induction Hall as [|t ts [Hne Ht] _ IH]; [done|].
  destruct ts as [|t' ts]; [by apply split_spec_last|].
  destruct sp as [|c sp']; [done|].
  change (join_spec (c :: sp') (t :: t' :: ts))
    with (t ++ c :: (sp' ++ join_spec (c :: sp') (t' :: ts))).
  rewrite split_spec_token; [|done|done|by left].
  rewrite split_spec_delims_app; [by rewrite IH|].
  apply Forall_forall. intros x Hx. by right.
Qed.

Lemma length_join_spec_ge sp strs :
  sp ≠ [] → Forall (λ t : list ascii, t ≠ []) strs →
  (2 * length strs ≤ length (join_spec sp strs) + 1)%nat.
Proof.
  intros Hsp Hall. induction Hall as [|t ts Hne _ IH]; [simpl; lia|].
  destruct ts as [|t' ts].
  - simpl. destruct t; [done|]. simpl. lia.
  - change (join_spec sp (t :: t' :: ts))
      with (t ++ sp ++ join_spec sp (t' :: ts)).
    rewrite !length_app.
    destruct t; [done|]. destruct sp; [done|]. simpl length in *. lia.
Qed.

Lemma statics_at_with_buf h bs : heap_wf h → statics_at h → statics_at (with_buf h bs).
Proof.
  intros Hwf (H1 & H2 & H3 & H4).
  split; [by apply with_buf_lookup_old|].
  split; [|split]; by apply with_buf_cstr_old.
Qed.

(** X8.  Splitting what [strarray_tostring] joined gives the strings
    back: when the separator is not empty and the strings of the array
    are not empty and hold no character of the separator,
    [strarray_fromstring] of the joined string with the separator as
    delimiters returns an array of copies of the same strings, in the
    same order.  Both calls complete when the joined string and its
    terminator fit in 32 bits. *)
Theorem strarray_tostring_fromstring h a elems strs sep sp :
  heap_wf h → statics_at h → value_at h a elems →
  strings_at h elems strs → cstr_at h sep = Some sp →
  sp ≠ [] → Forall (λ t, t ≠ [] ∧ Forall (λ c, c ∉ sp) t) strs →
  (∀ s h1 r h2,
     strarray_tostring a sep h = Ok (s, h1) →
     strarray_fromstring s sep h1 = Ok (r, h2) →
     ∃ elems', value_at h2 r elems' ∧ strings_at h2 elems' strs ∧
               count r = count a ∧
               strings_at h2 elems strs) ∧
  (Z.of_nat (length (join_spec sp strs)) + 1 < 2 ^ 32 →
     ∃ s h1 r h2,
       strarray_tostring a sep h = Ok (s, h1) ∧
       strarray_fromstring s sep h1 = Ok (r, h2)) ∧
  split_spec sp (join_spec sp strs) = strs.
Proof.
  intros Hwf Hstat Hv Hstrs Hsep Hsp Hall.
  pose proof (split_spec_join sp strs Hsp Hall) as Hround.
  destruct (strarray_tostring_spec h a elems strs sep sp Hwf Hstat Hv Hstrs Hsep)
    as [Hfit Hno].
  cbv zeta in Hfit, Hno.
  assert (Hboth : Z.of_nat (length (join_spec sp strs)) + 1 < 2 ^ 32 →
            ∃ bs, strarray_tostring a sep h = Ok (CPtr (next h) 0, with_buf h bs) ∧
              (∀ r h2, strarray_fromstring (CPtr (next h) 0) sep (with_buf h bs)
                         = Ok (r, h2) →
                 ∃ elems', value_at h2 r elems' ∧ strings_at h2 elems' strs ∧
                           count r = count a ∧ strings_at h2 elems strs) ∧
              ∃ r h2, strarray_fromstring (CPtr (next h) 0) sep (with_buf h bs)
                        = Ok (r, h2)).
  { intros Hsmall. destruct (Hfit Hsmall) as (bs & Hrun & Hread & Hlen).
    exists bs. split; [done|].
    pose proof (heap_wf_with_buf h bs Hwf) as Hwf1.
    pose proof (statics_at_with_buf h bs Hwf Hstat) as Hstat1.
    assert (Hs1 : cstr_at (with_buf h bs) (CPtr (next h) 0)
                  = Some (join_spec sp strs)) by (by rewrite cstr_at_with_buf).
    pose proof (with_buf_cstr_old h bs _ _ Hwf Hsep) as Hsep1.
    destruct (strarray_fromstring_spec (with_buf h bs) (CPtr (next h) 0) sep
                (join_spec sp strs) sp Hwf1 Hstat1 Hs1 Hsep1) as [Hpart Htot].
    rewrite Hround in Hpart, Htot. split.
    - intros r h2 Hrun2.
      destruct (Hpart r h2 Hrun2) as (_ & elems' & Hv' & Hstrs' & _ & Hold).
      exists elems'. split; [done|]. split; [done|]. split.
      + pose proof (Forall2_length _ _ _ Hstrs').
        pose proof (Forall2_length _ _ _ Hstrs).
        destruct Hv' as (? & _ & _ & _ & ? & _).
        destruct Hv as (? & _ & _ & _ & ? & _). lia.
      + eapply strings_at_preserved; [|exact Hstrs].
        intros b bs' Hb. apply Hold. by apply with_buf_lookup_old.
    - apply Htot; [lia|].
      assert (Hne : Forall (λ t : list ascii, t ≠ []) strs)
        by (eapply Forall_impl; [exact Hall|]; by intros t [? _]).
      pose proof (length_join_spec_ge sp strs Hsp Hne). lia. }
  split; [|split; [|done]].
  - intros s h1 r h2 Hrun1 Hrun2.
    destruct (decide (Z.of_nat (length (join_spec sp strs)) + 1 < 2 ^ 32))
      as [Hsmall|Hbig]; [|by rewrite (Hno Hbig) in Hrun1].
    destruct (Hboth Hsmall) as (bs & Hrun1' & Hpost & _).
    rewrite Hrun1 in Hrun1'. injection Hrun1' as -> ->. by apply Hpost.
  - intros Hsmall. destruct (Hboth Hsmall) as (bs & Hrun1 & _ & r & h2 & Hrun2).
    eauto 6.
Qed.

Lemma strarray_tostring_fromstring_witness :
  ∃ s h1 r h2 elems',
    strarray_tostring (StrArray 3 16 9) (CPtr 10 0) example_heap_abc = Ok (s, h1) ∧
    strarray_fromstring s (CPtr 10 0) h1 = Ok (r, h2) ∧
    value_at h2 r elems' ∧
    strings_at h2 elems' [["a"%char]; ["b"%char]; ["c"%char]].
Proof.
  destruct (strarray_tostring_fromstring example_heap_abc (StrArray 3 16 9)
              [CPtr 6 0; CPtr 7 0; CPtr 8 0]
              [["a"%char]; ["b"%char]; ["c"%char]] (CPtr 10 0) [","%char]
              heap_wf_example_abc statics_at_example_abc
              (proj2 array_at_example_abc) strings_at_example_abc eq_refl)
    as (Hpost & Htotal & _).
  - done.
  - repeat constructor; try done; by intros ?%list_elem_of_singleton.
  - destruct Htotal as (s & h1 & r & h2 & Hrun1 & Hrun2); [vm_compute; reflexivity|].
    destruct (Hpost s h1 r h2 Hrun1 Hrun2) as (elems' & Hv & Hstrs & _).
    exists s, h1, r, h2, elems'. split; [done|]. split; [done|]. split; [done|exact Hstrs].
Defined.

(** ** The capacity of an array *)

(** X9.  [strarray_add] keeps the capacity as the doubling from 16 makes
    it: the capacity of an array grown from [empty_strarray] is 0 or 16
    doubled some number of times, never below [count], below twice
    [count] once above 16, and a call leaves it as it is, makes it 16 or
    doubles it.  [strarray_add_uniq] keeps it in the same way. *)
Theorem strarray_add_capacity h p a elems s :
  heap_wf h → array_at h p a elems → capacity_ok a →
  capacity_ok empty_strarray ∧
  (∀ h', strarray_add p s h = Ok (tt, h') →
     ∃ a', objs h' !! p = Some (OStruct a') ∧ capacity_ok a' ∧
           (size a' = size a ∨ (size a = 0 ∧ size a' = 16) ∨ size a' = 2 * size a)) ∧
  (∀ strs t h', strings_at h elems strs → cstr_at h s = Some t →
     strarray_add_uniq p s h = Ok (tt, h') →
     ∃ a', objs h' !! p = Some (OStruct a') ∧ capacity_ok a' ∧
           (size a' = size a ∨ (size a = 0 ∧ size a' = 16) ∨ size a' = 2 * size a)).
Proof.
  intros Hwf Ha Hcap.
  assert (Hadd : ∀ h', strarray_add p s h = Ok (tt, h') →
     ∃ a', objs h' !! p = Some (OStruct a') ∧ capacity_ok a' ∧
           (size a' = size a ∨ (size a = 0 ∧ size a' = 16) ∨ size a' = 2 * size a)).
  { intros h' Hrun.
    pose proof (strarray_add_inv _ _ _ _ _ _ Hwf Ha Hrun) as Hroom.
    destruct (strarray_add_spec h p a elems s Hwf Ha Hroom)
      as (h1 & a' & Hrun' & _ & Ha' & Hcnt & Hsz & _).
    rewrite Hrun in Hrun'. injection Hrun' as <-.
    exists a'. split; [by destruct Ha'|].
    pose proof (array_at_count_le _ _ _ _ Ha) as Hle.
    unfold grown_size in Hsz.
    destruct Hcap as [[Hc0 Hs0]|(k & Hk & Hc & Hhalf)].
    - rewrite decide_True, decide_False in Hsz by lia.
      split; [|lia]. right. exists 0%nat. simpl. lia.
    - destruct (decide (count a = size a)) as [Hfull|Hnot].
      + rewrite decide_True in Hsz by lia. split; [|lia].
        right. exists (S k). rewrite Nat2Z.inj_succ, Z.pow_succ_r by lia. lia.
      + split; [|lia]. right. exists k. lia. }
  split; [left; by split|]. split; [exact Hadd|].
  intros strs t h' Hstrs Hs Hrun.
  rewrite (strarray_add_uniq_eq _ _ _ _ _ _ _ Ha Hstrs Hs) in Hrun.
  destruct (decide (t ∈ strs)); [|by apply Hadd].
  injection Hrun as <-.
  exists a. split; [by destruct Ha|]. split; [done|by left].
Qed.

Lemma strarray_add_capacity_witness :
  ∃ a', strarray_add 5 (CPtr 6 0) example_heap = Ok (tt, example_heap1) ∧
        objs example_heap1 !! 5 = Some (OStruct a') ∧ size a' = 16.
Proof.
  destruct (strarray_add_capacity example_heap 5 empty_strarray [] (CPtr 6 0)
              heap_wf_example array_at_example ltac:(left; by split))
    as (_ & Hadd & _).
  destruct (Hadd example_heap1 example_heap1_add) as (a' & Hp & _ & Hsz).
  exists a'. split; [exact example_heap1_add|]. split; [exact Hp|].
  assert (a' = StrArray 1 16 7) as -> by (by injection Hp). done.
Defined.

(** ** xstrdup *)

(** X10.  [xstrdup] returns a pointer, never null, to the start of a
    block that did not exist before, of exactly the size of the string
    and its terminator, holding the same characters; the source and
    everything else in the memory stay as they are.  It completes
    whenever that size fits [size_t]. *)
Theorem xstrdup_copy h s t :
  heap_wf h → cstr_at h s = Some t →
  (∀ p h', xstrdup s h = Ok (p, h') →
     p ≠ NULL ∧ coff p = 0 ∧ objs h !! cblk p = None ∧
     objs h' !! cblk p = Some (OChars (Some <$> t ++ [NUL])) ∧
     cstr_at h' p = Some t ∧ cstr_at h' s = Some t ∧
     (∀ b o, objs h !! b = Some o → objs h' !! b = Some o) ∧
     heap_wf h') ∧
  (Z.of_nat (length t) + 1 < 2 ^ 64 → ∃ p h', xstrdup s h = Ok (p, h')).
Proof.
  intros Hwf Hs. rewrite (xstrdup_iff h s t Hwf Hs). split.
  - intros p h' Hrun. case_decide as Hfit; [|done].
    injection Hrun as <- <-. simpl.
    split; [intros [=]; destruct Hwf; lia|]. split; [done|].
    split; [by apply heap_wf_fresh|].
    split; [by rewrite lookup_insert_eq|].
    split; [|split; [by apply with_buf_cstr_old|split]].
    + rewrite cstr_at_with_buf, fmap_app. apply read_cstr_app.
      by eapply cstr_at_nul_free.
    + intros b o Hb. by apply with_buf_lookup_old.
    + by apply heap_wf_with_buf.
  - intros Hfit. rewrite decide_True by done. eauto.
Qed.

Lemma xstrdup_copy_witness :
  ∃ p h', xstrdup (CPtr 11 0) example_heap_abc = Ok (p, h') ∧
          cstr_at h' p = Some (list_ascii_of_string "a:b::c") ∧
          cblk p ≠ 11.
Proof.
  destruct (xstrdup_copy example_heap_abc (CPtr 11 0) (list_ascii_of_string "a:b::c")
              heap_wf_example_abc eq_refl) as [Hpost Htotal].
  destruct Htotal as (p & h' & Hrun); [vm_compute; reflexivity|].
  destruct (Hpost p h' Hrun) as (_ & _ & Hfresh & _ & Hcopy & _).
  exists p, h'. split; [done|]. split; [done|].
  intros E. rewrite E in Hfresh. vm_compute in Hfresh. discriminate.
Defined.

(** ** strarray_add at the end of the range of unsigned int *)

Lemma heap_wf_example_full n : heap_wf (example_heap_full n).
Proof.
  split; [done|].
  intros b o. unfold example_heap_full, initial_objs. simpl.
  rewrite !lookup_insert. repeat case_decide; subst; try lia.
  by rewrite lookup_empty.
Qed.

Lemma array_at_example_full n :
  Z.of_nat n < 2 ^ 32 →
  array_at (example_heap_full n) 5 (StrArray (Z.of_nat n) (Z.of_nat n) 7)
    (replicate n (CPtr 6 0)).
Proof.
  intros Hn. split; [done|]. exists (replicate n (Some (CPtr 6 0))).
  split; [done|]. rewrite !length_replicate.
  split; [done|]. split; [done|]. split; [done|].
  by rewrite take_replicate, Nat.min_id, fmap_replicate.
Qed.

(** X11.  On an array in memory [strarray_add] has undefined behaviour
    exactly when the array is full with 2^31 elements or more: doubling
    the [unsigned int] capacity wraps, so the cells are released or
    shrunk before the element is stored beyond them.  In every other
    case the call completes. *)
Theorem strarray_add_undefined h p a elems s :
  heap_wf h → array_at h p a elems →
  (strarray_add p s h = Undef ↔ count a = size a ∧ 2 ^ 31 ≤ size a) ∧
  ((∃ h', strarray_add p s h = Ok (tt, h')) ↔ count a < size a ∨ size a < 2 ^ 31).
Proof.
  intros Hwf Ha. pose proof (array_at_count_le _ _ _ _ Ha) as Hle.
  assert (Hok : count a < size a ∨ size a < 2 ^ 31 →
                ∃ h', strarray_add p s h = Ok (tt, h')).
  { intros Hroom. destruct (strarray_add_spec h p a elems s Hwf Ha Hroom)
      as (h' & _ & Hrun & _). eauto. }
  split; split.
  - intros Hun.
    destruct (decide (count a < size a ∨ size a < 2 ^ 31)) as [Hroom|Hfull]; [|lia].
    destruct (Hok Hroom) as [h' Hrun]. by rewrite Hrun in Hun.
  - intros [Hfull Hbig]. by eapply strarray_add_overflow.
  - intros [h' Hrun]. by eapply strarray_add_inv.
  - exact Hok.
Qed.

Lemma strarray_add_undefined_witness :
  strarray_add 5 (CPtr 6 0) (example_heap_full (Z.to_nat (2 ^ 31))) = Undef.
Proof.
  assert (H : ∀ n, Z.of_nat n = 2 ^ 31 →
            strarray_add 5 (CPtr 6 0) (example_heap_full n) = Undef).
  { intros n Hn.
    apply (strarray_add_undefined (example_heap_full n) 5
             (StrArray (Z.of_nat n) (Z.of_nat n) 7) (replicate n (CPtr 6 0))
             (CPtr 6 0) (heap_wf_example_full n)
             (array_at_example_full n ltac:(lia))).
    split; [reflexivity|]. change (2 ^ 31 ≤ Z.of_nat n). lia. }
  apply H. apply Z2Nat.id. apply Z.pow_nonneg. lia.
Defined.

(** ** strmake beyond the range of int *)

Lemma strmake_loop_too_long e :
  INT_MAX < Z.of_nat (length (rendered e)) →
  ∀ fuel sz h, heap_wf h → 0 ≤ sz → strmake_loop fuel e sz h = Timeout.
Proof.
  intros Hlen. induction fuel as [|fuel IH]; intros sz h Hwf Hsz; [done|].
  rewrite strmake_loop_unfold by done. cbv zeta. rewrite decide_True by done.
  apply IH; [by apply heap_wf_bump|]. apply wrap64_range.
Qed.

(** X12.  [strmake] does not return when the text is longer than
    [INT_MAX]: [vsnprintf] reports -1 for every buffer and the loop only
    doubles the size.  When the text has exactly [INT_MAX] characters
    and [vsnprintf] reports that length for the first buffer, the size
    [n + 1] of the next one overflows [int]. *)
Theorem strmake_beyond_int e h :
  heap_wf h →
  (INT_MAX < Z.of_nat (length (rendered e)) →
     ∀ fuel, strmake fuel e h = Timeout) ∧
  (Z.of_nat (length (rendered e)) = INT_MAX → legacy e 100 = false →
     ∀ fuel, strmake (S fuel) e h = Undef).
Proof.
  intros Hwf. split.
  - intros Hlen fuel. by apply strmake_loop_too_long.
  - intros Hlen Hleg fuel. unfold strmake.
    rewrite strmake_loop_unfold by (done || lia). cbv zeta.
    rewrite Hlen, Hleg. unfold INT_MAX.
    rewrite decide_False by lia. rewrite decide_False by lia.
    by rewrite decide_False by lia.
Qed.

Lemma length_rendered_replicate n c f :
  Z.of_nat (length (rendered (Engine (replicate n c) f))) = Z.of_nat n.
Proof. simpl. by rewrite length_replicate. Qed.

Lemma strmake_beyond_int_witness :
  strmake 1 (Engine (replicate (Z.to_nat INT_MAX) "a"%char) (λ _, false)) initial_heap
    = Undef ∧
  strmake 26 (Engine (replicate (Z.to_nat (INT_MAX + 1)) "a"%char) (λ _, false))
    initial_heap = Timeout.
Proof.
  assert (H0 : 0 ≤ INT_MAX) by (unfold INT_MAX; lia).
  split.
  - apply (strmake_beyond_int _ initial_heap heap_wf_initial); [|reflexivity].
    rewrite length_rendered_replicate. by apply Z2Nat.id.
  - apply (strmake_beyond_int _ initial_heap heap_wf_initial).
    rewrite length_rendered_replicate. rewrite Z2Nat.id; lia.
Defined.

(** ** strarray_qsort *)

Lemma insert_sorted_perm cmp x l : insert_sorted cmp x l ≡ₚ x :: l.
Proof.
  induction l as [|y l IH]; simpl; [done|].
  case_decide; [done|]. rewrite IH. apply Permutation_swap.
Qed.

Lemma insertion_sort_perm cmp l : insertion_sort cmp l ≡ₚ l.
Proof.
  induction l as [|x l IH]; simpl; [done|].
  by rewrite insert_sorted_perm, IH.
Qed.

Lemma insert_sorted_ascending cmp dom x l :
  consistent_order cmp dom → x ∈ dom → Forall (λ y, y ∈ dom) l →
  ascending cmp l → ascending cmp (insert_sorted cmp x l).
Proof.
  intros [Hanti Htrans] Hx. induction l as [|y l IH]; intros Hdom Hasc; simpl.
  - by split.
  - apply Forall_cons in Hdom as [Hy Hdom]. destruct Hasc as [Hyl Hasc].
    case_decide as Hxy.
    + split; [|by split]. constructor; [done|].
      rewrite Forall_forall in Hyl, Hdom |- *. intros z Hz.
      apply (Htrans x y z); auto.
    + split; [|by apply IH].
      assert (Hyx : cmp y x ≤ 0) by (assert (cmp y x < 0) by (apply Hanti; [done..|lia]); lia).
      rewrite insert_sorted_perm. by constructor.
Qed.

Lemma insertion_sort_ascending cmp dom l :
  consistent_order cmp dom → Forall (λ y, y ∈ dom) l →
  ascending cmp (insertion_sort cmp l).
Proof.
  intros Hord. induction l as [|x l IH]; intros Hdom; simpl; [done|].
  apply Forall_cons in Hdom as [Hx Hdom].
  apply (insert_sorted_ascending cmp dom); [done..| |by apply IH].
  rewrite Forall_forall in Hdom |- *. intros y Hy. apply Hdom.
  by rewrite <- (insertion_sort_perm cmp l).
Qed.

Lemma ascending_sorted_by cmp l : ascending cmp l → sorted_by cmp l.
Proof.
  induction l as [|x l IH]; intros Hasc i j ei ej Hij Hi Hj; [done|].
  destruct Hasc as [Hxl Hasc]. destruct j as [|j]; [lia|]. simpl in Hj.
  destruct i as [|i].
  - injection Hi as <-. rewrite Forall_forall in Hxl. apply Hxl.
    by eapply list_elem_of_lookup_2.
  - simpl in Hi. apply (IH Hasc i j); [lia|done..].
Qed.

(** [strarray_qsort] on an array in memory. *)
Lemma strarray_qsort_spec h p a elems func :
  heap_wf h → array_at h p a elems →
  consistent_order (func h) elems →
  ∃ elems' h',
    strarray_qsort p func h = Ok (tt, h') ∧
    heap_wf h' ∧ array_at h' p a elems' ∧
    elems' ≡ₚ elems ∧ sorted_by (func h) elems' ∧
    (∀ b, b ≠ str a → objs h' !! b = objs h !! b) ∧
    (∀ cells, objs h !! str a = Some (OPtrs cells) →
       ∃ cells', objs h' !! str a = Some (OPtrs cells') ∧
                 drop (length elems) cells' = drop (length elems) cells) ∧
    chars_preserved h h' ∧ chars_preserved h' h ∧
    (count a = 0 → h' = h).
Proof.
  intros Hwf Ha Hord. pose proof Ha as [Hp Hv].
  pose proof Hv as (cells & Hcells & Hlen & Hsz & Hcnt & Htake).
  unfold strarray_qsort. rewrite (bindM_Ok _ _ _ _ _ (load_struct_eq _ _ _ Hp)).
  destruct (decide (count a ≠ 0)) as [Hne|He].
  - unfold cells_of in Hcells. destruct (decide (str a = 0)) as [E0|E0].
    { injection Hcells as <-. rewrite take_nil in Htake.
      destruct elems; [simpl in Hcnt; lia|done]. }
    destruct (objs h !! str a) as [[|cells0|]|] eqn:Hb; try done.
    injection Hcells as ->.
    pose proof (array_at_count_le _ _ _ _ Ha) as Hle.
    assert (Hn : (length elems ≤ length cells)%nat) by lia.
    set (sorted := insertion_sort (func h) elems).
    set (cells' := (Some <$> sorted) ++ drop (length elems) cells).
    assert (Hperm : sorted ≡ₚ elems) by apply insertion_sort_perm.
    assert (Hslen : length sorted = length elems) by (by rewrite Hperm).
    exists sorted, (set_objs h (<[str a := OPtrs cells']> (objs h))).
    assert (Hpne : p ≠ str a) by (intros E; rewrite <- E, Hp in Hb; done).
    split; [|split; [|split; [|split; [|split; [|split; [|split; [|split; [|split]]]]]]]].
    + unfold qsort. rewrite Hb. rewrite decide_True by lia.
      rewrite <- Hcnt, Nat2Z.id, Htake.
      by rewrite (mapM_fmap_Some id Some elems).
    + apply heap_wf_update; [by rewrite Hb|done].
    + split; [simpl; by rewrite lookup_insert_ne|].
      exists cells'. split.
      { unfold cells_of. rewrite decide_False by done. simpl.
        by rewrite lookup_insert_eq. }
      split.
      { unfold cells'. rewrite length_app, length_fmap, length_drop. lia. }
      split; [done|]. split; [lia|].
      unfold cells'. rewrite take_app_length'; [done|by rewrite length_fmap].
    + done.
    + apply ascending_sorted_by.
      apply (insertion_sort_ascending _ elems); [done|].
      by apply Forall_forall.
    + intros b Hbne. simpl. by rewrite lookup_insert_ne.
    + intros cells1 [= <-]. exists cells'. simpl. rewrite lookup_insert_eq.
      split; [done|]. unfold cells'.
      rewrite drop_app_length'; [done|by rewrite length_fmap].
    + intros b bs Hbs. simpl. rewrite lookup_insert_ne; [done|].
      intros <-. by rewrite Hb in Hbs.
    + intros b bs. simpl. destruct (decide (b = str a)) as [->|Hbne].
      * by rewrite lookup_insert_eq.
      * by rewrite lookup_insert_ne.
    + done.
  - assert (Hc0 : count a = 0) by lia.
    destruct elems; [|simpl in Hcnt; lia].
    exists [], h. split; [done|]. split; [done|]. split; [done|].
    split; [done|]. split; [by intros i j ei ej _ Hi|].
    split; [done|]. split; [intros cells1 Hc1; by exists cells1|].
    split; [apply chars_preserved_refl|]. split; [apply chars_preserved_refl|done].
Qed.

Lemma consistent_order_example_cab :
  consistent_order (compare_strings example_heap_cab)
    [CPtr 7 0; CPtr 8 0; CPtr 6 0; CPtr 7 0].
Proof.
  split.
  - intros x y Hx Hy. in_list Hx; in_list Hy; vm_compute; split; intros; congruence.
  - intros x y z Hx Hy Hz. in_list Hx; in_list Hy; in_list Hz;
      vm_compute; intros; congruence.
Qed.

Lemma consistent_order_tail cmp x dom :
  consistent_order cmp (x :: dom) → consistent_order cmp dom.
Proof.
  intros [Hanti Htrans]. split.
  - intros y z Hy Hz. apply Hanti; by right.
  - intros y z w Hy Hz Hw. apply Htrans; by right.
Qed.

Lemma heap_wf_example_cab : heap_wf example_heap_cab.
Proof.
  split; [done|].
  intros b o. unfold example_heap_cab, initial_objs. simpl.
  rewrite !lookup_insert. repeat case_decide; subst; try lia.
  by rewrite lookup_empty.
Qed.

Lemma array_at_example_cab :
  array_at example_heap_cab 5 (StrArray 3 16 9) [CPtr 8 0; CPtr 6 0; CPtr 7 0].
Proof.
  split; [done|].
  exists (Some (CPtr 8 0) :: Some (CPtr 6 0) :: Some (CPtr 7 0) :: replicate 13 None).
  repeat split; done.
Qed.

(** X13.  [strarray_qsort] leaves the array with the same elements, each
    as often as before, in ascending order for the comparison function,
    with [count], [size] and [str] as they were; the cells after the
    elements and every other object are untouched.  An array without
    elements is left alone: [qsort] is not called, so a null [str] is
    not passed to it. *)
Theorem strarray_qsort_sorts h p a elems func :
  heap_wf h → array_at h p a elems →
  consistent_order (func h) elems →
  ∃ elems' h',
    strarray_qsort p func h = Ok (tt, h') ∧
    array_at h' p a elems' ∧
    elems' ≡ₚ elems ∧ sorted_by (func h) elems' ∧
    (∀ b, b ≠ str a → objs h' !! b = objs h !! b) ∧
    (∀ cells, objs h !! str a = Some (OPtrs cells) →
       ∃ cells', objs h' !! str a = Some (OPtrs cells') ∧
                 drop (length elems) cells' = drop (length elems) cells) ∧
    (count a = 0 → h' = h).
Proof.
  intros Hwf Ha Hord.
  destruct (strarray_qsort_spec h p a elems func Hwf Ha Hord)
    as (elems' & h' & Hrun & _ & Ha' & Hperm & Hsorted & Hframe & Hrest & _ & _ & H0).
  exists elems', h'. repeat (split; [done|]). done.
Qed.

Lemma strarray_qsort_sorts_witness :
  ∃ elems' h',
    strarray_qsort 5 compare_strings example_heap_cab = Ok (tt, h') ∧
    array_at h' 5 (StrArray 3 16 9) elems' ∧
    elems' ≡ₚ [CPtr 8 0; CPtr 6 0; CPtr 7 0] ∧
    sorted_by (compare_strings example_heap_cab) elems'.
Proof.
  destruct (strarray_qsort_sorts example_heap_cab 5 (StrArray 3 16 9)
              [CPtr 8 0; CPtr 6 0; CPtr 7 0] compare_strings
              heap_wf_example_cab array_at_example_cab
              (consistent_order_tail _ _ _ consistent_order_example_cab))
    as (elems' & h' & Hrun & Ha' & Hperm & Hsorted & _).
  exists elems', h'. split; [done|]. split; [done|]. split; [exact Hperm|exact Hsorted].
Defined.

Lemma compare_strings_reads_strings : reads_strings compare_strings.
Proof.
  intros h1 h2 H12 H21 x y.
  assert (Hsame : ∀ z, cstr_at h2 z = cstr_at h1 z).
  { intros z. unfold cstr_at.
    destruct (objs h1 !! cblk z) as [[bs| |]|] eqn:E1.
    - by rewrite (H12 _ _ E1).
    - destruct (objs h2 !! cblk z) as [[bs| |]|] eqn:E2; try done.
      by rewrite (H21 _ _ E2) in E1.
    - destruct (objs h2 !! cblk z) as [[bs| |]|] eqn:E2; try done.
      by rewrite (H21 _ _ E2) in E1.
    - destruct (objs h2 !! cblk z) as [[bs| |]|] eqn:E2; try done.
      by rewrite (H21 _ _ E2) in E1. }
  unfold compare_strings. by rewrite !Hsame.
Qed.

(** X14.  Sorting and then searching with the same comparison function
    finds what is there: after [strarray_qsort], [strarray_bsearch]
    returns an element that compares equal to the key when the array
    holds one, and a null pointer when it holds none. *)
Theorem strarray_qsort_bsearch h p a elems func key :
  heap_wf h → array_at h p a elems → reads_strings func →
  consistent_order (func h) (key :: elems) →
  ∃ h' r,
    strarray_qsort p func h = Ok (tt, h') ∧
    strarray_bsearch p key func h' = Ok (r, h') ∧
    ((∃ e, e ∈ elems ∧ func h key e = 0) → r ∈ elems ∧ func h key r = 0) ∧
    ((∀ e, e ∈ elems → func h key e ≠ 0) → r = NULL).
Proof.
  intros Hwf Ha Hreads Hord.
  destruct (strarray_qsort_spec h p a elems func Hwf Ha
              (consistent_order_tail _ _ _ Hord))
    as (elems' & h' & Hrun & Hwf' & Ha' & Hperm & Hsorted & _ & _ & H12 & H21 & _).
  pose proof (Hreads h h' H12 H21) as Hfunc.
  assert (Hord' : consistent_order (func h') (key :: elems')).
  { destruct Hord as [Hanti Htrans]. split.
    - intros x y Hx Hy. rewrite !Hfunc. apply Hanti; by rewrite <- Hperm.
    - intros x y z Hx Hy Hz. rewrite !Hfunc. apply Htrans; by rewrite <- Hperm. }
  assert (Hsorted' : sorted_by (func h') elems').
  { intros i j ei ej Hij Hi Hj. rewrite Hfunc. by eapply Hsorted. }
  destruct (strarray_bsearch_spec func h' key p a elems' Ha' Hord' Hsorted')
    as (r & Hsearch & Hr).
  exists h', r. split; [done|]. split; [done|]. split.
  - intros (e & He & Hcmp). destruct Hr as [[Hin Hr]|[_ Hnone]].
    + rewrite Hfunc in Hr. by rewrite <- Hperm.
    + destruct (Hnone e); [by rewrite Hperm|by rewrite Hfunc].
  - intros Hnone. destruct Hr as [[Hin Hr]|[-> _]]; [|done].
    rewrite Hfunc in Hr. destruct (Hnone r); [by rewrite <- Hperm|done].
Qed.

Lemma strarray_qsort_bsearch_witness :
  ∃ h' r,
    strarray_qsort 5 compare_strings example_heap_cab = Ok (tt, h') ∧
    strarray_bsearch 5 (CPtr 7 0) compare_strings h' = Ok (r, h') ∧
    compare_strings example_heap_cab (CPtr 7 0) r = 0.
Proof.
  destruct (strarray_qsort_bsearch example_heap_cab 5 (StrArray 3 16 9)
              [CPtr 8 0; CPtr 6 0; CPtr 7 0] compare_strings (CPtr 7 0)
              heap_wf_example_cab array_at_example_cab
              compare_strings_reads_strings consistent_order_example_cab)
    as (h' & r & Hsort & Hsearch & Hfound & _).
  exists h', r. split; [done|]. split; [done|].
  apply Hfound. exists (CPtr 7 0). split; [|reflexivity].
  do 2 apply list_elem_of_further. apply list_elem_of_here.
Defined.

(** ** What strarray_fromstring leaves in the memory *)

Lemma strarray_fromstring_exit_eq h A B a bs :
  0 < B → objs h !! B = Some (OChars bs) → objs h !! A = Some (OStruct a) →
  (free_chars (CPtr B 0) ;;; r <- load_struct A ;; free_struct A ;;; retM r) h
    = Ok (a, set_objs h (delete A (delete B (objs h)))).
Proof.
  intros HB0 HB HA.
  assert (HAB : A ≠ B) by (intros ->; by rewrite HB in HA).
  assert (Hfree : free_chars (CPtr B 0) h = Ok (tt, set_objs h (delete B (objs h)))).
  { unfold free_chars. rewrite decide_False by (intros [=]; lia). simpl.
    by rewrite HB. }
  rewrite (bindM_Ok _ _ _ _ _ Hfree).
  rewrite (bindM_Ok _ _ _ _ _
             (load_struct_eq (set_objs h (delete B (objs h))) A a
                ltac:(simpl; by rewrite lookup_delete_ne))).
  reflexivity.
Qed.

(** The loop of [strarray_fromstring] once more, for the blocks: every
    token is copied to the start of a new block of exactly its size,
    and the blocks the loop leaves are those that were there, the
    copies and the cells of the array. *)
Lemma strarray_fromstring_loop_blocks d delim A B :
  ∀ fuel h a elems bs (ot os : nat) t rem h',
  heap_wf h → array_at h A a elems →
  cblk delim ≠ B → cstr_at h delim = Some d →
  objs h !! B = Some (OChars bs) → Z.of_nat (length bs) < 2 ^ 64 →
  read_cstr (drop ot bs) = Some t →
  strtok_save h = CPtr B (Z.of_nat os) →
  read_cstr (drop os bs) = Some rem →
  strarray_fromstring_loop fuel A (CPtr B (Z.of_nat ot)) delim h = Ok (tt, h') →
  ∃ a' elems',
    heap_wf h' ∧ array_at h' A a' (elems ++ elems') ∧
    (∃ bsf, objs h' !! B = Some (OChars bsf)) ∧
    Forall2 (λ e t, coff e = 0 ∧ next h ≤ cblk e ∧
                    objs h' !! cblk e = Some (OChars (Some <$> t ++ [NUL])))
            elems' (t :: split_spec d rem) ∧
    NoDup (cblk <$> elems') ∧
    (∀ b o, objs h !! b = Some o → b ≠ A → b ≠ B → b ≠ str a →
            objs h' !! b = Some o) ∧
    (∀ b, is_Some (objs h' !! b) →
          (is_Some (objs h !! b) ∧ b ≠ str a) ∨ b ∈ cblk <$> elems' ∨ b = str a').
Proof.
  induction fuel as [|fuel IH];
    intros h a elems bs ot os t rem h' Hwf Harr HdB Hd HB Hbs Ht Hsave Hrem Hrun.
  { assert (HB0 : 0 < B) by (destruct Hwf as [_ Hwf]; by eapply Hwf).
    simpl in Hrun. by rewrite decide_False in Hrun by (intros [=]; lia). }
  assert (HB0 : 0 < B < next h) by (destruct Hwf as [_ Hwf]; by eapply Hwf).
  assert (HAB : A ≠ B) by (intros ->; destruct Harr as [HA _]; by rewrite HB in HA).
  assert (HAn : 0 < A < next h)
    by (destruct Hwf as [_ Hwf]; destruct Harr as [HA _]; by eapply Hwf).
  assert (Htok : CPtr B (Z.of_nat ot) ≠ NULL) by (intros [=]; lia).
  assert (Hcstr : cstr_at h (CPtr B (Z.of_nat ot)) = Some t)
    by (by rewrite (cstr_at_buf _ _ _ _ HB)).
  pose proof (read_cstr_some_lt _ _ _ Ht) as Htlen.
  pose proof (xstrdup_spec h _ t Hwf Hcstr ltac:(lia)) as Hx.
  set (N := CPtr (next h) 0) in *.
  set (h1 := with_buf h (Some <$> t ++ [NUL])) in *.
  pose proof (heap_wf_with_buf h (Some <$> t ++ [NUL]) Hwf) as Hwf1.
  pose proof (array_at_with_buf h (Some <$> t ++ [NUL]) _ _ _ Hwf Harr) as Harr1.
  pose proof (with_buf_chars h (Some <$> t ++ [NUL]) Hwf) as Hch1.
  fold h1 in Hwf1, Harr1, Hch1.
  simpl in Hrun. rewrite decide_False in Hrun by done.
  rewrite (bindM_Ok _ _ _ _ _ Hx) in Hrun.
  apply bindM_inv in Hrun as ([] & h2 & Hadd & Hrun).
  pose proof (strarray_add_inv _ _ _ _ _ _ Hwf1 Harr1 Hadd) as Hroom.
  destruct (strarray_add_spec h1 A a elems N Hwf1 Harr1 Hroom)
    as (h2' & a2 & Hadd' & Hwf2 & Harr2 & Hcnt2 & Hsz2 & Hstr2 & Hsave2 & Hframe2
        & _ & Hdel2).
  rewrite Hadd in Hadd'. injection Hadd' as <-.
  pose proof (strarray_add_chars _ _ _ _ _ _ Hwf1 Harr1 Hadd) as Hch2.
  pose proof (chars_preserved_trans _ _ _ Hch1 Hch2) as Hch.
  assert (Hnext2 : next h < next h2 ∧
            ((str a2 = str a ∧ count a ≠ size a) ∨
             (str a2 = next h1 ∧ count a = size a))).
  { destruct (decide (count a = size a)); destruct Hstr2 as [-> ->]; simpl; lia. }
  assert (HB2 : objs h2 !! B = Some (OChars bs)) by (by apply Hch).
  assert (Hd2 : cstr_at h2 delim = Some d) by (by eapply cstr_at_preserved).
  assert (HN2 : objs h2 !! next h = Some (OChars (Some <$> t ++ [NUL]))).
  { apply Hch2. unfold h1. simpl. by rewrite lookup_insert_eq. }
  assert (HNa2 : next h ≠ str a2).
  { intros E. destruct Harr2 as (_ & cells & Hc & _). unfold cells_of in Hc.
    rewrite <- E, HN2 in Hc.
    destruct (decide (next h = 0)); [destruct Hwf; lia|done]. }
  assert (HBa2 : B ≠ str a2).
  { intros E. destruct Harr2 as (_ & cells & Hc & _). unfold cells_of in Hc.
    rewrite <- E, HB2 in Hc. destruct (decide (B = 0)); [lia|done]. }
  assert (Hframe : ∀ b o, objs h !! b = Some o → b ≠ A → b ≠ B → b ≠ str a →
                          objs h2 !! b = Some o ∧ b ≠ str a2).
  { intros b o Hb HbA HbB Hba.
    assert (b < next h) by (destruct Hwf as [_ Hwf]; by eapply Hwf).
    assert (b ≠ str a2) by (destruct Hnext2 as [_ [[-> _]|[-> _]]]; simpl; [done|lia]).
    split; [|done]. rewrite Hframe2 by done. by apply with_buf_lookup_old. }
  assert (Hlive2 : ∀ b, is_Some (objs h2 !! b) → b ≠ str a2 →
            (is_Some (objs h !! b) ∧ b ≠ str a) ∨ b = next h).
  { intros b Hb Hb2.
    destruct (decide (b = next h)) as [->|HbN]; [by right|]. left.
    assert (Hbna : b ≠ str a).
    { intros ->. destruct Hnext2 as [_ [[E _]|[E Hfull]]]; [by rewrite E in Hb2|].
      destruct (decide (str a = 0)) as [E0|E0].
      - rewrite E0, (heap_wf_null _ Hwf2) in Hb. by destruct Hb.
      - rewrite (Hdel2 Hfull E0) in Hb. by destruct Hb. }
    split; [|done].
    destruct (decide (b = A)) as [->|HbA]; [destruct Harr as [-> _]; eauto|].
    rewrite Hframe2 in Hb by done. unfold h1 in Hb. simpl in Hb.
    by rewrite lookup_insert_ne in Hb. }
  pose proof (strtok_spec h2 NULL delim d B os bs rem
                ltac:(rewrite decide_True by done; by rewrite Hsave2) Hd2 HB2 Hrem) as Hst.
  rewrite (split_spec_next d rem).
  destruct (next_token d rem) as [[t' rem']|] eqn:Hnt.
  - destruct Hst as (bs' & ot' & os' & Hst & Hlen' & Ht' & Hrem').
    rewrite (bindM_Ok _ _ _ _ _ Hst) in Hrun.
    set (h3 := set_save (set_objs h2 (<[B:=OChars bs']> (objs h2)))
                        (CPtr B (Z.of_nat os'))) in *.
    assert (Hother : ∀ b, b ≠ B → objs h3 !! b = objs h2 !! b)
      by (intros b Hb; simpl; by rewrite lookup_insert_ne).
    assert (Hwf3 : heap_wf h3)
      by (apply heap_wf_set_save, heap_wf_update; [by rewrite HB2|done]).
    assert (Harr3 : array_at h3 A a2 (elems ++ [N])).
    { destruct Harr2 as [HA2 Hv2]. split; [by rewrite Hother|].
      eapply value_at_frame; [|done]. intros _. by apply Hother. }
    assert (Hd3 : cstr_at h3 delim = Some d)
      by (by rewrite (cstr_at_frame h2 h3 delim (Hother _ HdB))).
    assert (HB3 : objs h3 !! B = Some (OChars bs')) by (simpl; by rewrite lookup_insert_eq).
    destruct (IH h3 a2 (elems ++ [N]) bs' ot' os' t' rem' h'
                Hwf3 Harr3 HdB Hd3 HB3 ltac:(lia) Ht' eq_refl Hrem' Hrun)
      as (a' & elems' & Hwf' & Harr' & HB' & Hcopies & Hnodup & Hframe'
          & Hlive).
    exists a', (N :: elems').
    rewrite <- (app_assoc elems) in Harr'. simpl in Harr'.
    split; [done|]. split; [done|]. split; [done|].
    assert (Hlater : Forall (λ e, next h < cblk e) elems').
    { clear -Hcopies Hnext2. revert Hcopies.
      generalize (t' :: split_spec d rem'). intros l Hl.
      induction Hl as [|e x es xs (_ & He & _) _ IH']; constructor; [|done].
      simpl in He. lia. }
    split; [|split; [|split]].
    + constructor.
      * split; [done|]. split; [simpl; lia|]. simpl.
        apply Hframe'; [|lia..|done]. rewrite Hother by lia. done.
      * eapply Forall2_impl; [exact Hcopies|]. intros e x (? & ? & ?).
        split; [done|]. split; [simpl in *; lia|done].
    + simpl. constructor; [|done]. intros Hin.
      apply list_elem_of_fmap in Hin as (e & He & Hin).
      rewrite Forall_forall in Hlater. apply Hlater in Hin. lia.
    + intros b o Hb HbA HbB Hba.
      destruct (Hframe b o Hb HbA HbB Hba) as [Hb2 Hba2].
      apply Hframe'; [|done..]. by rewrite Hother.
    + intros b Hb. destruct (Hlive b Hb) as [[Hb3 Hne]|[Hin|Heq]].
      * destruct (decide (b = B)) as [->|HbB].
        { left. split; [by rewrite HB|].
          destruct Harr as [_ Hv]. intros E. symmetry in E. revert E.
          exact (value_at_not_chars h a _ B bs Hwf Hv HB). }
        rewrite Hother in Hb3 by done.
        destruct (Hlive2 b Hb3 Hne) as [?| ->]; [by left|].
        right; left. simpl. apply list_elem_of_here.
      * right; left. simpl. by apply list_elem_of_further.
      * by right; right.
  - destruct Hst as [sv Hst].
    rewrite (bindM_Ok _ _ _ _ _ Hst) in Hrun.
    rewrite strarray_fromstring_loop_null in Hrun. injection Hrun as <-.
    exists a2, [N].
    split; [by apply heap_wf_set_save|]. split; [exact Harr2|].
    split; [by exists bs|].
    split; [|split; [|split]].
    + constructor; [|constructor]. split; [done|]. split; [simpl; lia|exact HN2].
    + simpl. apply NoDup_singleton.
    + intros b o Hb HbA HbB Hba. by destruct (Hframe b o Hb HbA HbB Hba).
    + intros b Hb. simpl in Hb.
      destruct (decide (b = str a2)) as [->|Hne]; [by right; right|].
      destruct (Hlive2 b Hb Hne) as [?| ->]; [by left|].
      right; left. simpl. apply list_elem_of_here.
Qed.

(** X15.  What [strarray_fromstring] leaves in the memory: each element
    of the array it returns points to the start of a block of its own
    that did not exist before and has exactly the size of the token and
    its terminator; the only other new block is the one of the cells.
    The working copy of the text and the local array are gone. *)
Theorem strarray_fromstring_owns h s delim txt d :
  heap_wf h → statics_at h → cstr_at h s = Some txt → cstr_at h delim = Some d →
  ∀ r h', strarray_fromstring s delim h = Ok (r, h') →
    ∃ elems, value_at h' r elems ∧
      Forall2 (λ e t, coff e = 0 ∧ objs h !! cblk e = None ∧
                      objs h' !! cblk e = Some (OChars (Some <$> t ++ [NUL])))
              elems (split_spec d txt) ∧
      NoDup (cblk <$> elems) ∧
      (∀ b, is_Some (objs h' !! b) →
            is_Some (objs h !! b) ∨ b ∈ cblk <$> elems ∨ b = str r).
Proof.
  intros Hwf Hstat Hs Hd r h' Hrun. destruct Hstat as (Hempty & _).
  set (A := next h).
  destruct (alloc_spec (OStruct empty_strarray) h Hwf)
    as (hA & Halloc & HwfA & HobjsA & HnextA & HsaveA).
  fold A in Halloc, HobjsA, HnextA.
  assert (HoldA : ∀ b o, objs h !! b = Some o → objs hA !! b = Some o ∧ b < A).
  { intros b o Hb. assert (b < A) by (destruct Hwf as [_ Hwf]; by eapply Hwf).
    split; [|done]. rewrite HobjsA, lookup_insert_ne by lia. done. }
  assert (HA0 : 0 < A) by (destruct Hwf; unfold A; lia).
  assert (HsA : cstr_at hA s = Some txt).
  { rewrite (cstr_at_frame h hA s); [done|]. unfold cstr_at in Hs.
    destruct (objs h !! cblk s) as [o|] eqn:E; [|done]. by apply HoldA in E as [-> _]. }
  assert (HdA : cstr_at hA delim = Some d).
  { rewrite (cstr_at_frame h hA delim); [done|]. unfold cstr_at in Hd.
    destruct (objs h !! cblk delim) as [o|] eqn:E; [|done]. by apply HoldA in E as [-> _]. }
  assert (HdB : cblk delim ≠ next hA).
  { unfold cstr_at in Hd. destruct (objs h !! cblk delim) as [o|] eqn:E; [|done].
    apply HoldA in E as [_ ?]. lia. }
  pose proof (xstrdup_iff hA s txt HwfA HsA) as Hx.
  unfold strarray_fromstring in Hrun.
  rewrite (bindM_Ok _ _ _ _ _ (load_struct_eq _ _ _ Hempty)) in Hrun.
  rewrite (bindM_Ok _ _ _ _ _ Halloc) in Hrun.
  destruct (decide (Z.of_nat (length txt) + 1 < 2 ^ 64)) as [Hfit|Hbig].
  2: { by rewrite (bindM_Undef _ _ _ Hx) in Hrun. }
  set (B := next hA) in *. set (bs := Some <$> txt ++ [NUL]) in *.
  set (hB := with_buf hA bs) in *.
  rewrite (bindM_Ok _ _ _ _ _ Hx) in Hrun.
  pose proof (heap_wf_with_buf hA bs HwfA) as HwfB. fold hB in HwfB.
  pose proof (cstr_at_nul_free _ _ _ Hs) as Hnul.
  assert (HB : objs hB !! B = Some (OChars bs)) by (simpl; by rewrite lookup_insert_eq).
  assert (Hread : read_cstr (drop 0 bs) = Some txt).
  { rewrite drop_0. unfold bs. rewrite fmap_app. by apply read_cstr_app. }
  assert (Hbuf : cstr_at hB (CPtr B 0) = Some txt)
    by (rewrite <- Hread; exact (cstr_at_buf hB B 0 bs HB)).
  pose proof (with_buf_cstr_old hA bs _ _ HwfA HdA) as HdelB. fold hB in HdelB.
  assert (HA : objs hB !! A = Some (OStruct empty_strarray)).
  { apply with_buf_lookup_old; [done|]. by rewrite HobjsA, lookup_insert_eq. }
  assert (Harr : array_at hB A empty_strarray []).
  { split; [done|]. exists []. repeat split; done. }
  assert (HliveB : ∀ b, is_Some (objs hB !! b) → b ≠ A → b ≠ B →
                        is_Some (objs h !! b)).
  { intros b Hb HbA HbB. unfold hB in Hb. simpl in Hb.
    rewrite lookup_insert_ne in Hb by done.
    by rewrite HobjsA, lookup_insert_ne in Hb. }
  rewrite (bindM_Ok _ _ _ _ _ (strlen_spec _ _ _ Hbuf)) in Hrun.
  rewrite Nat2Z.id in Hrun.
  assert (Hbs : Z.of_nat (length bs) < 2 ^ 64).
  { unfold bs. rewrite length_fmap, length_app. simpl. lia. }
  assert (Hsarg : (if decide (CPtr B 0 = NULL) then strtok_save hB else CPtr B 0)
                  = CPtr B (Z.of_nat 0)).
  { rewrite decide_False; [done|]. intros [=]. destruct HwfA. lia. }
  pose proof (strtok_spec hB (CPtr B 0) delim d B 0 bs txt Hsarg HdelB HB Hread) as Hst.
  assert (HBA : A < B) by (unfold B; lia).
  rewrite (split_spec_next d txt).
  destruct (next_token d txt) as [[t rem]|] eqn:Hnt.
  - destruct Hst as (bs' & ot & os & Hst & Hlen' & Ht & Hrem).
    rewrite (bindM_Ok _ _ _ _ _ Hst) in Hrun.
    set (h3 := set_save (set_objs hB (<[B:=OChars bs']> (objs hB)))
                        (CPtr B (Z.of_nat os))) in *.
    assert (Hother : ∀ b, b ≠ B → objs h3 !! b = objs hB !! b).
    { intros b Hb. unfold h3. simpl. by rewrite lookup_insert_ne. }
    assert (Hwf3 : heap_wf h3)
      by (apply heap_wf_set_save, heap_wf_update; [by rewrite HB|done]).
    assert (Harr3 : array_at h3 A empty_strarray []).
    { split; [by rewrite Hother by lia|]. exists []. repeat split; done. }
    assert (Hd3 : cstr_at h3 delim = Some d)
      by (by rewrite (cstr_at_frame hB h3 delim (Hother _ HdB))).
    assert (HB3 : objs h3 !! B = Some (OChars bs'))
      by (unfold h3; simpl; by rewrite lookup_insert_eq).
    apply bindM_inv in Hrun as ([] & h4 & Hloop & Hexit).
    destruct (strarray_fromstring_loop_blocks d delim A B (S (length txt)) h3
                empty_strarray [] bs' ot os t rem h4
                Hwf3 Harr3 HdB Hd3 HB3 ltac:(lia) Ht eq_refl Hrem Hloop)
      as (a' & elems & Hwf4 & Harr4 & [bsf HB4] & Hcopies & Hnodup & _ & Hlive).
    simpl in Harr4.
    rewrite (strarray_fromstring_exit_eq h4 A B a' bsf) in Hexit;
      [|destruct HwfA; lia|done|by destruct Harr4].
    injection Hexit as <- <-.
    assert (Hn3 : next h3 = next h + 2) by (unfold h3, hB; simpl; lia).
    exists elems. split; [|split; [|split; [done|]]].
    + destruct Harr4 as [HA4 Hv4]. eapply value_at_frame; [|exact Hv4].
      intros _. simpl. rewrite !lookup_delete_ne; [done| |].
      * intros E. symmetry in E. revert E.
        exact (value_at_not_chars h4 a' _ B bsf Hwf4 Hv4 HB4).
      * intros E. symmetry in E. revert E.
        exact (array_at_struct_ne_str h4 A a' _ (conj HA4 Hv4) Hwf4).
    + eapply Forall2_impl; [exact Hcopies|]. intros e x (Hoff & Hge & Hobj).
      rewrite Hn3 in Hge. split; [done|]. split.
      * destruct (objs h !! cblk e) as [o|] eqn:E; [|done].
        apply HoldA in E as [_ ?]. lia.
      * simpl. rewrite !lookup_delete_ne by lia. done.
    + intros b Hb. simpl in Hb.
      destruct (decide (b = A)) as [->|HbA]; [rewrite lookup_delete_eq in Hb; by destruct Hb|].
      rewrite lookup_delete_ne in Hb by done.
      destruct (decide (b = B)) as [->|HbB]; [rewrite lookup_delete_eq in Hb; by destruct Hb|].
      rewrite lookup_delete_ne in Hb by done.
      destruct (Hlive b Hb) as [[Hb3 _]|[Hin|Heq]]; [|by right; left|by right; right].
      left. rewrite Hother in Hb3 by done. by apply HliveB.
  - destruct Hst as [sv Hst].
    rewrite (bindM_Ok _ _ _ _ _ Hst) in Hrun.
    rewrite (bindM_Ok _ _ _ _ _
               (strarray_fromstring_loop_null (S (length txt)) A delim (set_save hB sv)))
      in Hrun.
    rewrite (strarray_fromstring_exit_eq (set_save hB sv) A B empty_strarray bs) in Hrun;
      [|destruct HwfA; lia|done|done].
    injection Hrun as <- <-.
    exists []. split; [exists []; repeat split; done|].
    split; [constructor|]. split; [constructor|].
    intros b Hb. simpl in Hb. left.
    destruct (decide (b = A)) as [->|HbA]; [rewrite lookup_delete_eq in Hb; by destruct Hb|].
    rewrite lookup_delete_ne in Hb by done.
    destruct (decide (b = B)) as [->|HbB]; [rewrite lookup_delete_eq in Hb; by destruct Hb|].
    rewrite lookup_delete_ne in Hb by done.
    by apply HliveB.
Qed.

Lemma strarray_fromstring_owns_witness :
  ∃ r h' elems,
    strarray_fromstring (CPtr 11 0) lit_colon example_heap_abc = Ok (r, h') ∧
    value_at h' r elems ∧ NoDup (cblk <$> elems) ∧
    objs h' !! 12 = None ∧ objs h' !! 13 = None.
Proof.
  destruct (strarray_fromstring_spec example_heap_abc (CPtr 11 0) lit_colon
              (list_ascii_of_string "a:b::c") [":"%char]
              heap_wf_example_abc statics_at_example_abc eq_refl eq_refl)
    as [_ Htotal].
  destruct Htotal as (r & h' & Hrun);
    [vm_compute; reflexivity|vm_compute; discriminate|].
  destruct (strarray_fromstring_owns example_heap_abc (CPtr 11 0) lit_colon
              (list_ascii_of_string "a:b::c") [":"%char]
              heap_wf_example_abc statics_at_example_abc eq_refl eq_refl r h' Hrun)
    as (elems & Hv & Hcopies & Hnodup & Hlive).
  exists r, h', elems. split; [done|]. split; [done|]. split; [done|].
  assert (Hrun' := Hrun). vm_compute in Hrun'. injection Hrun' as <- <-.
  split; reflexivity.
Defined.

(** ** strarray_tostring beyond the range of unsigned int *)

Lemma heap_wf_example_refs n m : heap_wf (example_heap_refs n m).
Proof.
  split; [done|].
  intros b o. unfold example_heap_refs, initial_objs. simpl.
  rewrite !lookup_insert. repeat case_decide; subst; try lia.
  by rewrite lookup_empty.
Qed.

Lemma statics_at_example_refs n m : statics_at (example_heap_refs n m).
Proof. repeat split; reflexivity. Qed.

Lemma value_at_example_refs n m c :
  c = Z.of_nat m → c < 2 ^ 32 →
  value_at (example_heap_refs n m) (StrArray c c 7) (replicate m (CPtr 6 0)).
Proof.
  intros -> Hm. exists (replicate m (Some (CPtr 6 0))).
  split; [done|]. rewrite !length_replicate.
  split; [done|]. split; [done|]. split; [done|].
  by rewrite take_replicate, Nat.min_id, fmap_replicate.
Qed.

Lemma cstr_at_example_refs n m :
  cstr_at (example_heap_refs n m) (CPtr 6 0) = Some (replicate n "x"%char).
Proof.
  unfold cstr_at. simpl. rewrite lookup_insert_eq. simpl.
  apply read_cstr_app. intros Hin. by apply elem_of_replicate in Hin as [? _].
Qed.

Lemma strings_at_example_refs n m k :
  strings_at (example_heap_refs n m) (replicate k (CPtr 6 0))
    (replicate k (replicate n "x"%char)).
Proof.
  induction k as [|k IH]; [constructor|].
  constructor; [apply cstr_at_example_refs|exact IH].
Qed.

Lemma total_length_replicate m (t : list ascii) :
  total_length (replicate m t) = (m * length t)%nat.
Proof.
  unfold total_length. induction m as [|m IH]; [done|].
  simpl. rewrite length_app, IH. lia.
Qed.

Lemma strarray_tostring_refs n m c :
  c = Z.of_nat m → c < 2 ^ 32 →
  2 ^ 32 ≤ Z.of_nat m * Z.of_nat n + Z.of_nat m →
  strarray_tostring (StrArray c c 7) (CPtr 8 0) (example_heap_refs n m) = Undef.
Proof.
  intros Hc Hm Hbig.
  destruct (strarray_tostring_spec (example_heap_refs n m) (StrArray c c 7)
              (replicate m (CPtr 6 0)) (replicate m (replicate n "x"%char))
              (CPtr 8 0) [","%char]
              (heap_wf_example_refs n m) (statics_at_example_refs n m)
              (value_at_example_refs n m c Hc Hm) (strings_at_example_refs n m m)
              eq_refl) as [_ Hno].
  apply Hno. cbv zeta.
  assert (Hne : replicate m (replicate n "x"%char) ≠ []) by (destruct m; [simpl in *; lia|done]).
  rewrite (length_join_spec _ _ Hne), total_length_replicate, !length_replicate.
  simpl length. lia.
Qed.

(** C6.  For an array of 65536 elements that all point to one string of
    65536 characters, joined with ",", the length of the result does not
    fit the [unsigned int] in which [strarray_tostring] adds it up: the
    sum wraps, the buffer is allocated too small and [strcpy] and
    [strcat] write beyond it.  The call has undefined behaviour; it does
    not return the joined string. *)
Theorem strarray_tostring_wraps :
  strarray_tostring (StrArray 65536 65536 7) (CPtr 8 0)
    (example_heap_refs (Z.to_nat 65536) (Z.to_nat 65536)) = Undef.
Proof.
  assert (H : Z.of_nat (Z.to_nat 65536) = 65536) by (apply Z2Nat.id; lia).
  apply strarray_tostring_refs; rewrite ?H; lia.
Qed.

(** ** strmake at the end of the range of int *)

(** C9.  For a text of exactly [INT_MAX] characters and a [vsnprintf]
    that reports the length it needs, the first attempt, with 100
    bytes, is told [INT_MAX], and the size [n + 1] of the next buffer
    overflows [int]: [strmake] has undefined behaviour and does not
    return the text, which the formatting engine can render. *)
Theorem strmake_int_max_overflow :
  ∀ fuel, strmake (S fuel)
            (Engine (replicate (Z.to_nat INT_MAX) "a"%char) (λ _, false))
            initial_heap = Undef.
Proof.
  intros fuel. unfold strmake.
  rewrite strmake_loop_unfold by (apply heap_wf_initial || lia). cbv zeta.
  rewrite length_rendered_replicate.
  assert (H : Z.of_nat (Z.to_nat INT_MAX) = INT_MAX)
    by (apply Z2Nat.id; unfold INT_MAX; lia).
  rewrite H. unfold INT_MAX.
  rewrite decide_False by lia. rewrite decide_False by lia.
  change (legacy (Engine _ (λ _, false)) 100) with false. cbv iota.
  by rewrite decide_False by lia.
Qed.
